(** * SpotifyPlaylistAutomation: the sync front end and its confirm protocol

    A shallow embedding of the Vue front end of the repository:
    - [Js]: the JavaScript values the code handles (parsed JSON, IEEE doubles),
      with the coercions the code relies on;
    - [Api]: the axios client of [frontend/src/services/api.js];
    - [ValidationView]: [calculatePercentage];
    - [SyncView]: the handlers of [frontend/src/components/SyncView.vue] as
      programs over the effects they perform, one invocation as the trace of
      what it does in a given world, the component as a machine that reacts
      to clicks, responses and dialog answers, and the template of its
      dialog;
    - [SyncOutcome], [SyncDialogs]: what an invocation records, and what the
      dialog of [SyncView.vue] stands for;
    - [JsString], [JsObject]: the words of a string, and objects made by
      spreading;
    - [Async]: handlers as programs over the refs of their component;
    - [ApiCalls], [Validation], [FileOperationsView], [App]: the rest of the
      client, of [ValidationView.vue], and the handlers of
      [FileOperationsView.vue] and [App.vue];
    followed by the properties of the confirm protocol, and then those of
    the rest of the code. *)

From Stdlib Require Import String Ascii List ZArith Bool Lia DecimalString.
From Stdlib Require Import Floats.SpecFloat.
Import ListNotations.
Local Open Scope string_scope.
Set Warnings "-register-all".

(* ===================================================================== *)
(** * JavaScript values *)
(* ===================================================================== *)

Module Js.

(** A Number is an IEEE 754 binary64 value. *)
Definition number := spec_float.

Definition prec : Z := 53.
Definition emax : Z := 1024.

Definition nan : number := S754_nan.
Definition pos_zero : number := S754_zero false.
Definition neg_zero : number := S754_zero true.
Definition pos_infinity : number := S754_infinity false.

(** The Number of an integer (exact below 2^53). *)
Definition of_Z (z : Z) : number := binary_normalize prec emax z 0 false.
Definition of_nat (n : nat) : number := of_Z (Z.of_nat n).

Definition div (x y : number) : number := SFdiv prec emax x y.
Definition mul (x y : number) : number := SFmul prec emax x y.

(** [x > 0] on Numbers. *)
Definition gt_zero (x : number) : bool := SFltb pos_zero x.

Definition is_nan (x : number) : bool :=
  match x with S754_nan => true | _ => false end.
Definition is_infinite (x : number) : bool :=
  match x with S754_infinity _ => true | _ => false end.
Definition is_zero (x : number) : bool :=
  match x with S754_zero _ => true | _ => false end.
Definition is_finite (x : number) : bool :=
  match x with S754_zero _ | S754_finite _ _ _ => true | _ => false end.

(** [Math.round]: a non-finite or integral Number is returned as it is; any
    other one goes to the closest integer, the one towards +Infinity on a
    tie, and a result of zero keeps the sign of the argument. *)
Definition math_round (x : number) : number :=
  match x with
  | S754_finite s m e =>
      if (0 <=? e)%Z then x
      else
        let k := (- e)%Z in
        if (Z.pos m mod 2 ^ k =? 0)%Z then x
        else
          let r := ((2 * cond_Zopp s (Z.pos m) + 2 ^ k) / 2 ^ (k + 1))%Z in
          binary_normalize prec emax r 0 s
  | _ => x
  end.

(** A value: what [JSON.parse] can produce, and [undefined].  The fields of
    an object are listed in property order and their keys are distinct. *)
Inductive jsval : Type :=
| JUndef
| JNull
| JBool (b : bool)
| JNum (x : number)
| JStr (s : string)
| JArr (items : list jsval)
| JObj (fields : list (string * jsval)).

(** ToBoolean. *)
Definition truthy (v : jsval) : bool :=
  match v with
  | JUndef | JNull => false
  | JBool b => b
  | JNum x => negb (is_zero x || is_nan x)
  | JStr s => negb (String.eqb s "")
  | JArr _ | JObj _ => true
  end.

Fixpoint lookup (k : string) (fields : list (string * jsval)) : jsval :=
  match fields with
  | [] => JUndef
  | (k', v) :: rest => if String.eqb k k' then v else lookup k rest
  end.

(** What a failed operation throws. *)
Definition type_error (msg : string) : jsval :=
  JObj [("name", JStr "TypeError"); ("message", JStr msg)].

(** [v.k] for a property name [k] that is no built-in of strings, arrays,
    numbers or booleans: reading it off [undefined] or [null] throws, an
    object gives its field, anything else gives [undefined]. *)
Definition get (v : jsval) (k : string) : jsval + jsval :=
  match v with
  | JUndef | JNull => inl (type_error ("Cannot read properties of undefined or null (reading " ++ k ++ ")"))
  | JObj fields => inr (lookup k fields)
  | _ => inr JUndef
  end.

(** [v?.k]. *)
Definition get_opt (v : jsval) (k : string) : jsval :=
  match v with
  | JObj fields => lookup k fields
  | _ => JUndef
  end.

(** A parameter with a default value: the default stands in for [undefined],
    which is also what an omitted argument is. *)
Definition default_param (d arg : jsval) : jsval :=
  match arg with JUndef => d | _ => arg end.

(** The two conversions between Numbers and their decimal notation are those
    of the language; the development is parametric in them. *)
Class NumberText : Type := {
  StringToNumber : string -> number;
  NumberToString : number -> string
}.

Fixpoint join (sep : string) (l : list string) : string :=
  match l with
  | [] => ""
  | [s] => s
  | s :: rest => s ++ sep ++ join sep rest
  end.

Section Coercions.
Context {NT : NumberText}.

(** ToString; an array is its elements joined with commas, [null] and
    [undefined] elements counting as empty. *)
Fixpoint to_string (v : jsval) : string :=
  match v with
  | JUndef => "undefined"
  | JNull => "null"
  | JBool true => "true"
  | JBool false => "false"
  | JNum x => NumberToString x
  | JStr s => s
  | JArr items =>
      join "," (map (fun i => match i with
                              | JUndef | JNull => ""
                              | _ => to_string i
                              end) items)
  | JObj _ => "[object Object]"
  end.

(** ToNumber. *)
Definition to_number (v : jsval) : number :=
  match v with
  | JUndef => nan
  | JNull => pos_zero
  | JBool true => of_Z 1
  | JBool false => pos_zero
  | JNum x => x
  | JStr s => StringToNumber s
  | JArr _ | JObj _ => StringToNumber (to_string v)
  end.

End Coercions.

(** The integer a Number is, when it is one. *)
Definition integral (x : number) : option Z :=
  match x with
  | S754_zero _ => Some 0%Z
  | S754_finite s m e =>
      if (0 <=? e)%Z then Some (cond_Zopp s (Z.pos m * 2 ^ e))
      else if (Z.pos m mod 2 ^ (- e) =? 0)%Z
           then Some (cond_Zopp s (Z.pos m / 2 ^ (- e)))
           else None
  | _ => None
  end.

(** The conversions on the integers up to 2^53 and their decimal digits,
    where the text of a Number is those digits; this is all the text the
    examples of this development convert. *)
Definition decimal_integers : NumberText := {|
  StringToNumber s :=
    match NilZero.int_of_string s with
    | Some i => of_Z (Z.of_int i)
    | None => nan
    end;
  NumberToString x :=
    match x with
    | S754_nan => "NaN"
    | S754_infinity false => "Infinity"
    | S754_infinity true => "-Infinity"
    | _ =>
        match integral x with
        | Some z =>
            if (Z.abs z <=? 2 ^ 53)%Z then NilZero.string_of_int (Z.to_int z) else ""
        | None => ""
        end
    end
|}.

End Js.

(* ===================================================================== *)
(** * services/api.js *)
(* ===================================================================== *)

Module Api.
Import Js.

Inductive http_method := GET | POST.

(** A call made on [apiClient]: method, path below the base URL, and the
    JSON body when there is one. *)
Record request : Type := {
  method : http_method;
  url : string;
  data : option jsval
}.

Definition apiClient_get (u : string) : request :=
  {| method := GET; url := u; data := None |}.
Definition apiClient_post (u : string) (body : option jsval) : request :=
  {| method := POST; url := u; data := body |}.

Definition getStatus : request := apiClient_get "/status".
Definition connectSpotify : request := apiClient_post "/spotify/connect" None.

Definition clearDatabase : request := apiClient_post "/db/clear" None.

Definition sync_body (forceRefresh confirm : jsval) : jsval :=
  JObj [("force_refresh", default_param (JBool false) forceRefresh);
        ("confirm", default_param (JBool false) confirm)].

Definition syncPlaylists (forceRefresh confirm : jsval) : request :=
  apiClient_post "/sync/playlists" (Some (sync_body forceRefresh confirm)).
Definition syncTracks (forceRefresh confirm : jsval) : request :=
  apiClient_post "/sync/tracks" (Some (sync_body forceRefresh confirm)).
Definition syncAll (forceRefresh confirm : jsval) : request :=
  apiClient_post "/sync/all" (Some (sync_body forceRefresh confirm)).
Definition syncToMaster : request := apiClient_post "/spotify/sync-to-master" None.
Definition syncUnplaylisted : request := apiClient_post "/spotify/sync-unplaylisted" None.

Definition clearCache : request := apiClient_post "/cache/clear" None.

(** The three operations that take the flags. *)
Inductive sync_op := SyncPlaylists | SyncTracks | SyncAll.

Definition sync (op : sync_op) : jsval -> jsval -> request :=
  match op with
  | SyncPlaylists => syncPlaylists
  | SyncTracks => syncTracks
  | SyncAll => syncAll
  end.

Definition sync_url (op : sync_op) : string :=
  match op with
  | SyncPlaylists => "/sync/playlists"
  | SyncTracks => "/sync/tracks"
  | SyncAll => "/sync/all"
  end.

(** The fields of a request's body; [undefined] when there is no body. *)
Definition body_field (k : string) (r : request) : jsval :=
  match data r with
  | Some b => get_opt b k
  | None => JUndef
  end.
Definition body_confirm : request -> jsval := body_field "confirm".
Definition body_force_refresh : request -> jsval := body_field "force_refresh".

End Api.

(* ===================================================================== *)
(** * components/ValidationView.vue *)
(* ===================================================================== *)

Module ValidationView.
Import Js.

Section WithNumberText.
Context {NT : NumberText}.

(** [if (!total) return 0; return Math.round((part / total) * 100);] *)
Definition calculatePercentage (part total : jsval) : jsval :=
  if negb (truthy total) then JNum pos_zero
  else JNum (math_round (mul (div (to_number part) (to_number total)) (of_Z 100))).

End WithNumberText.

End ValidationView.

(* ===================================================================== *)
(** * components/SyncView.vue *)
(* ===================================================================== *)

Module SyncView.
Import Js.

(** ** The state of the component *)

(** The keys of the [loading] ref. *)
Inductive loading_key :=
| LSyncPlaylists | LSyncTracks | LSyncAll | LClearDb
| LSyncMaster | LSyncUnplaylisted | LClearCache.

Definition loading_key_eqb (a b : loading_key) : bool :=
  match a, b with
  | LSyncPlaylists, LSyncPlaylists | LSyncTracks, LSyncTracks
  | LSyncAll, LSyncAll | LClearDb, LClearDb | LSyncMaster, LSyncMaster
  | LSyncUnplaylisted, LSyncUnplaylisted | LClearCache, LClearCache => true
  | _, _ => false
  end.

(** The functions stored in the dialog: [clearDatabase] itself, or one of
    the two closures of [confirmDialog], which close the dialog and resolve
    that call's promise with [true] or [false]. *)
Inductive dialog_fn :=
| ClearDatabaseFn
| ResolveFn (promise : nat) (answer : bool).

(** The [dialog] ref.  A missing or [null] function is [None]. *)
Record dialog_box : Type := {
  show : bool;
  title : string;
  text : string;
  details : jsval;
  action : option dialog_fn;
  cancel : option dialog_fn
}.

(** What [getCurrentInstance()] returns: nothing, or an instance whose proxy
    has or has not the global [$showSnackbar]. *)
Inductive current_instance := NoInstance | InstanceWithout | InstanceWith.

(** An assignment to one of the refs. *)
Inductive write :=
| SetLoading (k : loading_key) (b : bool)
| SetLastOperation (v : jsval)
| SetDialog (d : dialog_box)
| SetDialogShow (b : bool).

(** How the promise of a request settles: fulfilled with a response, of
    which the handlers read the [data], or rejected with an error. *)
Inductive http_result :=
| Resolved (response_data : jsval)
| Rejected (error : jsval).

(** ** Handlers as programs

    A handler is a tree of the effects it performs; a node that gets an
    answer from outside (a read of a ref, the settling of a promise) has one
    subtree per answer. *)
Inductive prog (A : Type) : Type :=
| Ret (a : A)
| Throw (e : jsval)
| Write (w : write) (k : prog A)
| ReadForceRefresh (k : bool -> prog A)
| GetCurrentInstance (k : current_instance -> prog A)
| CallSnackbar (text color : string) (k : prog A)
| ConsoleError (msg : string) (k : prog A)
| AwaitPost (r : Api.request) (k : http_result -> prog A)
| AwaitConfirm (title text : string) (details : jsval) (k : bool -> prog A).

Arguments Ret {A} a.
Arguments Throw {A} e.
Arguments Write {A} w k.
Arguments ReadForceRefresh {A} k.
Arguments GetCurrentInstance {A} k.
Arguments CallSnackbar {A} text color k.
Arguments ConsoleError {A} msg k.
Arguments AwaitPost {A} r k.
Arguments AwaitConfirm {A} title text details k.

Fixpoint bind {A B : Type} (p : prog A) (f : A -> prog B) : prog B :=
  match p with
  | Ret a => f a
  | Throw e => Throw e
  | Write w k => Write w (bind k f)
  | ReadForceRefresh k => ReadForceRefresh (fun b => bind (k b) f)
  | GetCurrentInstance k => GetCurrentInstance (fun i => bind (k i) f)
  | CallSnackbar t c k => CallSnackbar t c (bind k f)
  | ConsoleError m k => ConsoleError m (bind k f)
  | AwaitPost r k => AwaitPost r (fun x => bind (k x) f)
  | AwaitConfirm t m d k => AwaitConfirm t m d (fun x => bind (k x) f)
  end.

(** [try { p } catch (error) { h error }] *)
Fixpoint try_catch {A : Type} (p : prog A) (h : jsval -> prog A) : prog A :=
  match p with
  | Ret a => Ret a
  | Throw e => h e
  | Write w k => Write w (try_catch k h)
  | ReadForceRefresh k => ReadForceRefresh (fun b => try_catch (k b) h)
  | GetCurrentInstance k => GetCurrentInstance (fun i => try_catch (k i) h)
  | CallSnackbar t c k => CallSnackbar t c (try_catch k h)
  | ConsoleError m k => ConsoleError m (try_catch k h)
  | AwaitPost r k => AwaitPost r (fun x => try_catch (k x) h)
  | AwaitConfirm t m d k => AwaitConfirm t m d (fun x => try_catch (k x) h)
  end.

(** [try { p } finally { fin }]: [fin] runs once, however [p] ends, and the
    outcome of [p] stands unless [fin] throws. *)
Fixpoint finally {A : Type} (p : prog A) (fin : prog unit) : prog A :=
  match p with
  | Ret a => bind fin (fun _ => Ret a)
  | Throw e => bind fin (fun _ => Throw e)
  | Write w k => Write w (finally k fin)
  | ReadForceRefresh k => ReadForceRefresh (fun b => finally (k b) fin)
  | GetCurrentInstance k => GetCurrentInstance (fun i => finally (k i) fin)
  | CallSnackbar t c k => CallSnackbar t c (finally k fin)
  | ConsoleError m k => ConsoleError m (finally k fin)
  | AwaitPost r k => AwaitPost r (fun x => finally (k x) fin)
  | AwaitConfirm t m d k => AwaitConfirm t m d (fun x => finally (k x) fin)
  end.

Declare Scope prog_scope.
Delimit Scope prog_scope with prog.
Notation "x <- p ;; k" := (bind p (fun x => k))
  (at level 61, p at next level, right associativity) : prog_scope.
Notation "p ;; k" := (bind p (fun _ => k))
  (at level 61, right associativity) : prog_scope.
Local Open Scope prog_scope.

Definition set (w : write) : prog unit := Write w (Ret tt).

(** A property read that throws on [undefined] and [null]. *)
Definition read (v : jsval) (k : string) : prog jsval :=
  match get v k with
  | inl e => Throw e
  | inr x => Ret x
  end.

(** [await] on the promise of a request: the [data] of the response, or
    the rejection thrown. *)
Definition await_post (r : Api.request) : prog jsval :=
  AwaitPost r (fun res =>
    match res with
    | Resolved d => Ret d
    | Rejected e => Throw e
    end).

(** [confirmDialog(title, message, details)], awaited. *)
Definition confirmDialog (title message : string) (details : jsval) : prog bool :=
  AwaitConfirm title message details (fun b => Ret b).

(** [showSnackbar]: destructuring the result of [getCurrentInstance()]
    throws when there is no instance. *)
Definition showSnackbar (text color : string) : prog unit :=
  GetCurrentInstance (fun i =>
    match i with
    | NoInstance => Throw (type_error "Cannot destructure property proxy")
    | InstanceWith => CallSnackbar text color (Ret tt)
    | InstanceWithout => ConsoleError "Snackbar function not available" (Ret tt)
    end).

Definition last_operation (type : string) (success : bool) (rest : list (string * jsval)) : jsval :=
  JObj (("type", JStr type) :: ("success", JBool success) :: rest).

Definition newline : string := String (ascii_of_nat 10) "".

Section Handlers.
Context {NT : NumberText}.

(** [track => `${track.artists} - ${track.title} (${track.album})`] *)
Definition format_track (track : jsval) : jsval + string :=
  match get track "artists", get track "title", get track "album" with
  | inr artists, inr title, inr album =>
      inr (to_string artists ++ " - " ++ to_string title ++ " (" ++ to_string album ++ ")")
  | inl e, _, _ | _, inl e, _ | _, _, inl e => inl e
  end.

Fixpoint map_tracks (tracks : list jsval) : jsval + list string :=
  match tracks with
  | [] => inr []
  | t :: rest =>
      match format_track t with
      | inl e => inl e
      | inr s =>
          match map_tracks rest with
          | inl e => inl e
          | inr l => inr (s :: l)
          end
      end
  end.

(** [added.map(track => ...)]: only an array has a [map]. *)
Definition format_added (added : jsval) : prog (list string) :=
  match added with
  | JArr tracks =>
      match map_tracks tracks with
      | inl e => Throw e
      | inr l => Ret l
      end
  | JUndef | JNull => Throw (type_error "Cannot read properties of undefined or null (reading map)")
  | _ => Throw (type_error "map is not a function")
  end.

Definition syncPlaylists : prog unit :=
  set (SetLoading LSyncPlaylists true) ;;
  finally
    (try_catch
       (forceRefresh <- ReadForceRefresh Ret ;;
        response <- await_post (Api.syncPlaylists (JBool forceRefresh) (JBool false)) ;;
        needs_confirmation <- read response "needs_confirmation" ;;
        if truthy needs_confirmation then
          analysis <- read response "analysis" ;;
          added <- read analysis "added" ;;
          updated <- read analysis "updated" ;;
          confirmResult <- confirmDialog "Confirm Playlist Sync"
            ("Found " ++ to_string added ++ " playlists to add and "
               ++ to_string updated ++ " to update.")
            analysis ;;
          if negb confirmResult then
            set (SetLoading LSyncPlaylists false)
          else
            forceRefresh' <- ReadForceRefresh Ret ;;
            syncResponse <- await_post (Api.syncPlaylists (JBool forceRefresh') (JBool true)) ;;
            stats <- read syncResponse "stats" ;;
            set (SetLastOperation (last_operation "Sync Playlists" true [("stats", stats)])) ;;
            showSnackbar "Playlists synced successfully" "success"
        else
          stats <- read response "stats" ;;
          set (SetLastOperation (last_operation "Sync Playlists" true [("stats", stats)])) ;;
          showSnackbar "Playlists synced successfully" "success")
       (fun error => Ret tt))
    (set (SetLoading LSyncPlaylists false)).

Definition syncMasterTracks : prog unit :=
  set (SetLoading LSyncTracks true) ;;
  finally
    (try_catch
       (forceRefresh <- ReadForceRefresh Ret ;;
        response <- await_post (Api.syncTracks (JBool forceRefresh) (JBool false)) ;;
        needs_confirmation <- read response "needs_confirmation" ;;
        if truthy needs_confirmation then
          analysis <- read response "analysis" ;;
          added <- read analysis "added" ;;
          addedTracks <- format_added added ;;
          let confirmMessage :=
            "Found " ++ to_string (JNum (of_nat (length addedTracks)))
              ++ " tracks to add. Would you like to proceed?" in
          confirmResult <- confirmDialog "Confirm Track Sync" confirmMessage
            (JObj [("added_tracks", JArr (map JStr addedTracks))]) ;;
          if negb confirmResult then
            set (SetLoading LSyncTracks false)
          else
            forceRefresh' <- ReadForceRefresh Ret ;;
            syncResponse <- await_post (Api.syncTracks (JBool forceRefresh') (JBool true)) ;;
            stats <- read syncResponse "stats" ;;
            set (SetLastOperation (last_operation "Sync Master Tracks" true [("stats", stats)])) ;;
            showSnackbar "Master tracks synced successfully" "success"
        else
          stats <- read response "stats" ;;
          set (SetLastOperation (last_operation "Sync Master Tracks" true [("stats", stats)])) ;;
          showSnackbar "Master tracks synced successfully" "success")
       (fun error => Ret tt))
    (set (SetLoading LSyncTracks false)).

Definition syncAll : prog unit :=
  set (SetLoading LSyncAll true) ;;
  finally
    (try_catch
       (forceRefresh <- ReadForceRefresh Ret ;;
        response <- await_post (Api.syncAll (JBool forceRefresh) (JBool false)) ;;
        needs_confirmation <- read response "needs_confirmation" ;;
        if truthy needs_confirmation then
          analysis <- read response "analysis" ;;
          tracks <- read analysis "tracks" ;;
          tracks_added <- read tracks "added" ;;
          addedTracks <- format_added tracks_added ;;
          playlists <- read analysis "playlists" ;;
          playlists_added <- read playlists "added" ;;
          playlists_updated <- read playlists "updated" ;;
          let confirmMessage :=
            "Found " ++ to_string playlists_added ++ " playlists to add, " ++ newline
              ++ "        " ++ to_string playlists_updated ++ " to update, and " ++ newline
              ++ "        " ++ to_string (JNum (of_nat (length addedTracks)))
              ++ " tracks to add. Would you like to proceed?" in
          confirmResult <- confirmDialog "Confirm Full Sync" confirmMessage
            (JObj [("playlists", playlists);
                   ("tracks", JObj [("added_tracks", JArr (map JStr addedTracks))])]) ;;
          if negb confirmResult then
            set (SetLoading LSyncAll false)
          else
            forceRefresh' <- ReadForceRefresh Ret ;;
            syncResponse <- await_post (Api.syncAll (JBool forceRefresh') (JBool true)) ;;
            stats <- read syncResponse "stats" ;;
            set (SetLastOperation (last_operation "Sync All" true [("stats", stats)])) ;;
            showSnackbar "All sync operations completed successfully" "success"
        else
          stats <- read response "stats" ;;
          set (SetLastOperation (last_operation "Sync All" true [("stats", stats)])) ;;
          showSnackbar "All sync operations completed successfully" "success")
       (fun error => Ret tt))
    (set (SetLoading LSyncAll false)).

(** [error.response?.data?.error || error.message] *)
Definition error_text (error : jsval) : prog jsval :=
  response <- read error "response" ;;
  let e := get_opt (get_opt response "data") "error" in
  if truthy e then Ret e else read error "message".

(** The four handlers of one request share their shape: set the flag, await
    the request, record the outcome, show a snackbar, clear the flag. *)
Definition simple_operation (flag : loading_key) (r : Api.request)
    (type ok failed : string) : prog unit :=
  set (SetLoading flag true) ;;
  finally
    (try_catch
       (_ <- await_post r ;;
        set (SetLastOperation (last_operation type true [])) ;;
        showSnackbar ok "success")
       (fun error =>
          msg <- error_text error ;;
          set (SetLastOperation (last_operation type false [("error", msg)])) ;;
          showSnackbar failed "error"))
    (set (SetLoading flag false)).

Definition confirmClearDatabase : prog unit :=
  set (SetDialog {| show := true;
                    title := "Clear Database";
                    text := "Are you sure you want to clear all database tables? This action cannot be undone.";
                    details := JUndef;
                    action := Some ClearDatabaseFn;
                    cancel := None |}).

Definition clearDatabase : prog unit :=
  set (SetDialogShow false) ;;
  simple_operation LClearDb Api.clearDatabase "Clear Database"
    "Database cleared successfully" "Failed to clear database".

Definition syncToMaster : prog unit :=
  simple_operation LSyncMaster Api.syncToMaster "Sync to MASTER Playlist"
    "Tracks synced to MASTER playlist successfully" "Failed to sync to MASTER playlist".

Definition syncUnplaylisted : prog unit :=
  simple_operation LSyncUnplaylisted Api.syncUnplaylisted "Sync Unplaylisted Tracks"
    "Unplaylisted tracks synced successfully" "Failed to sync unplaylisted tracks".

Definition clearCache : prog unit :=
  simple_operation LClearCache Api.clearCache "Clear Cache"
    "Spotify API cache cleared successfully" "Failed to clear cache".

End Handlers.

(** ** One invocation, seen from outside

    What an invocation of a handler does depends on what it is answered:
    the value of the checkbox whenever it is read, the instance at hand, how
    each request settles, what the user answers in the dialog.  A [world]
    fixes the answers by the moment they are asked for; [None] is a promise
    that never settles. *)

Inductive obs :=
| OWrite (w : write)
| ORead (forceRefresh : bool)
| OInstance (i : current_instance)
| OSnackbar (text color : string)
| OConsoleError (msg : string)
| OSend (r : Api.request)
| OSettled (res : http_result)
| OOpen (title text : string) (details : jsval)
| OAnswer (confirmed : bool)
| OReturn
| OUncaught (e : jsval).

Record world : Type := {
  checkbox : nat -> bool;
  instance_at : nat -> current_instance;
  server : nat -> Api.request -> option http_result;
  user : nat -> option bool
}.

(** The observations of an invocation, [n] of them having been made. *)
Fixpoint run (w : world) (n : nat) (p : prog unit) : list obs :=
  match p with
  | Ret _ => [OReturn]
  | Throw e => [OUncaught e]
  | Write x k => OWrite x :: run w (S n) k
  | ReadForceRefresh k =>
      ORead (checkbox w n) :: run w (S n) (k (checkbox w n))
  | GetCurrentInstance k =>
      OInstance (instance_at w n) :: run w (S n) (k (instance_at w n))
  | CallSnackbar t c k => OSnackbar t c :: run w (S n) k
  | ConsoleError m k => OConsoleError m :: run w (S n) k
  | AwaitPost r k =>
      OSend r ::
      match server w n r with
      | Some res => OSettled res :: run w (S (S n)) (k res)
      | None => []
      end
  | AwaitConfirm t m d k =>
      OOpen t m d ::
      match user w n with
      | Some b => OAnswer b :: run w (S (S n)) (k b)
      | None => []
      end
  end.

Definition invoke (w : world) (p : prog unit) : list obs := run w 0 p.

(** The requests of a trace, in order. *)
Fixpoint requests (t : list obs) : list Api.request :=
  match t with
  | [] => []
  | OSend r :: rest => r :: requests rest
  | _ :: rest => requests rest
  end.

(** The dialogs opened in a trace, by title. *)
Fixpoint dialogs (t : list obs) : list string :=
  match t with
  | [] => []
  | OOpen title _ _ :: rest => title :: dialogs rest
  | _ :: rest => dialogs rest
  end.

Definition is_confirmed (r : Api.request) : bool :=
  match Api.body_confirm r with JBool true => true | _ => false end.

(** ** The component

    The refs of [setup], the promises that handlers are suspended on, and
    the reaction to what happens to the component: a click on one of its
    buttons, the checkbox, the buttons of the dialog, the settling of a
    request. *)

Record component : Type := {
  forceRefresh : bool;
  loading : loading_key -> bool;
  lastOperation : jsval;
  dialog : dialog_box;
  in_flight : list (nat * (http_result -> prog unit));
  confirming : list (nat * (bool -> prog unit));
  fresh : nat
}.

Definition initial : component := {|
  forceRefresh := false;
  loading := fun _ => false;
  lastOperation :=
    JObj [("type", JStr ""); ("success", JBool false); ("stats", JNull); ("error", JStr "")];
  dialog := {| show := false; title := ""; text := ""; details := JUndef;
               action := None; cancel := None |};
  in_flight := [];
  confirming := [];
  fresh := 0
|}.

Definition with_show (b : bool) (d : dialog_box) : dialog_box :=
  {| show := b; title := title d; text := text d; details := details d;
     action := action d; cancel := cancel d |}.

Definition apply_write (x : write) (c : component) : component :=
  match x with
  | SetLoading k b =>
      {| forceRefresh := forceRefresh c;
         loading := fun k' => if loading_key_eqb k k' then b else loading c k';
         lastOperation := lastOperation c; dialog := dialog c;
         in_flight := in_flight c; confirming := confirming c; fresh := fresh c |}
  | SetLastOperation v =>
      {| forceRefresh := forceRefresh c; loading := loading c;
         lastOperation := v; dialog := dialog c;
         in_flight := in_flight c; confirming := confirming c; fresh := fresh c |}
  | SetDialog d =>
      {| forceRefresh := forceRefresh c; loading := loading c;
         lastOperation := lastOperation c; dialog := d;
         in_flight := in_flight c; confirming := confirming c; fresh := fresh c |}
  | SetDialogShow b =>
      {| forceRefresh := forceRefresh c; loading := loading c;
         lastOperation := lastOperation c; dialog := with_show b (dialog c);
         in_flight := in_flight c; confirming := confirming c; fresh := fresh c |}
  end.

Definition set_forceRefresh (b : bool) (c : component) : component :=
  {| forceRefresh := b; loading := loading c;
     lastOperation := lastOperation c; dialog := dialog c;
     in_flight := in_flight c; confirming := confirming c; fresh := fresh c |}.

(** What the component does that is seen from outside. *)
Inductive event :=
| Sent (id : nat) (r : Api.request)
| Snackbar (text color : string)
| Console (msg : string)
| Unhandled (e : jsval).

(** Run a handler up to its next [await] or its end. *)
Fixpoint exec (inst : current_instance) (p : prog unit) (c : component)
  : component * list event :=
  match p with
  | Ret _ => (c, [])
  | Throw e => (c, [Unhandled e])
  | Write x k => exec inst k (apply_write x c)
  | ReadForceRefresh k => exec inst (k (forceRefresh c)) c
  | GetCurrentInstance k => exec inst (k inst) c
  | CallSnackbar t col k =>
      let (c', evs) := exec inst k c in (c', Snackbar t col :: evs)
  | ConsoleError m k =>
      let (c', evs) := exec inst k c in (c', Console m :: evs)
  | AwaitPost r k =>
      ({| forceRefresh := forceRefresh c; loading := loading c;
          lastOperation := lastOperation c; dialog := dialog c;
          in_flight := (fresh c, k) :: in_flight c;
          confirming := confirming c; fresh := S (fresh c) |},
       [Sent (fresh c) r])
  | AwaitConfirm t m d k =>
      ({| forceRefresh := forceRefresh c; loading := loading c;
          lastOperation := lastOperation c;
          dialog := {| show := true; title := t; text := m; details := d;
                       action := Some (ResolveFn (fresh c) true);
                       cancel := Some (ResolveFn (fresh c) false) |};
          in_flight := in_flight c;
          confirming := (fresh c, k) :: confirming c; fresh := S (fresh c) |},
       [])
  end.

Fixpoint take {K : Type} (id : nat) (l : list (nat * K)) : option (K * list (nat * K)) :=
  match l with
  | [] => None
  | (i, k) :: rest =>
      if Nat.eqb i id then Some (k, rest)
      else match take id rest with
           | Some (k', rest') => Some (k', (i, k) :: rest')
           | None => None
           end
  end.

Inductive button :=
| BtnSyncPlaylists | BtnSyncMasterTracks | BtnSyncAll | BtnClearDatabase
| BtnSyncToMaster | BtnSyncUnplaylisted | BtnClearCache.

Inductive input :=
| Click (b : button)
| Tick (b : bool)
| DialogConfirm
| DialogCancel
| DialogDismiss
| Settle (id : nat) (res : http_result).

Section Component.
Context {NT : NumberText}.

(** The [@click] of each button of the two cards. *)
Definition on_click (b : button) : prog unit :=
  match b with
  | BtnSyncPlaylists => syncPlaylists
  | BtnSyncMasterTracks => syncMasterTracks
  | BtnSyncAll => syncAll
  | BtnClearDatabase => confirmClearDatabase
  | BtnSyncToMaster => syncToMaster
  | BtnSyncUnplaylisted => syncUnplaylisted
  | BtnClearCache => clearCache
  end.

(** The handler and the loading flag of each of the three operations that
    take the flags. *)
Definition sync_handler (op : Api.sync_op) : prog unit :=
  match op with
  | Api.SyncPlaylists => syncPlaylists
  | Api.SyncTracks => syncMasterTracks
  | Api.SyncAll => syncAll
  end.

Definition sync_flag (op : Api.sync_op) : loading_key :=
  match op with
  | Api.SyncPlaylists => LSyncPlaylists
  | Api.SyncTracks => LSyncTracks
  | Api.SyncAll => LSyncAll
  end.

Definition sync_button (op : Api.sync_op) : button :=
  match op with
  | Api.SyncPlaylists => BtnSyncPlaylists
  | Api.SyncTracks => BtnSyncMasterTracks
  | Api.SyncAll => BtnSyncAll
  end.

(** Calling a function of the dialog.  A promise resolves once: resolving
    it again does nothing. *)
Definition call (inst : current_instance) (f : dialog_fn) (c : component)
  : component * list event :=
  match f with
  | ClearDatabaseFn => exec inst clearDatabase c
  | ResolveFn p b =>
      let c1 := apply_write (SetDialogShow false) c in
      match take p (confirming c1) with
      | Some (k, rest) =>
          exec inst (k b)
            {| forceRefresh := forceRefresh c1; loading := loading c1;
               lastOperation := lastOperation c1; dialog := dialog c1;
               in_flight := in_flight c1; confirming := rest; fresh := fresh c1 |}
      | None => (c1, [])
      end
  end.

(** The card of the dialog, and so its two buttons, is there while
    [dialog.show] holds. *)
Definition react (inst : current_instance) (i : input) (c : component)
  : component * list event :=
  match i with
  | Click b => exec inst (on_click b) c
  | Tick b => (set_forceRefresh b c, [])
  | DialogConfirm =>
      if show (dialog c) then
        match action (dialog c) with
        | Some f => call inst f c
        | None => (c, [])
        end
      else (c, [])
  | DialogCancel =>
      if show (dialog c) then
        match cancel (dialog c) with
        | Some f => call inst f c
        | None => (apply_write (SetDialogShow false) c, [])
        end
      else (c, [])
  | DialogDismiss =>
      if show (dialog c) then (apply_write (SetDialogShow false) c, []) else (c, [])
  | Settle id res =>
      match take id (in_flight c) with
      | Some (k, rest) =>
          exec inst (k res)
            {| forceRefresh := forceRefresh c; loading := loading c;
               lastOperation := lastOperation c; dialog := dialog c;
               in_flight := rest; confirming := confirming c; fresh := fresh c |}
      | None => (c, [])
      end
  end.

(** A session: the inputs in order, each with the instance at hand, and
    what each reaction lets out. *)
Fixpoint session (ins : list (current_instance * input)) (c : component)
  : component * list (input * list event) :=
  match ins with
  | [] => (c, [])
  | (inst, i) :: rest =>
      let (c1, evs) := react inst i c in
      let (c2, log) := session rest c1 in
      (c2, (i, evs) :: log)
  end.

End Component.

(** The answers given in the dialogs of a trace. *)
Fixpoint answers (t : list obs) : list bool :=
  match t with
  | [] => []
  | OAnswer b :: rest => b :: answers rest
  | _ :: rest => answers rest
  end.


(** Each request of a trace with the observations made before it. *)
Fixpoint cuts (t : list obs) : list (list obs * Api.request) :=
  match t with
  | [] => []
  | x :: rest =>
      match x with OSend r => [([], r)] | _ => [] end
        ++ map (fun c => (x :: fst c, snd c)) (cuts rest)
  end.

(** A program that posts a request that is [bad] only where it is [free]
    to: a handler is free to when it starts, if at all, and again, if
    [unlock] holds, when its dialog has been confirmed, up to its next
    [await]; and that never assigns the dialog. *)
Fixpoint gated {A : Type} (bad : Api.request -> Prop) (unlock free : bool)
    (p : prog A) : Prop :=
  match p with
  | Ret _ | Throw _ => True
  | Write x k =>
      match x with SetDialog _ => False | _ => True end /\ gated bad unlock free k
  | ReadForceRefresh k => forall b, gated bad unlock free (k b)
  | GetCurrentInstance k => forall i, gated bad unlock free (k i)
  | CallSnackbar _ _ k | ConsoleError _ k => gated bad unlock free k
  | AwaitPost r k =>
      (bad r -> free = true) /\ forall x, gated bad unlock false (k x)
  | AwaitConfirm _ _ _ k =>
      gated bad unlock unlock (k true) /\ gated bad unlock false (k false)
  end.

(** The functions of the dialog are those of one of its two makers:
    [clearDatabase] as the action of the "Clear Database" dialog, which has
    no [cancel], or the two closures of one [confirmDialog]. *)
Definition dialog_ok (d : dialog_box) : Prop :=
  (action d = Some ClearDatabaseFn ->
   title d = "Clear Database" /\ cancel d = None)
  /\ (forall p b, action d = Some (ResolveFn p b) -> b = true)
  /\ (forall f, cancel d = Some f -> exists p, f = ResolveFn p false).

Definition sound (bad : Api.request -> Prop) (unlock : bool) (c : component) : Prop :=
  dialog_ok (dialog c)
  /\ Forall (fun e => forall x, gated bad unlock false (snd e x)) (in_flight c)
  /\ Forall (fun e => gated bad unlock unlock (snd e true)
                      /\ gated bad unlock false (snd e false)) (confirming c).

(** When a bad request may leave the component: in the reaction to a click
    on a button that may [start] with it, or to the Confirm button of the
    shown dialog, be it the "Clear Database" dialog, whose request is that
    of [clearDatabase], or one of [confirmDialog], when that unlocks. *)
Definition allowed (start : button -> bool) (unlock : bool) (i : input)
    (c : component) (r : Api.request) : Prop :=
  (exists b, i = Click b /\ start b = true)
  \/ (i = DialogConfirm /\ show (dialog c) = true
      /\ ((action (dialog c) = Some ClearDatabaseFn /\ r = Api.clearDatabase)
          \/ (unlock = true /\ exists p, action (dialog c) = Some (ResolveFn p true)))).

(** ** The template of the dialog

    What the card of the dialog shows: text of the template and the values
    between double braces, with the two expansion panels when their [v-if]
    holds. *)

Inductive piece :=
| Lit (s : string)
| Interp (v : jsval).

Record panel : Type := {
  heading : list piece;
  rows : list (list piece)
}.

Record card : Type := {
  card_title : list piece;
  card_text : list piece;
  playlists_to_add : option panel;
  playlists_to_update : option panel
}.

Fixpoint characters (s : string) : list jsval :=
  match s with
  | EmptyString => []
  | String c rest => JStr (String c "") :: characters rest
  end.

(** [v.length], on a truthy [v]. *)
Definition js_length (v : jsval) : jsval :=
  match v with
  | JArr items => JNum (of_nat (List.length items))
  | JStr s => JNum (of_nat (String.length s))
  | JObj fields => lookup "length" fields
  | _ => JUndef
  end.

(** What [v-for] goes through, for a value that has a length: the elements
    of an array, the characters of a string, the values of an object. *)
Definition listed (v : jsval) : list jsval :=
  match v with
  | JArr items => items
  | JStr s => characters s
  | JObj fields => map snd fields
  | _ => []
  end.

(** The arrow between the two names, as the template has it in UTF-8. *)
Definition arrow : string :=
  String (ascii_of_nat 226) (String (ascii_of_nat 134) (String (ascii_of_nat 146) "")).

(** [{{ playlist.name }}] *)
Definition added_row (playlist : jsval) : jsval + list piece :=
  match get playlist "name" with
  | inl e => inl e
  | inr name => inr [Interp name]
  end.

(** [{{ playlist.old_name }} -> {{ playlist.name }}], with the arrow. *)
Definition updated_row (playlist : jsval) : jsval + list piece :=
  match get playlist "old_name", get playlist "name" with
  | inr old_name, inr name => inr [Interp old_name; Lit (" " ++ arrow ++ " "); Interp name]
  | inl e, _ | _, inl e => inl e
  end.

Fixpoint render_rows (row : jsval -> jsval + list piece) (items : list jsval)
  : jsval + list (list piece) :=
  match items with
  | [] => inr []
  | i :: rest =>
      match row i with
      | inl e => inl e
      | inr r =>
          match render_rows row rest with
          | inl e => inl e
          | inr rs => inr (r :: rs)
          end
      end
  end.

Section Template.
Context {NT : NumberText}.

(** [v-if="dialog.details && dialog.details.k && dialog.details.k.length > 0"]
    and the panel under it. *)
Definition render_panel (details : jsval) (k label : string)
    (row : jsval -> jsval + list piece) : jsval + option panel :=
  if truthy details then
    let list := get_opt details k in
    if truthy list && gt_zero (to_number (js_length list)) then
      match render_rows row (listed list) with
      | inl e => inl e
      | inr rs =>
          inr (Some {| heading := [Lit label; Interp (js_length list); Lit ")"];
                       rows := rs |})
      end
    else inr None
  else inr None.

(** The card, or what rendering it throws. *)
Definition render (d : dialog_box) : jsval + card :=
  match render_panel (details d) "to_add" "Playlists to Add (" added_row with
  | inl e => inl e
  | inr to_add =>
      match render_panel (details d) "to_update" "Playlists to Update (" updated_row with
      | inl e => inl e
      | inr to_update =>
          inr {| card_title := [Interp (JStr (title d))];
                 card_text := [Interp (JStr (text d))];
                 playlists_to_add := to_add;
                 playlists_to_update := to_update |}
      end
  end.

End Template.

(** An entry of a list that a row can read a property of: any value but
    [null] and [undefined]. *)
Definition present (v : jsval) : Prop := v <> JNull /\ v <> JUndef.

(** The panel of a list of entries, each shown by [row]: there when the
    length of the list is over zero, headed by that length. *)
Definition panel_of (label : string) (row : jsval -> list piece)
    (entries : list jsval) : option panel :=
  if gt_zero (of_nat (List.length entries))
  then Some {| heading := [Lit label; Interp (JNum (of_nat (List.length entries))); Lit ")"];
               rows := map row entries |}
  else None.

(** The component after a click on a button of the fresh view and a
    response with the data [d] to the request then sent. *)
Definition opened {NT : NumberText} (inst : current_instance) (b : button)
    (d : jsval) : component :=
  fst (session [(inst, Click b); (inst, Settle 0 (Resolved d))] initial).

(** The requests a session lets out, in order. *)
Fixpoint sent_in (evs : list event) : list Api.request :=
  match evs with
  | [] => []
  | Sent _ r :: rest => r :: sent_in rest
  | _ :: rest => sent_in rest
  end.

Fixpoint sent (log : list (input * list event)) : list Api.request :=
  match log with
  | [] => []
  | (_, evs) :: rest => sent_in evs ++ sent rest
  end.

End SyncView.

(* ===================================================================== *)
(** * Data for the examples *)
(* ===================================================================== *)

Module Examples.
Import Js SyncView.

(** What a server answers when a playlist is to be added. *)
Definition one_playlist_to_add : jsval :=
  JObj [("needs_confirmation", JBool true);
        ("analysis",
         JObj [("added", JNum (of_Z 1)); ("updated", JNum (of_Z 0));
               ("to_add", JArr [JObj [("id", JStr "2"); ("name", JStr "Fresh")]]);
               ("to_update", JArr [])])].

Definition stats_of_one_added : jsval :=
  JObj [("stats", JObj [("added", JNum (of_Z 1)); ("updated", JNum (of_Z 0));
                        ("unchanged", JNum (of_Z 0))])].

(** What a server answers to [/sync/all] when a playlist and a track are to
    be added. *)
Definition one_of_each_to_add : jsval :=
  JObj [("needs_confirmation", JBool true);
        ("analysis",
         JObj [("playlists",
                JObj [("added", JNum (of_Z 1)); ("updated", JNum (of_Z 0))]);
               ("tracks",
                JObj [("added",
                       JArr [JObj [("id", JStr "t1"); ("title", JStr "Blue in Green");
                                   ("artists", JStr "Miles Davis");
                                   ("album", JStr "Kind of Blue")]])])])].

(** A server that asks for a confirmation and commits when it gets it, and a
    user who confirms, or declines. *)
Definition world_of (analysis : jsval) (answer : bool) : world := {|
  checkbox := fun _ => false;
  instance_at := fun _ => InstanceWith;
  server := fun _ r =>
    Some (Resolved (if is_confirmed r then stats_of_one_added else analysis));
  user := fun _ => Some answer
|}.

(** An analysis of playlists as the panels of the dialog read it: "Old" is
    renamed "New", and "Fresh" is new. *)
Definition renamed_and_fresh : jsval :=
  JObj [("added", JNum (of_Z 1)); ("updated", JNum (of_Z 1));
        ("unchanged", JNum (of_Z 0));
        ("to_add", JArr [JObj [("id", JStr "2"); ("name", JStr "Fresh")]]);
        ("to_update",
         JArr [JObj [("id", JStr "1"); ("old_name", JStr "Old"); ("name", JStr "New")]])].

Definition blue_in_green : jsval :=
  JObj [("id", JStr "t1"); ("title", JStr "Blue in Green");
        ("artists", JStr "Miles Davis"); ("album", JStr "Kind of Blue")].

(** What a server answers to [/sync/playlists], to [/sync/tracks] and to
    [/sync/all] when that playlist is renamed, that one is new and a track
    is to be added. *)
Definition playlists_to_confirm : jsval :=
  JObj [("needs_confirmation", JBool true); ("analysis", renamed_and_fresh)].

Definition tracks_to_confirm : jsval :=
  JObj [("needs_confirmation", JBool true);
        ("analysis", JObj [("added", JArr [blue_in_green])])].

Definition all_to_confirm : jsval :=
  JObj [("needs_confirmation", JBool true);
        ("analysis",
         JObj [("playlists", renamed_and_fresh);
               ("tracks", JObj [("added", JArr [blue_in_green])])])].

End Examples.

(* ===================================================================== *)
(** * What an invocation records, and what a dialog stands for *)
(* ===================================================================== *)

Module SyncOutcome.
Import Js SyncView.

(** An invocation has come to its end when the last thing seen of it is its
    return or the exception it lets out. *)
Definition ended (x : obs) : Prop :=
  x = OReturn \/ exists e, x = OUncaught e.

(** The values assigned to [lastOperation] in a trace, in order. *)
Fixpoint recorded (t : list obs) : list jsval :=
  match t with
  | [] => []
  | OWrite (SetLastOperation v) :: rest => v :: recorded rest
  | _ :: rest => recorded rest
  end.

(** The snackbars shown in a trace, in order. *)
Fixpoint snackbars (t : list obs) : list (string * string) :=
  match t with
  | [] => []
  | OSnackbar text color :: rest => (text, color) :: snackbars rest
  | _ :: rest => snackbars rest
  end.
End SyncOutcome.

Module SyncDialogs.
Import Js SyncView.

(** The title under which each of the three handlers opens its dialog. *)
Definition sync_title (op : Api.sync_op) : string :=
  match op with
  | Api.SyncPlaylists => "Confirm Playlist Sync"
  | Api.SyncTracks => "Confirm Track Sync"
  | Api.SyncAll => "Confirm Full Sync"
  end.

(** What awaits the answer of a dialog titled [t]: confirmed, the handler
    sends the confirmed call of the operation that the title names, with
    the checkbox as it is then, and stops there; declined, it sends
    nothing. *)
Definition confirms (t : string) (k : bool -> prog unit) : Prop :=
  exists op, t = sync_title op
    /\ forall inst c,
         snd (exec inst (k true) c)
         = [Sent (fresh c) (Api.sync op (JBool (forceRefresh c)) (JBool true))].

Definition declines (k : bool -> prog unit) : Prop :=
  forall inst c, snd (exec inst (k false) c) = [].

(** A program whose dialogs are what their titles say: the one it assigns
    is the "Clear Database" dialog, and the handler that awaits one of
    [confirmDialog] [confirms] its title and [declines]. *)
Fixpoint titled (p : prog unit) : Prop :=
  match p with
  | Ret _ | Throw _ => True
  | Write x k =>
      match x with SetDialog d => dialog_ok d /\ action d = Some ClearDatabaseFn | _ => True end
      /\ titled k
  | ReadForceRefresh k => forall b, titled (k b)
  | GetCurrentInstance k => forall i, titled (k i)
  | CallSnackbar _ _ k | ConsoleError _ k => titled k
  | AwaitPost r k => forall x, titled (k x)
  | AwaitConfirm t _ _ k =>
      confirms t k /\ declines k /\ titled (k true) /\ titled (k false)
  end.

(** A component whose suspended handlers are so, and whose dialog, when it
    is one of [confirmDialog], is awaited by a handler that [confirms] the
    title shown. *)
Definition faithful (c : component) : Prop :=
  dialog_ok (dialog c)
  /\ Forall (fun e => forall x, titled (snd e x)) (in_flight c)
  /\ Forall (fun e => fst e < fresh c /\ declines (snd e)
                      /\ titled (snd e true) /\ titled (snd e false)) (confirming c)
  /\ (forall q, action (dialog c) = Some (ResolveFn q true) ->
      Forall (fun e => fst e = q -> confirms (title (dialog c)) (snd e)) (confirming c)).
End SyncDialogs.

(* ===================================================================== *)
(** * Strings: words and capitals *)
(* ===================================================================== *)

Module JsString.

(** Strings are held in UTF-8.  An ASCII character is one byte and one
    UTF-16 code unit, and no byte of another character is in the ASCII
    range; what the language does to the first code unit of a word that
    begins outside ASCII is left to [capitalize_beyond_ascii]. *)
Class CaseMapping : Type := {
  capitalize_beyond_ascii : string -> string
}.

Definition is_ascii (c : ascii) : bool := (nat_of_ascii c <? 128)%nat.

Definition is_lower (c : ascii) : bool :=
  ((97 <=? nat_of_ascii c) && (nat_of_ascii c <=? 122))%nat.

(** [toUpperCase] on an ASCII character. *)
Definition toUpperCase (c : ascii) : ascii :=
  if is_lower c then ascii_of_nat (nat_of_ascii c - 32) else c.

(** [s.split(sep)] for a separator of one ASCII character. *)
Fixpoint split (sep : ascii) (s : string) : list string :=
  match s with
  | EmptyString => [""]
  | String c rest =>
      if Ascii.eqb c sep then "" :: split sep rest
      else match split sep rest with
           | w :: ws => String c w :: ws
           | [] => [String c ""]
           end
  end.

(** [word.charAt(0).toUpperCase() + word.slice(1)] *)
Definition capitalize {CM : CaseMapping} (word : string) : string :=
  match word with
  | EmptyString => ""
  | String c rest =>
      if is_ascii c then String (toUpperCase c) rest
      else capitalize_beyond_ascii word
  end.

(** The word begins with an ASCII character, or is empty; and every word
    of a string does. *)
Definition ascii_initial (w : string) : bool :=
  match w with EmptyString => true | String c _ => is_ascii c end.

Definition ascii_initials (sep : ascii) (s : string) : bool :=
  forallb ascii_initial (split sep s).

(** The occurrences of a character. *)
Fixpoint occurrences (c : ascii) (s : string) : nat :=
  match s with
  | EmptyString => 0
  | String c' rest => ((if Ascii.eqb c' c then 1 else 0) + occurrences c rest)%nat
  end.

(** A mapping that leaves every word as it is: all a closed example
    needs on ASCII words. *)
Definition ascii_only : CaseMapping := {| capitalize_beyond_ascii := fun w => w |}.

End JsString.

(* ===================================================================== *)
(** * Objects made by spreading *)
(* ===================================================================== *)

Module JsObject.
Import Js.

(** The one-unit strings of a string, in order: the own properties of a
    string are its UTF-16 code units. *)
Class CodeUnits : Type := {
  code_units : string -> list string
}.

(** An array index as a property key: the digits of a number below
    2^32 - 1, without leading zeros. *)
Definition index_key (i : N) : string := NilZero.string_of_uint (N.to_uint i).

Definition array_index (k : string) : option N :=
  match NilZero.uint_of_string k with
  | Some u =>
      let i := N.of_uint u in
      if String.eqb (index_key i) k && (i <? 4294967295)%N then Some i else None
  | None => None
  end.

Fixpoint has (k : string) (fields : list (string * jsval)) : bool :=
  match fields with
  | [] => false
  | (k', _) :: rest => String.eqb k k' || has k rest
  end.

Fixpoint replace (k : string) (v : jsval) (fields : list (string * jsval))
  : list (string * jsval) :=
  match fields with
  | [] => []
  | (k', v') :: rest =>
      if String.eqb k k' then (k', v) :: rest else (k', v') :: replace k v rest
  end.

(** A new index goes among the indices, which come first and in
    ascending order. *)
Fixpoint insert_index (i : N) (k : string) (v : jsval) (fields : list (string * jsval))
  : list (string * jsval) :=
  match fields with
  | [] => [(k, v)]
  | (k', v') :: rest =>
      match array_index k' with
      | Some j =>
          if (j <? i)%N then (k', v') :: insert_index i k v rest
          else (k, v) :: fields
      | None => (k, v) :: fields
      end
  end.

(** Defining a property on an object: a property that is there keeps its
    place; a new index goes among the indices, any other new key goes last. *)
Definition define (k : string) (v : jsval) (fields : list (string * jsval))
  : list (string * jsval) :=
  if has k fields then replace k v fields
  else match array_index k with
       | Some i => insert_index i k v fields
       | None => (fields ++ [(k, v)])%list
       end.

Fixpoint indexed (i : N) (items : list jsval) : list (string * jsval) :=
  match items with
  | [] => []
  | x :: rest => (index_key i, x) :: indexed (N.succ i) rest
  end.

Section Spread.
Context {CU : CodeUnits}.

(** The own enumerable properties that a spread copies: the fields of an
    object, the elements of an array and the code units of a string by
    index; [null], [undefined], numbers and booleans have none. *)
Definition own_properties (v : jsval) : list (string * jsval) :=
  match v with
  | JObj fields => fields
  | JArr items => indexed 0 items
  | JStr s => indexed 0 (map JStr (code_units s))
  | _ => []
  end.

Definition copy_properties (target : list (string * jsval)) (v : jsval)
  : list (string * jsval) :=
  fold_left (fun acc kv => define (fst kv) (snd kv) acc) (own_properties v) target.

(** [{...a, ...b}] *)
Definition spread2 (a b : jsval) : jsval :=
  JObj (copy_properties (copy_properties [] a) b).

End Spread.

(** The code units of a string of ASCII characters are its characters:
    all a closed example needs. *)
Fixpoint ascii_units (s : string) : list string :=
  match s with
  | EmptyString => []
  | String c rest => String c "" :: ascii_units rest
  end.

Definition ascii_code_units : CodeUnits := {| code_units := ascii_units |}.

End JsObject.

(* ===================================================================== *)
(** * Handlers over the refs of a component *)
(* ===================================================================== *)

(** The handlers of the other components, as programs over the refs [S] of
    their component: reads and assignments of refs, the look-up of the
    application for its snackbar, what is let out, and requests awaited. *)
Module Async.
Import Js.
Export SyncView (http_result, Resolved, Rejected, event, Sent, Snackbar, Console, Unhandled, take, sent_in).

(** What [document.querySelector('#app').__vue_app__] and its
    [config.globalProperties.$showSnackbar] come to: no element or no
    application on it, an application without the function, or with it. *)
Inductive app_lookup := NoApp | AppWithout | AppWith.

Section Prog.
Context {S : Type}.

Inductive prog (A : Type) : Type :=
| Ret (a : A)
| Throw (e : jsval)
| Get (k : S -> prog A)
| Put (s : S) (k : prog A)
| FindApp (k : app_lookup -> prog A)
| Emit (ev : event) (k : prog A)
| Await (r : Api.request) (k : http_result -> prog A).

Arguments Ret {A} a.
Arguments Throw {A} e.
Arguments Get {A} k.
Arguments Put {A} s k.
Arguments FindApp {A} k.
Arguments Emit {A} ev k.
Arguments Await {A} r k.

Fixpoint bind {A B : Type} (p : prog A) (f : A -> prog B) : prog B :=
  match p with
  | Ret a => f a
  | Throw e => Throw e
  | Get k => Get (fun s => bind (k s) f)
  | Put s k => Put s (bind k f)
  | FindApp k => FindApp (fun a => bind (k a) f)
  | Emit ev k => Emit ev (bind k f)
  | Await r k => Await r (fun x => bind (k x) f)
  end.

(** [try { p } catch (error) { h error }] *)
Fixpoint try_catch {A : Type} (p : prog A) (h : jsval -> prog A) : prog A :=
  match p with
  | Ret a => Ret a
  | Throw e => h e
  | Get k => Get (fun s => try_catch (k s) h)
  | Put s k => Put s (try_catch k h)
  | FindApp k => FindApp (fun a => try_catch (k a) h)
  | Emit ev k => Emit ev (try_catch k h)
  | Await r k => Await r (fun x => try_catch (k x) h)
  end.

(** [try { p } finally { fin }] *)
Fixpoint finally {A : Type} (p : prog A) (fin : prog unit) : prog A :=
  match p with
  | Ret a => bind fin (fun _ => Ret a)
  | Throw e => bind fin (fun _ => Throw e)
  | Get k => Get (fun s => finally (k s) fin)
  | Put s k => Put s (finally k fin)
  | FindApp k => FindApp (fun a => finally (k a) fin)
  | Emit ev k => Emit ev (finally k fin)
  | Await r k => Await r (fun x => finally (k x) fin)
  end.

(** An assignment to a ref, or to a property of its value. *)
Definition modify (f : S -> S) : prog unit := Get (fun s => Put (f s) (Ret tt)).

(** A property read that throws on [undefined] and [null]. *)
Definition read (v : jsval) (k : string) : prog jsval :=
  match get v k with
  | inl e => Throw e
  | inr x => Ret x
  end.

(** [await] on the promise of a request: the [data] of the response, or
    the rejection thrown. *)
Definition await (r : Api.request) : prog jsval :=
  Await r (fun res =>
    match res with
    | Resolved d => Ret d
    | Rejected e => Throw e
    end).

(** [error.response?.data?.error || error.message] *)
Definition error_text (error : jsval) : prog jsval :=
  bind (read error "response") (fun response =>
    let e := get_opt (get_opt response "data") "error" in
    if truthy e then Ret e else read error "message").

(** [showSnackbar] of the components that look the application up. *)
Definition showSnackbar (text color : string) : prog unit :=
  FindApp (fun a =>
    match a with
    | NoApp => Throw (type_error "Cannot read properties of undefined or null (reading __vue_app__ or config)")
    | AppWithout => Ret tt
    | AppWith => Emit (Snackbar text color) (Ret tt)
    end).

(** The refs, and the handlers that are suspended on a request. *)
Record machine : Type := {
  refs_of : S;
  pending : list (nat * (http_result -> prog unit));
  next : nat
}.

(** Run a handler up to its next [await] or its end. *)
Fixpoint exec (app : app_lookup) (p : prog unit) (m : machine) : machine * list event :=
  match p with
  | Ret _ => (m, [])
  | Throw e => (m, [Unhandled e])
  | Get k => exec app (k (refs_of m)) m
  | Put s k => exec app k {| refs_of := s; pending := pending m; next := next m |}
  | FindApp k => exec app (k app) m
  | Emit ev k => let (m', evs) := exec app k m in (m', ev :: evs)
  | Await r k =>
      ({| refs_of := refs_of m; pending := (next m, k) :: pending m; next := Datatypes.S (next m) |},
       [Sent (next m) r])
  end.

(** The settling of a request resumes the handler that awaits it. *)
Definition settle (app : app_lookup) (id : nat) (res : http_result) (m : machine)
  : machine * list event :=
  match take id (pending m) with
  | Some (k, rest) => exec app (k res) {| refs_of := refs_of m; pending := rest; next := next m |}
  | None => (m, [])
  end.

(** An assignment from the template. *)
Definition assign (f : S -> S) (m : machine) : machine :=
  {| refs_of := f (refs_of m); pending := pending m; next := next m |}.

(** A program that, run from the refs [s0], sends nothing, and whose
    every assignment leaves refs that are [R]-related to those before. *)
Fixpoint quiet {A : Type} (R : S -> S -> Prop) (s0 : S) (p : prog A) : Prop :=
  match p with
  | Ret _ | Throw _ => True
  | Get k => quiet R s0 (k s0)
  | Put s k => R s0 s /\ quiet R s k
  | FindApp k => forall a, quiet R s0 (k a)
  | Emit ev k => match ev with Sent _ _ => False | _ => True end /\ quiet R s0 k
  | Await _ _ => False
  end.

(** A program that is so but for the requests it awaits, and is [quiet]
    past the first of them, whatever the refs are by then. *)
Fixpoint once {A : Type} (R : S -> S -> Prop) (s0 : S) (p : prog A) : Prop :=
  match p with
  | Ret _ | Throw _ => True
  | Get k => once R s0 (k s0)
  | Put s k => R s0 s /\ once R s k
  | FindApp k => forall a, once R s0 (k a)
  | Emit ev k => match ev with Sent _ _ => False | _ => True end /\ once R s0 k
  | Await _ k => forall x s, quiet R s (k x)
  end.

End Prog.

Arguments prog S A : clear implicits.
Arguments machine S : clear implicits.
Arguments Ret {S A} a.
Arguments Throw {S A} e.
Arguments Get {S A} k.
Arguments Put {S A} s k.
Arguments FindApp {S A} k.
Arguments Emit {S A} ev k.
Arguments Await {S A} r k.

(** The requests that a log of reactions holds, in order. *)
Definition sent_of {I : Type} (log : list (I * list event)) : list Api.request :=
  flat_map (fun x => sent_in (snd x)) log.

Declare Scope async_scope.
Delimit Scope async_scope with async.
Notation "x <- p ;; k" := (bind p (fun x => k))
  (at level 61, p at next level, right associativity) : async_scope.
Notation "p ;; k" := (bind p (fun _ => k))
  (at level 61, right associativity) : async_scope.

End Async.

(* ===================================================================== *)
(** * services/api.js: files, validation and logs *)
(* ===================================================================== *)

Module ApiCalls.
Import Js Api.

(** [apiClient.post(url, options)]: no body when [options] is [undefined]. *)
Definition post_with (u : string) (options : jsval) : request :=
  apiClient_post u (match options with JUndef => None | _ => Some options end).

Definition generateM3u (options : jsval) : request := post_with "/files/generate-m3u" options.
Definition embedMetadata (options : jsval) : request := post_with "/files/embed-metadata" options.
Definition countTrackIds : request := apiClient_get "/files/count-track-ids".
Definition removeTrackIds : request := apiClient_post "/files/remove-track-ids" None.
Definition cleanupTracks : request := apiClient_post "/files/cleanup-tracks" None.

Definition validateTracks : request := apiClient_post "/validation/tracks" None.
Definition validateSongLengths (minLength : jsval) : request :=
  apiClient_post "/validation/song-lengths"
    (Some (JObj [("min_length", default_param (JNum (of_Z 5)) minLength)])).

Definition getLogFiles : request := apiClient_get "/logs/files".
Definition getLogContent {NT : NumberText} (filename : jsval) : request :=
  apiClient_get ("/logs/content/" ++ to_string filename).

End ApiCalls.

(* ===================================================================== *)
(** * components/ValidationView.vue: labels, chips and handlers *)
(* ===================================================================== *)

Module Validation.
Import Js JsString JsObject Async.
Local Open Scope async_scope.

Section Labels.
Context {CM : CaseMapping}.

(** [key.split('_').map(word => ...).join(' ')]; a key that is no string
    has no [split]. *)
Definition formatLabel (key : jsval) : jsval + string :=
  match key with
  | JStr s => inr (join " " (map capitalize (split "_" s)))
  | JUndef | JNull =>
      inl (type_error "Cannot read properties of undefined or null (reading split)")
  | _ => inl (type_error "key.split is not a function")
  end.

End Labels.

(** The keys of the [loading] ref. *)
Inductive loading_key := LValidateTracks | LValidateLengths | LValidateAll.

Definition loading_key_eqb (a b : loading_key) : bool :=
  match a, b with
  | LValidateTracks, LValidateTracks | LValidateLengths, LValidateLengths
  | LValidateAll, LValidateAll => true
  | _, _ => false
  end.

(** The refs of [setup]. *)
Record refs : Type := {
  loading : loading_key -> bool;
  validationResults : jsval;
  minLengthMinutes : jsval
}.

Definition initial_refs : refs := {|
  loading := fun _ => false;
  validationResults := JNull;
  minLengthMinutes := JNum (of_Z 5)
|}.

Definition set_loading (k : loading_key) (b : bool) (s : refs) : refs :=
  {| loading := fun k' => if loading_key_eqb k k' then b else loading s k';
     validationResults := validationResults s;
     minLengthMinutes := minLengthMinutes s |}.

Definition set_validationResults (v : jsval) (s : refs) : refs :=
  {| loading := loading s; validationResults := v;
     minLengthMinutes := minLengthMinutes s |}.

Definition set_minLengthMinutes (v : jsval) (s : refs) : refs :=
  {| loading := loading s; validationResults := validationResults s;
     minLengthMinutes := v |}.

Section Chips.
Context {NT : NumberText}.

(** [v > n] for a Number [n]. *)
Definition greater (v : jsval) (n : Z) : bool := SFltb (of_Z n) (to_number v).

Definition getMissingDownloadsColor (results : jsval) : string :=
  if negb (truthy results) || negb (truthy (get_opt results "missing_downloads"))
  then "success"
  else if greater (get_opt results "missing_downloads") 0 then "warning" else "success".

Definition getFilesWithoutTrackIdColor (results : jsval) : string :=
  if negb (truthy results) || negb (truthy (get_opt results "files_without_trackid"))
  then "success"
  else if greater (get_opt results "files_without_trackid") 10 then "error"
  else if greater (get_opt results "files_without_trackid") 0 then "warning"
  else "success".

Definition getUnmatchedFilesColor (results : jsval) : string :=
  if negb (truthy results) || negb (truthy (get_opt results "unmatched_files"))
  then "success"
  else if greater (get_opt results "unmatched_files") 0 then "error" else "success".

Definition is_undefined (v : jsval) : bool :=
  match v with JUndef => true | _ => false end.

Definition getShortSongsColor (results : jsval) : string :=
  if negb (truthy results) || is_undefined (get_opt results "short_songs")
  then "success"
  else if greater (get_opt results "short_songs") 10 then "error"
  else if greater (get_opt results "short_songs") 0 then "warning"
  else "success".

(** The two percentages of the results card, each under its [v-if];
    [None] where the item is not rendered. *)
Definition short_songs_percentage (results : jsval) : option jsval :=
  if truthy (get_opt results "total_files")
     && negb (is_undefined (get_opt results "short_songs"))
  then Some (ValidationView.calculatePercentage
               (get_opt results "short_songs") (get_opt results "total_files"))
  else None.

Definition files_with_trackid_percentage (results : jsval) : option jsval :=
  if truthy (get_opt results "files_with_valid_trackid")
     && truthy (get_opt results "total_local_files")
  then Some (ValidationView.calculatePercentage
               (get_opt results "files_with_valid_trackid")
               (get_opt results "total_local_files"))
  else None.

End Chips.

Section Handlers.
Context {CU : CodeUnits}.

Definition handler := prog refs unit.

Definition validateTracks : handler :=
  modify (set_loading LValidateTracks true) ;;
  finally
    (try_catch
       (response <- await ApiCalls.validateTracks ;;
        results <- read response "results" ;;
        modify (set_validationResults results) ;;
        showSnackbar "Track validation completed" "success")
       (fun error => showSnackbar "Failed to validate tracks" "error"))
    (modify (set_loading LValidateTracks false)).

Definition validateSongLengths : handler :=
  modify (set_loading LValidateLengths true) ;;
  finally
    (try_catch
       (s <- Get Ret ;;
        response <- await (ApiCalls.validateSongLengths (minLengthMinutes s)) ;;
        s' <- Get Ret ;;
        (if truthy (validationResults s') then
           results <- read response "results" ;;
           modify (set_validationResults (spread2 (validationResults s') results))
         else
           results <- read response "results" ;;
           modify (set_validationResults results)) ;;
        showSnackbar "Song length validation completed" "success")
       (fun error => showSnackbar "Failed to validate song lengths" "error"))
    (modify (set_loading LValidateLengths false)).

Definition validateAll : handler :=
  modify (set_loading LValidateAll true) ;;
  finally
    (try_catch
       (tracksResponse <- await ApiCalls.validateTracks ;;
        s <- Get Ret ;;
        lengthsResponse <- await (ApiCalls.validateSongLengths (minLengthMinutes s)) ;;
        tracks <- read tracksResponse "results" ;;
        lengths <- read lengthsResponse "results" ;;
        modify (set_validationResults (spread2 tracks lengths)) ;;
        showSnackbar "All validations completed" "success")
       (fun error => showSnackbar "Failed to run all validations" "error"))
    (modify (set_loading LValidateAll false)).

(** What happens to the component: a click on one of its buttons, the
    slider, the settling of a request. *)
Inductive button := BtnValidateTracks | BtnValidateLengths | BtnValidateAll.

Inductive input :=
| Click (b : button)
| Slide (v : jsval)
| Settle (id : nat) (res : http_result).

Definition on_click (b : button) : handler :=
  match b with
  | BtnValidateTracks => validateTracks
  | BtnValidateLengths => validateSongLengths
  | BtnValidateAll => validateAll
  end.

(** The refresh button is in the summary row, which is there while
    [validationResults] is truthy. *)
Definition rendered (b : button) (s : refs) : bool :=
  match b with
  | BtnValidateAll => truthy (validationResults s)
  | _ => true
  end.

Definition react (app : app_lookup) (i : input) (m : machine refs)
  : machine refs * list event :=
  match i with
  | Click b => if rendered b (refs_of m) then exec app (on_click b) m else (m, [])
  | Slide v => (assign (set_minLengthMinutes v) m, [])
  | Settle id res => settle app id res m
  end.

Fixpoint session (ins : list (app_lookup * input)) (m : machine refs)
  : machine refs * list (input * list event) :=
  match ins with
  | [] => (m, [])
  | (app, i) :: rest =>
      let (m1, evs) := react app i m in
      let (m2, log) := session rest m1 in
      (m2, (i, evs) :: log)
  end.

Definition initial : machine refs :=
  {| refs_of := initial_refs; pending := []; next := 0 |}.

End Handlers.

End Validation.

(* ===================================================================== *)
(** * components/FileOperationsView.vue *)
(* ===================================================================== *)

Module FileOperationsView.
Import Js JsString Async.
Local Open Scope async_scope.

Section Labels.
Context {CM : CaseMapping}.

(** [formatDirName] and [formatStatName] have the body of [formatLabel]. *)
Definition formatDirName (key : jsval) : jsval + string :=
  match key with
  | JStr s => inr (join " " (map capitalize (split "_" s)))
  | JUndef | JNull =>
      inl (type_error "Cannot read properties of undefined or null (reading split)")
  | _ => inl (type_error "key.split is not a function")
  end.

Definition formatStatName (key : jsval) : jsval + string :=
  match key with
  | JStr s => inr (join " " (map capitalize (split "_" s)))
  | JUndef | JNull =>
      inl (type_error "Cannot read properties of undefined or null (reading split)")
  | _ => inl (type_error "key.split is not a function")
  end.

End Labels.

(** The keys of the [loading] ref. *)
Inductive loading_key :=
| LGenerateM3u | LEmbedMetadata | LCountTrackIds | LRemoveTrackIds | LCleanupTracks.

Definition loading_key_eqb (a b : loading_key) : bool :=
  match a, b with
  | LGenerateM3u, LGenerateM3u | LEmbedMetadata, LEmbedMetadata
  | LCountTrackIds, LCountTrackIds | LRemoveTrackIds, LRemoveTrackIds
  | LCleanupTracks, LCleanupTracks => true
  | _, _ => false
  end.

(** The handlers stored as the action of the dialog. *)
Inductive dialog_fn := RemoveTrackIdsFn | CleanupTracksFn.

(** The [dialog] ref; a [null] action is [None]. *)
Record dialog_box : Type := {
  show : bool;
  title : string;
  text : string;
  color : string;
  action : option dialog_fn
}.

(** The checkboxes. *)
Inductive option_key := OExtended | OOverwrite | OAllPlaylists | OInteractive.

(** The refs of [setup]; the checkboxes of [m3uOptions] and
    [metadataOptions] hold booleans. *)
Record refs : Type := {
  directories : jsval;
  extended : bool;
  overwrite : bool;
  allPlaylists : bool;
  interactive : bool;
  loading : loading_key -> bool;
  lastOperation : jsval;
  dialog : dialog_box
}.

Definition initial_refs : refs := {|
  directories := JNull;
  extended := true;
  overwrite := true;
  allPlaylists := false;
  interactive := false;
  loading := fun _ => false;
  lastOperation :=
    JObj [("type", JStr ""); ("success", JBool false); ("stats", JNull); ("error", JStr "")];
  dialog := {| show := false; title := ""; text := ""; color := ""; action := None |}
|}.

Definition set_directories (v : jsval) (s : refs) : refs :=
  {| directories := v; extended := extended s; overwrite := overwrite s;
     allPlaylists := allPlaylists s; interactive := interactive s;
     loading := loading s; lastOperation := lastOperation s; dialog := dialog s |}.

Definition set_option (k : option_key) (b : bool) (s : refs) : refs :=
  {| directories := directories s;
     extended := match k with OExtended => b | _ => extended s end;
     overwrite := match k with OOverwrite => b | _ => overwrite s end;
     allPlaylists := match k with OAllPlaylists => b | _ => allPlaylists s end;
     interactive := match k with OInteractive => b | _ => interactive s end;
     loading := loading s; lastOperation := lastOperation s; dialog := dialog s |}.

Definition set_loading (k : loading_key) (b : bool) (s : refs) : refs :=
  {| directories := directories s; extended := extended s; overwrite := overwrite s;
     allPlaylists := allPlaylists s; interactive := interactive s;
     loading := fun k' => if loading_key_eqb k k' then b else loading s k';
     lastOperation := lastOperation s; dialog := dialog s |}.

Definition set_lastOperation (v : jsval) (s : refs) : refs :=
  {| directories := directories s; extended := extended s; overwrite := overwrite s;
     allPlaylists := allPlaylists s; interactive := interactive s;
     loading := loading s; lastOperation := v; dialog := dialog s |}.

Definition set_dialog (d : dialog_box) (s : refs) : refs :=
  {| directories := directories s; extended := extended s; overwrite := overwrite s;
     allPlaylists := allPlaylists s; interactive := interactive s;
     loading := loading s; lastOperation := lastOperation s; dialog := d |}.

(** [dialog.value.show = false] *)
Definition hide_dialog (s : refs) : refs :=
  set_dialog {| show := false; title := title (dialog s); text := text (dialog s);
                color := color (dialog s); action := action (dialog s) |} s.

Definition handler := prog refs unit.

Definition last_operation := SyncView.last_operation.

Definition getStatus : handler :=
  try_catch
    (response <- await Api.getStatus ;;
     success <- read response "success" ;;
     if truthy success then
       dirs <- read response "directories" ;;
       modify (set_directories dirs)
     else Ret tt)
    (fun error => showSnackbar "Error fetching directory information" "error").

(** The [catch] and [finally] that the five operations share. *)
Definition operation (flag : loading_key) (type failed : string) (body : handler)
  : handler :=
  finally
    (try_catch body
       (fun error =>
          msg <- error_text error ;;
          modify (set_lastOperation (last_operation type false [("error", msg)])) ;;
          showSnackbar failed "error"))
    (modify (set_loading flag false)).

Definition generateM3u : handler :=
  modify (set_loading LGenerateM3u true) ;;
  operation LGenerateM3u "Generate M3U Playlists" "Failed to generate M3U playlists"
    (s <- Get Ret ;;
     _ <- await (ApiCalls.generateM3u
                   (JObj [("extended", JBool (extended s));
                          ("overwrite", JBool (overwrite s));
                          ("allPlaylists", JBool (allPlaylists s))])) ;;
     modify (set_lastOperation (last_operation "Generate M3U Playlists" true [])) ;;
     showSnackbar "M3U playlists generated successfully" "success").

Definition embedMetadata : handler :=
  modify (set_loading LEmbedMetadata true) ;;
  operation LEmbedMetadata "Embed TrackId Metadata" "Failed to embed metadata"
    (s <- Get Ret ;;
     response <- await (ApiCalls.embedMetadata
                          (JObj [("interactive", JBool (interactive s))])) ;;
     stats <- read response "stats" ;;
     modify (set_lastOperation
               (last_operation "Embed TrackId Metadata" true [("stats", stats)])) ;;
     showSnackbar "Metadata embedded successfully" "success").

Definition countTrackIds : handler :=
  modify (set_loading LCountTrackIds true) ;;
  operation LCountTrackIds "Count TrackIds" "Failed to count track IDs"
    (response <- await ApiCalls.countTrackIds ;;
     stats <- read response "stats" ;;
     modify (set_lastOperation (last_operation "Count TrackIds" true [("stats", stats)])) ;;
     showSnackbar "Track IDs counted successfully" "success").

Definition confirmRemoveTrackIds : handler :=
  modify (set_dialog
            {| show := true;
               title := "Remove All TrackIds";
               text := "Are you sure you want to remove TrackIds from all MP3 files? This action cannot be undone.";
               color := "error";
               action := Some RemoveTrackIdsFn |}).

Definition removeTrackIds : handler :=
  modify hide_dialog ;;
  modify (set_loading LRemoveTrackIds true) ;;
  operation LRemoveTrackIds "Remove TrackIds" "Failed to remove TrackIds"
    (response <- await ApiCalls.removeTrackIds ;;
     stats <- read response "stats" ;;
     modify (set_lastOperation (last_operation "Remove TrackIds" true [("stats", stats)])) ;;
     showSnackbar "TrackIds removed successfully" "success").

Definition confirmCleanupTracks : handler :=
  modify (set_dialog
            {| show := true;
               title := "Clean Up Unwanted Files";
               text := "This will move unwanted files from the master tracks directory to the quarantine directory. Continue?";
               color := "warning";
               action := Some CleanupTracksFn |}).

Definition cleanupTracks : handler :=
  modify hide_dialog ;;
  modify (set_loading LCleanupTracks true) ;;
  operation LCleanupTracks "Cleanup Tracks" "Failed to clean up files"
    (_ <- await ApiCalls.cleanupTracks ;;
     modify (set_lastOperation (last_operation "Cleanup Tracks" true [])) ;;
     showSnackbar "Files cleaned up successfully" "success").

Definition call (f : dialog_fn) : handler :=
  match f with
  | RemoveTrackIdsFn => removeTrackIds
  | CleanupTracksFn => cleanupTracks
  end.

(** [if (dialog.value.action) dialog.value.action()] *)
Definition confirmAction : handler :=
  Get (fun s =>
    match action (dialog s) with
    | Some f => call f
    | None => Ret tt
    end).

Inductive button :=
| BtnGenerateM3u | BtnEmbedMetadata | BtnCountTrackIds
| BtnRemoveTrackIds | BtnCleanupTracks.

(** What happens to the component: it is mounted, a button of its cards
    is clicked, a checkbox is set, a button of the dialog is clicked or the
    dialog is closed, a request settles. *)
Inductive input :=
| Mounted
| Click (b : button)
| Tick (k : option_key) (b : bool)
| DialogConfirm
| DialogCancel
| DialogDismiss
| Settle (id : nat) (res : http_result).

Definition on_click (b : button) : handler :=
  match b with
  | BtnGenerateM3u => generateM3u
  | BtnEmbedMetadata => embedMetadata
  | BtnCountTrackIds => countTrackIds
  | BtnRemoveTrackIds => confirmRemoveTrackIds
  | BtnCleanupTracks => confirmCleanupTracks
  end.

(** The card of the dialog, and so its two buttons, is there while
    [dialog.show] holds. *)
Definition react (app : app_lookup) (i : input) (m : machine refs)
  : machine refs * list event :=
  match i with
  | Mounted => exec app getStatus m
  | Click b => exec app (on_click b) m
  | Tick k b => (assign (set_option k b) m, [])
  | DialogConfirm =>
      if show (dialog (refs_of m)) then exec app confirmAction m else (m, [])
  | DialogCancel | DialogDismiss =>
      if show (dialog (refs_of m)) then (assign hide_dialog m, []) else (m, [])
  | Settle id res => settle app id res m
  end.

Fixpoint session (ins : list (app_lookup * input)) (m : machine refs)
  : machine refs * list (input * list event) :=
  match ins with
  | [] => (m, [])
  | (app, i) :: rest =>
      let (m1, evs) := react app i m in
      let (m2, log) := session rest m1 in
      (m2, (i, evs) :: log)
  end.

Definition initial : machine refs :=
  {| refs_of := initial_refs; pending := []; next := 0 |}.

(** The button that opens the dialog of each of the two operations, the
    title of that dialog, and the request of the operation. *)
Definition opener (f : dialog_fn) : button :=
  match f with
  | RemoveTrackIdsFn => BtnRemoveTrackIds
  | CleanupTracksFn => BtnCleanupTracks
  end.

Definition dialog_title (f : dialog_fn) : string :=
  match f with
  | RemoveTrackIdsFn => "Remove All TrackIds"
  | CleanupTracksFn => "Clean Up Unwanted Files"
  end.

Definition request_of (f : dialog_fn) : Api.request :=
  match f with
  | RemoveTrackIdsFn => ApiCalls.removeTrackIds
  | CleanupTracksFn => ApiCalls.cleanupTracks
  end.

(** Refs with the same action and title of the dialog. *)
Definition same_dialog (s s' : refs) : Prop :=
  action (dialog s') = action (dialog s) /\ title (dialog s') = title (dialog s).

(** The dialog is as one of its two makers left it, and no suspended
    handler sends anything more or makes another dialog of it. *)
Definition settled (m : machine refs) : Prop :=
  (forall f, action (dialog (refs_of m)) = Some f ->
             title (dialog (refs_of m)) = dialog_title f)
  /\ Forall (fun e => forall x s, quiet same_dialog s (snd e x)) (pending m).

End FileOperationsView.

(* ===================================================================== *)
(** * App.vue *)
(* ===================================================================== *)

Module App.
Import Js Async.
Local Open Scope async_scope.

(** The [snackbar] ref. *)
Record snackbar_box : Type := {
  snackbar_show : bool;
  snackbar_text : string;
  snackbar_color : jsval;
  snackbar_timeout : Z
}.

(** The refs of [setup] that the two handlers use.  Its handlers show the
    snackbar by assigning it: they look nothing up. *)
Record refs : Type := {
  isSpotifyConnected : jsval;
  spotifyUser : jsval;
  connecting : bool;
  snackbar : snackbar_box
}.

Definition initial_refs : refs := {|
  isSpotifyConnected := JBool false;
  spotifyUser := JNull;
  connecting := false;
  snackbar := {| snackbar_show := false; snackbar_text := "";
                 snackbar_color := JStr "info"; snackbar_timeout := 3000 |}
|}.

Definition set_isSpotifyConnected (v : jsval) (s : refs) : refs :=
  {| isSpotifyConnected := v; spotifyUser := spotifyUser s;
     connecting := connecting s; snackbar := snackbar s |}.

Definition set_spotifyUser (v : jsval) (s : refs) : refs :=
  {| isSpotifyConnected := isSpotifyConnected s; spotifyUser := v;
     connecting := connecting s; snackbar := snackbar s |}.

Definition set_connecting (b : bool) (s : refs) : refs :=
  {| isSpotifyConnected := isSpotifyConnected s; spotifyUser := spotifyUser s;
     connecting := b; snackbar := snackbar s |}.

Definition set_snackbar (b : snackbar_box) (s : refs) : refs :=
  {| isSpotifyConnected := isSpotifyConnected s; spotifyUser := spotifyUser s;
     connecting := connecting s; snackbar := b |}.

Definition handler := prog refs unit.

(** [showSnackbar(text, color = 'info')]: the three assignments. *)
Definition showSnackbar (text : string) (color : jsval) : handler :=
  modify (fun s =>
    set_snackbar {| snackbar_show := true;
                    snackbar_text := text;
                    snackbar_color := default_param (JStr "info") color;
                    snackbar_timeout := snackbar_timeout (snackbar s) |} s).

Definition checkStatus : handler :=
  try_catch
    (response <- await Api.getStatus ;;
     success <- read response "success" ;;
     if truthy success then
       connected <- read response "spotify_connected" ;;
       modify (set_isSpotifyConnected connected) ;;
       user <- read response "spotify_user" ;;
       modify (set_spotifyUser user)
     else Ret tt)
    (fun error => Emit (Console "Error checking status:") (Ret tt)).

Section Connect.
Context {NT : NumberText}.

Definition connectToSpotify : handler :=
  s <- Get Ret ;;
  if truthy (isSpotifyConnected s) then Ret tt
  else
    modify (set_connecting true) ;;
    finally
      (try_catch
         (response <- await Api.connectSpotify ;;
          success <- read response "success" ;;
          if truthy success then
            modify (set_isSpotifyConnected (JBool true)) ;;
            user <- read response "user" ;;
            modify (set_spotifyUser user) ;;
            display_name <- read user "display_name" ;;
            showSnackbar ("Connected to Spotify as " ++ to_string display_name)
              (JStr "success")
          else Ret tt)
         (fun error =>
            Emit (Console "Error connecting to Spotify:")
              (showSnackbar "Failed to connect to Spotify" (JStr "error"))))
      (modify (set_connecting false)).

(** What happens to the application: it is mounted, the button of the
    drawer is clicked, the snackbar is closed, a request settles.  Mounting
    starts [checkStatus] and then looks the application up to register
    [showSnackbar] on it, which throws when it is not there.  The button is
    disabled while [isSpotifyConnected] is truthy. *)
Inductive input :=
| Mounted
| ClickConnect
| CloseSnackbar
| Settle (id : nat) (res : http_result).

Definition react (app : app_lookup) (i : input) (m : machine refs)
  : machine refs * list event :=
  match i with
  | Mounted =>
      let (m1, evs) := exec app checkStatus m in
      match app with
      | NoApp =>
          (m1, (evs ++ [Unhandled (type_error "Cannot read properties of undefined or null (reading __vue_app__ or config)")])%list)
      | _ => (m1, evs)
      end
  | ClickConnect =>
      if truthy (isSpotifyConnected (refs_of m)) then (m, [])
      else exec app connectToSpotify m
  | CloseSnackbar =>
      (assign (fun s => set_snackbar
                 {| snackbar_show := false;
                    snackbar_text := snackbar_text (snackbar s);
                    snackbar_color := snackbar_color (snackbar s);
                    snackbar_timeout := snackbar_timeout (snackbar s) |} s) m, [])
  | Settle id res => settle app id res m
  end.

End Connect.

Definition initial : machine refs :=
  {| refs_of := initial_refs; pending := []; next := 0 |}.

End App.


(* ===================================================================== *)
(** * More data for the examples *)
(* ===================================================================== *)

Module Scenarios.
Import Js.

(** A world without a current instance, in which every request is
    fulfilled with an empty body. *)
Definition world_without_instance : SyncView.world := {|
  SyncView.checkbox := fun _ => false;
  SyncView.instance_at := fun _ => SyncView.NoInstance;
  SyncView.server := fun _ _ => Some (SyncView.Resolved JNull);
  SyncView.user := fun _ => Some true
|}.

(** A world in which every request is rejected with a network error. *)
Definition network_error : jsval := JObj [("message", JStr "Network Error")].

Definition world_offline : SyncView.world := {|
  SyncView.checkbox := fun _ => false;
  SyncView.instance_at := fun _ => SyncView.InstanceWith;
  SyncView.server := fun _ _ => Some (SyncView.Rejected network_error);
  SyncView.user := fun _ => Some true
|}.

(** What the two validations answer. *)
Definition tracks_results : jsval :=
  JObj [("results", JObj [("total_local_files", JNum (of_Z 10));
                          ("files_without_trackid", JNum (of_Z 12))])].

Definition lengths_results : jsval :=
  JObj [("results", JObj [("total_files", JNum (of_Z 10));
                          ("short_songs", JNum (of_Z 2))])].

(** The validation view once the tracks have been validated. *)
Definition validated : Async.machine Validation.refs :=
  {| Async.refs_of :=
       Validation.set_validationResults
         (JObj [("total_local_files", JNum (of_Z 10));
                ("files_without_trackid", JNum (of_Z 12))])
         Validation.initial_refs;
     Async.pending := [];
     Async.next := 1 |}.

End Scenarios.

(* ===================================================================== *)
(** * Properties *)
(* ===================================================================== *)

Import Js.

(** ** The flags of the API client *)

(** C9. Each of [syncPlaylists], [syncTracks] and [syncAll] of the API
    client, called with its arguments omitted, posts the body
    [{force_refresh: false, confirm: false}]; and whatever the arguments, the
    body carries [confirm: true] exactly when [true] was passed for
    [confirm], and a truthy [confirm] only when a truthy one was passed. *)
Theorem api_sync_flags_default (op : Api.sync_op) :
  Api.data (Api.sync op JUndef JUndef)
    = Some (JObj [("force_refresh", JBool false); ("confirm", JBool false)])
  /\ Api.url (Api.sync op JUndef JUndef) = Api.sync_url op
  /\ (forall forceRefresh,
        Api.body_confirm (Api.sync op forceRefresh JUndef) = JBool false)
  /\ (forall forceRefresh confirm,
        Api.body_confirm (Api.sync op forceRefresh confirm) = JBool true
        <-> confirm = JBool true)
  /\ (forall forceRefresh confirm,
        truthy (Api.body_confirm (Api.sync op forceRefresh confirm)) = true
        <-> confirm <> JUndef /\ truthy confirm = true).
Proof.
  repeat split; try (destruct op; reflexivity).
  - destruct op; cbn; destruct confirm; cbn; congruence.
  - intros ->; destruct op; reflexivity.
  - destruct op; cbn in H; destruct confirm; cbn in H; congruence.
  - destruct op; cbn in H; destruct confirm; cbn in H |- *; congruence.
  - intros [Hu Ht]; destruct op; cbn; destruct confirm; cbn in *; congruence.
Qed.

(** ** Rounding never makes a NaN *)

Section RoundingFacts.

Lemma shr_1_nonneg mrs : (0 <= shr_m mrs)%Z -> (0 <= shr_m (shr_1 mrs))%Z.
Proof.
  destruct mrs as [m r s]; cbn.
  destruct m as [|p|p]; cbn; try lia; destruct p; cbn; lia.
Qed.

Lemma iter_shr_1_nonneg p :
  forall mrs, (0 <= shr_m mrs)%Z -> (0 <= shr_m (iter_pos shr_1 p mrs))%Z.
Proof.
  induction p as [p IH|p IH|]; intros mrs H; cbn.
  - apply IH, IH, shr_1_nonneg, H.
  - apply IH, IH, H.
  - apply shr_1_nonneg, H.
Qed.

Lemma shr_fexp_nonneg m e l :
  (0 <= m)%Z -> (0 <= shr_m (fst (shr_fexp prec emax m e l)))%Z.
Proof.
  intros H. unfold shr_fexp, shr.
  assert (H0 : (0 <= shr_m (shr_record_of_loc m l))%Z)
    by (destruct l as [|[]]; exact H).
  destruct (fexp prec emax (Zdigits2 m + e) - e)%Z; cbn; auto.
  apply iter_shr_1_nonneg, H0.
Qed.

Lemma round_nearest_even_nonneg m l :
  (0 <= m)%Z -> (0 <= round_nearest_even m l)%Z.
Proof.
  intros H. unfold round_nearest_even.
  destruct l as [|[]]; try lia. destruct (Z.even m); lia.
Qed.

Lemma binary_round_aux_not_nan sx mx ex lx :
  (0 <= mx)%Z -> is_nan (binary_round_aux prec emax sx mx ex lx) = false.
Proof.
  intros H. unfold binary_round_aux.
  pose proof (shr_fexp_nonneg mx ex lx H) as H1.
  destruct (shr_fexp prec emax mx ex lx) as [mrs' e']; cbn in H1.
  pose proof (shr_fexp_nonneg
                (round_nearest_even (shr_m mrs') (loc_of_shr_record mrs')) e' loc_Exact
                (round_nearest_even_nonneg _ _ H1)) as H2.
  destruct (shr_fexp prec emax _ e' loc_Exact) as [mrs'' e'']; cbn in H2.
  destruct (shr_m mrs''); try lia; try reflexivity.
  destruct (e'' <=? emax - prec)%Z; reflexivity.
Qed.

Lemma binary_normalize_not_nan m e s :
  is_nan (binary_normalize prec emax m e s) = false.
Proof.
  destruct m; cbn -[binary_round_aux shl_align fexp]; try reflexivity;
    unfold binary_round;
    match goal with |- context [shl_align ?a ?b ?c] => destruct (shl_align a b c) end;
    apply binary_round_aux_not_nan; lia.
Qed.

Lemma div_finite_not_nan x y :
  is_finite x = true -> is_finite y = true -> is_zero y = false ->
  is_nan (div x y) = false.
Proof.
  destruct x as [sx| | |sx mx ex], y as [sy| | |sy my ey]; try discriminate;
    intros _ _ _; try reflexivity.
  unfold div, SFdiv.
  destruct (SFdiv_core_binary prec emax (Z.pos mx) ex (Z.pos my) ey)
    as [[mz ez] lz] eqn:E.
  apply binary_round_aux_not_nan.
  unfold SFdiv_core_binary in E.
  match type of E with
  | context [Z.div_eucl ?a ?b] =>
      pose proof (Z.div_eucl_eq a b ltac:(lia)) as Hq;
      pose proof (Z.mod_pos_bound a b ltac:(lia)) as Hr;
      assert (Ha : (0 <= a)%Z);
      [ | unfold Z.modulo in Hr; destruct (Z.div_eucl a b) as [q r] ]
  end.
  - match goal with |- (0 <= match ?s with _ => _ end)%Z => destruct s eqn:Es end;
      try lia. rewrite <- Es. apply Z.shiftl_nonneg. lia.
  - injection E as <- _ _. nia.
Qed.

Lemma mul_hundred_not_nan x :
  is_nan x = false -> is_nan (mul x (of_Z 100)) = false.
Proof.
  destruct x as [sx|sx| |sx mx ex]; try discriminate; intros _; try reflexivity.
  change (of_Z 100) with (S754_finite false 7036874417766400 (-46)).
  unfold mul, SFmul. apply binary_round_aux_not_nan. lia.
Qed.

Lemma math_round_not_nan x : is_nan x = false -> is_nan (math_round x) = false.
Proof.
  destruct x as [sx|sx| |sx mx ex]; try discriminate; intros _; try reflexivity.
  unfold math_round.
  destruct (0 <=? ex)%Z; [reflexivity|].
  destruct (_ =? 0)%Z; [reflexivity|].
  apply binary_normalize_not_nan.
Qed.

End RoundingFacts.

(** ** [calculatePercentage] *)

Section Percentage.
Context {NT : NumberText}.
Import ValidationView.

(** C10, as the code has it. [calculatePercentage] returns 0 whenever
    [total] is falsy, which zero, [null] and [undefined] are, and NaN,
    [false] and the empty string too; for any other [total] it returns
    [Math.round((part / total) * 100)].  When [total] is a Number, the
    division is evaluated only on a divisor that is neither zero nor NaN,
    and on finite Numbers the result is never NaN. *)
Theorem calculatePercentage_guarded (part total : jsval) :
  (In total [JNum pos_zero; JNum neg_zero; JNull; JUndef; JNum nan; JBool false; JStr ""] ->
   calculatePercentage part total = JNum pos_zero)
  /\ (truthy total = false -> calculatePercentage part total = JNum pos_zero)
  /\ (truthy total = true ->
      calculatePercentage part total
        = JNum (math_round (mul (div (to_number part) (to_number total)) (of_Z 100))))
  /\ (forall y, total = JNum y -> truthy total = true ->
      is_zero (to_number total) = false /\ is_nan (to_number total) = false)
  /\ (forall x y, part = JNum x -> total = JNum y ->
      is_finite x = true -> is_finite y = true ->
      exists r, calculatePercentage part total = JNum r /\ is_nan r = false).
Proof.
  split; [|split; [|split; [|split]]].
  - cbn. intros [<-|[<-|[<-|[<-|[<-|[<-|[<-|[]]]]]]]]; reflexivity.
  - unfold calculatePercentage. intros ->. reflexivity.
  - unfold calculatePercentage. intros ->. reflexivity.
  - intros y -> H. cbn in *. destruct y; cbn in *; auto; discriminate.
  - intros x y -> -> Hx Hy. unfold calculatePercentage.
    destruct (truthy (JNum y)) eqn:Ht; cbn [negb].
    + eexists; split; [reflexivity|].
      apply math_round_not_nan, mul_hundred_not_nan, div_finite_not_nan; auto.
      cbn in Ht. destruct y; cbn in *; auto; discriminate.
    + eexists; split; reflexivity.
Qed.

End Percentage.

Lemma calculatePercentage_guarded_witness :
  ValidationView.calculatePercentage (NT := decimal_integers)
    (JNum (of_Z 1)) (JNum (of_Z 3)) = JNum (of_Z 33)
  /\ ValidationView.calculatePercentage (NT := decimal_integers)
       (JNum (of_Z 1)) JNull = JNum pos_zero.
Proof.
  split.
  - rewrite (proj1 (proj2 (proj2 (calculatePercentage_guarded
               (NT := decimal_integers) (JNum (of_Z 1)) (JNum (of_Z 3)))))).
    + vm_compute. reflexivity.
    + vm_compute. reflexivity.
  - apply (proj1 (calculatePercentage_guarded (NT := decimal_integers) (JNum (of_Z 1)) JNull)).
    cbn. auto.
Defined.

(** Against C10 as it is worded: on the largest finite Number over 1 the
    product with 100 overflows and the function returns Infinity; and on a
    [total] of NaN, which is neither zero, [null] nor [undefined], it
    returns 0 where [Math.round((part / total) * 100)] is NaN. *)
Lemma calculatePercentage_not_always_finite :
  ~ (forall (NT : NumberText) (part total : jsval),
       (In total [JNum pos_zero; JNum neg_zero; JNull; JUndef] ->
        ValidationView.calculatePercentage part total = JNum pos_zero)
       /\ (~ In total [JNum pos_zero; JNum neg_zero; JNull; JUndef] ->
           ValidationView.calculatePercentage part total
             = JNum (math_round (mul (div (to_number part) (to_number total)) (of_Z 100))))
       /\ (forall x y, part = JNum x -> total = JNum y ->
           is_nan x = false -> is_infinite x = false ->
           is_nan y = false -> is_infinite y = false ->
           exists r, ValidationView.calculatePercentage part total = JNum r
                     /\ is_nan r = false /\ is_infinite r = false)).
Proof.
  intros H.
  destruct (H decimal_integers (JNum (SFmax_float prec emax)) (JNum (of_Z 1)))
    as (_ & _ & H3).
  destruct (H3 _ _ eq_refl eq_refl eq_refl eq_refl eq_refl eq_refl) as (r & Hr & _ & Hinf).
  vm_compute in Hr. injection Hr as <-. discriminate.
Qed.

Lemma calculatePercentage_nan_total :
  ValidationView.calculatePercentage (NT := decimal_integers) (JNum (of_Z 1)) (JNum nan)
    = JNum pos_zero
  /\ math_round (mul (div (of_Z 1) nan) (of_Z 100)) = nan
  /\ ValidationView.calculatePercentage (NT := decimal_integers)
       (JNum (SFmax_float prec emax)) (JNum (of_Z 1)) = JNum pos_infinity.
Proof. repeat split. Qed.

Import SyncView.

(** ** Symbolic runs *)

Lemma format_added_cases {NT : NumberText} v :
  (exists l, format_added v = Ret l) \/ (exists e, format_added v = Throw e).
Proof.
  destruct v; cbn; try (right; eexists; reflexivity).
  destruct (map_tracks items); [right|left]; eexists; reflexivity.
Qed.

(** One step of an invocation that waits for an answer: take the answer by
    cases. *)
Ltac answer :=
  match goal with
  | |- context [server ?w ?n ?r] =>
      destruct (server w n r) as [[?d|?e]|] eqn:?
  | |- context [user ?w ?n] =>
      destruct (user w n) as [[|]|] eqn:?
  | |- context [match instance_at ?w ?n with _ => _ end] =>
      destruct (instance_at w n) eqn:?
  | |- context [if truthy ?v then _ else _] =>
      destruct (truthy v) eqn:?
  | |- context [read ?v ?k] =>
      unfold read; destruct (get v k) eqn:?
  | |- context [match get ?v ?k with _ => _ end] =>
      destruct (get v k) eqn:?
  | |- context [format_added ?v] =>
      let H := fresh "Hfmt" in
      destruct (format_added_cases v) as [[?l H]|[?e H]]; rewrite H
  end; cbn.

(** ** The handlers of one request *)

Section SimpleOperations.
Context {NT : NumberText}.

(** An invocation sets the flag and sends the request, and then sends
    nothing more and opens no dialog. *)
Lemma simple_operation_trace w n flag r type ok failed :
  exists rest,
    run w n (simple_operation flag r type ok failed)
      = OWrite (SetLoading flag true) :: OSend r :: rest
    /\ requests rest = [] /\ dialogs rest = [].
Proof.
  unfold simple_operation, error_text. cbn.
  eexists; split; [reflexivity|].
  repeat answer; split; reflexivity.
Qed.

(** The reaction to the click sends the request, and leaves the dialog and
    the promises of [confirmDialog] as they are. *)
Lemma simple_operation_exec inst c flag r type ok failed :
  snd (exec inst (simple_operation flag r type ok failed) c) = [Sent (fresh c) r]
  /\ dialog (fst (exec inst (simple_operation flag r type ok failed) c)) = dialog c
  /\ confirming (fst (exec inst (simple_operation flag r type ok failed) c)) = confirming c.
Proof. repeat split. Qed.

End SimpleOperations.

Section ImmediateRequests.
Context {NT : NumberText}.

(** C2. The view does not ask before it sends. A click on "Sync All Tracks
    to MASTER Playlist" or on "Sync Unplaylisted Tracks to UNSORTED
    Playlist" sends the request of the operation at once: the invocation
    sets the loading flag of that button, [syncMaster] or
    [syncUnplaylisted], and posts to the endpoint, without a body, sends
    nothing else and opens no dialog; the reaction of the component to the
    click, in whatever state, lets the request out and leaves the dialog as
    it was.  A click on "Clear Database", in the same view, sends nothing
    and shows its dialog. *)
Theorem remote_push_sent_on_click (b : button) (r : Api.request) (flag : loading_key) :
  In (b, r, flag) [(BtnSyncToMaster, Api.syncToMaster, LSyncMaster);
                   (BtnSyncUnplaylisted, Api.syncUnplaylisted, LSyncUnplaylisted)] ->
  Api.data r = None
  /\ (forall w, exists rest,
        invoke w (on_click b) = OWrite (SetLoading flag true) :: OSend r :: rest
        /\ requests (invoke w (on_click b)) = [r]
        /\ dialogs (invoke w (on_click b)) = [])
  /\ (forall inst c,
        snd (react inst (Click b) c) = [Sent (fresh c) r]
        /\ dialog (fst (react inst (Click b) c)) = dialog c)
  /\ (forall inst c,
        snd (react inst (Click BtnClearDatabase) c) = []
        /\ show (dialog (fst (react inst (Click BtnClearDatabase) c))) = true
        /\ title (dialog (fst (react inst (Click BtnClearDatabase) c))) = "Clear Database").
Proof.
  intros [H|[H|[]]]; injection H as <- <- <-; (split; [reflexivity|split; [|split]]).
  1,4: intros w; unfold invoke, on_click, syncToMaster, syncUnplaylisted;
       match goal with
       | |- context [simple_operation ?f ?r ?t ?o ?k] =>
           destruct (simple_operation_trace w 0 f r t o k) as (rest & -> & Hr & Hd)
       end;
       eexists; split; [reflexivity|]; cbn; rewrite Hr, Hd; split; reflexivity.
  all: intros inst c; repeat split.
Qed.

(** C8. A click on "Clear Spotify API Cache" sends the request at once and
    unconditionally: the invocation sets its loading flag and posts to
    [/cache/clear] with no body, hence no [confirm] parameter, sends nothing
    else and opens no dialog; the reaction of the component to the click, in
    whatever state, lets the request out and leaves the dialog as it was. *)
Theorem clear_cache_unconditional :
  Api.url Api.clearCache = "/cache/clear"
  /\ Api.data Api.clearCache = None
  /\ Api.body_confirm Api.clearCache = JUndef
  /\ (forall w, exists rest,
        invoke w clearCache
          = OWrite (SetLoading LClearCache true) :: OSend Api.clearCache :: rest
        /\ requests (invoke w clearCache) = [Api.clearCache]
        /\ dialogs (invoke w clearCache) = [])
  /\ (forall inst c,
        snd (react inst (Click BtnClearCache) c) = [Sent (fresh c) Api.clearCache]
        /\ dialog (fst (react inst (Click BtnClearCache) c)) = dialog c).
Proof.
  repeat split.
  intros w. unfold invoke, clearCache.
  match goal with
  | |- context [simple_operation ?f ?r ?t ?o ?k] =>
      destruct (simple_operation_trace w 0 f r t o k) as (rest & -> & Hr & Hd)
  end.
  eexists; split; [reflexivity|]. cbn. rewrite Hr, Hd. split; reflexivity.
Qed.

End ImmediateRequests.

Lemma remote_push_sent_on_click_witness :
  snd (react (NT := decimal_integers) InstanceWith (Click BtnSyncToMaster) initial)
    = [Sent 0 Api.syncToMaster]
  /\ dialog (fst (react (NT := decimal_integers) InstanceWith (Click BtnSyncToMaster)
                    initial))
     = dialog initial.
Proof.
  exact (proj1 (proj2 (proj2 (remote_push_sent_on_click (NT := decimal_integers)
                   BtnSyncToMaster Api.syncToMaster LSyncMaster (or_introl eq_refl))))
           InstanceWith initial).
Defined.

(** That a confirmation comes first fails in the session that consists of
    one click on "Sync All Tracks to MASTER Playlist": the request is sent
    in the reaction to that click; no dialog was confirmed, none was
    shown. *)
Lemma remote_push_without_confirmation :
  ~ (forall (NT : NumberText) (ins : list (current_instance * input))
            pre i evs post id r,
       snd (session ins initial) = (pre ++ (i, evs) :: post)%list ->
       In (Sent id r) evs ->
       r = Api.syncToMaster \/ r = Api.syncUnplaylisted ->
       i = DialogConfirm \/ exists evs', In (DialogConfirm, evs') pre).
Proof.
  intros H.
  destruct (H decimal_integers [(InstanceWith, Click BtnSyncToMaster)]
              [] (Click BtnSyncToMaster) [Sent 0 Api.syncToMaster] [] 0 Api.syncToMaster
              eq_refl (or_introl eq_refl) (or_introl eq_refl)) as [E|[evs' []]].
  discriminate E.
Qed.

(** ** The checkbox is read again for the confirmed call *)

(** C5, where the code departs from it. The user clicks "Sync Playlists",
    ticks "Force Full Refresh" while the analysis is on its way, and confirms
    the dialog: the analysis went out with [force_refresh: false], the
    confirmed call goes out with [force_refresh: true]. *)
Lemma confirmed_call_rereads_checkbox :
  sent (snd (session (NT := decimal_integers)
               [(InstanceWith, Click BtnSyncPlaylists);
                (InstanceWith, Tick true);
                (InstanceWith, Settle 0 (Resolved Examples.one_playlist_to_add));
                (InstanceWith, DialogConfirm)]
               initial))
  = [Api.syncPlaylists (JBool false) (JBool false);
     Api.syncPlaylists (JBool true) (JBool true)].
Proof. reflexivity. Qed.

(** ** What may leave the component, and when *)

(** Decide [gated] on a handler: go through the tree, by cases on what it
    reads; [side] is to settle where a bad request may be posted. *)
Ltac gate side :=
  repeat first
    [ exact I
    | match goal with
      | |- _ /\ _ => split
      | |- context [read ?v ?k] => unfold read; destruct (get v k)
      | |- context [match get ?v ?k with _ => _ end] => destruct (get v k)
      | |- context [if truthy ?v then _ else _] => destruct (truthy v)
      | |- context [format_added ?v] =>
          let H := fresh "Hfmt" in
          destruct (format_added_cases v) as [[? H]|[? H]]; rewrite H
      | |- forall _ : bool, _ => intros []
      | |- forall _ : current_instance, _ => intros []
      | |- forall _ : http_result, _ => intros []
      | |- _ -> _ = true => solve [side]
      end
    | progress cbn ].

Lemma take_Forall {K} (P : nat * K -> Prop) id :
  forall l k rest, Forall P l -> take id l = Some (k, rest) ->
  P (id, k) /\ Forall P rest.
Proof.
  induction l as [|[i k0] l IH]; cbn; intros k rest Hl E; [discriminate|].
  inversion Hl as [|? ? Hh Ht]; subst.
  destruct (Nat.eqb_spec i id) as [->|Hne].
  - injection E as <- <-. auto.
  - destruct (take id l) as [[k' rest']|] eqn:Et; [|discriminate].
    injection E as <- <-. destruct (IH _ _ Ht eq_refl). auto.
Qed.

Section Gate.
Context {NT : NumberText}.
Variable bad : Api.request -> Prop.
Variable unlock : bool.
Variable start : button -> bool.
Hypothesis start_gated :
  forall b, b <> BtnClearDatabase -> gated bad unlock (start b) (on_click b).

Lemma exec_gated inst (p : prog unit) :
  forall free c, gated bad unlock free p -> sound bad unlock c ->
  sound bad unlock (fst (exec inst p c))
  /\ (forall id r, In (Sent id r) (snd (exec inst p c)) -> bad r -> free = true)
  /\ (action (dialog (fst (exec inst p c))) = Some ClearDatabaseFn ->
      action (dialog c) = Some ClearDatabaseFn).
Proof.
  induction p as [a|e|x k IH|k IH|k IH|t col k IH|m k IH|r k IH|t m d k IH];
    cbn [gated exec]; intros free c Hp Hc.
  - cbn. split; [exact Hc|split; [contradiction|auto]].
  - cbn. split; [exact Hc|split; [|auto]].
    intros id r [E|[]]. discriminate E.
  - destruct Hp as [Hx Hk].
    assert (Hs : sound bad unlock (apply_write x c)
                 /\ (action (dialog (apply_write x c)) = Some ClearDatabaseFn ->
                     action (dialog c) = Some ClearDatabaseFn))
      by (destruct x; try contradiction; split; auto; exact Hc).
    destruct Hs as [Hs Ha]. destruct (IH free _ Hk Hs) as (H1 & H2 & H3). auto.
  - apply IH; auto.
  - apply IH; auto.
  - destruct (IH free c Hp Hc) as (H1 & H2 & H3).
    destruct (exec inst k c) as [c' evs]; cbn in *.
    split; [exact H1|split; [|exact H3]].
    intros id r [E|E]; [discriminate|eauto].
  - destruct (IH free c Hp Hc) as (H1 & H2 & H3).
    destruct (exec inst k c) as [c' evs]; cbn in *.
    split; [exact H1|split; [|exact H3]].
    intros id r [E|E]; [discriminate|eauto].
  - destruct Hp as [Hr Hk]. destruct Hc as (C1 & C2 & C3). cbn.
    split; [|split; [|auto]].
    + unfold sound; cbn. auto.
    + intros id r0 [E|[]]. injection E as _ <-. exact Hr.
  - destruct Hp as [Ht Hf]. destruct Hc as (C1 & C2 & C3). cbn.
    split; [|split; [contradiction|discriminate]].
    unfold sound, dialog_ok; cbn. repeat split; auto; try discriminate.
    + intros p b E. injection E as _ <-. reflexivity.
    + intros f E. injection E as <-. eexists; reflexivity.
Qed.


(** Past its request, a handler of one request posts nothing. *)
Lemma gated_after_post flag type ok failed free res :
  gated bad unlock free
    (finally
       (try_catch
          (bind (match res with Resolved d => Ret d | Rejected e => Throw e end)
             (fun _ => bind (set (SetLastOperation (last_operation type true [])))
                         (fun _ => showSnackbar ok "success")))
          (fun error =>
             bind (error_text error)
               (fun msg =>
                  bind (set (SetLastOperation (last_operation type false [("error", msg)])))
                    (fun _ => showSnackbar failed "error"))))
       (set (SetLoading flag false))).
Proof. unfold error_text. destruct res; gate fail. Qed.

Lemma exec_clearDatabase inst c :
  sound bad unlock c ->
  sound bad unlock (fst (exec inst clearDatabase c))
  /\ snd (exec inst clearDatabase c) = [Sent (fresh c) Api.clearDatabase]
  /\ action (dialog (fst (exec inst clearDatabase c))) = action (dialog c).
Proof.
  intros (C1 & C2 & C3). split; [|split; reflexivity].
  unfold sound; cbn. split; [exact C1|split; [|exact C3]].
  constructor; [|exact C2]. cbn. intros x. apply gated_after_post.
Qed.

Lemma call_resolve_gated inst p b c :
  sound bad unlock c ->
  sound bad unlock (fst (call inst (ResolveFn p b) c))
  /\ (forall id r, In (Sent id r) (snd (call inst (ResolveFn p b) c)) -> bad r ->
      b = true /\ unlock = true)
  /\ (action (dialog (fst (call inst (ResolveFn p b) c))) = Some ClearDatabaseFn ->
      action (dialog c) = Some ClearDatabaseFn).
Proof.
  intros Hc. unfold call.
  assert (Hs : sound bad unlock (apply_write (SetDialogShow false) c)) by exact Hc.
  destruct (take p (confirming (apply_write (SetDialogShow false) c)))
    as [[k rest]|] eqn:Et.
  - destruct Hs as (C1 & C2 & C3).
    destruct (take_Forall _ _ _ _ _ C3 Et) as [[Hkt Hkf] Hrest].
    match goal with
    | |- context [exec inst (k b) ?c1] =>
        destruct (exec_gated inst (k b) (if b then unlock else false) c1)
          as (H1 & H2 & H3)
    end.
    + destruct b; assumption.
    + unfold sound; cbn. auto.
    + split; [exact H1|split; [|exact H3]].
      intros id r Hin Hb. specialize (H2 id r Hin Hb).
      destruct b; [auto|discriminate].
  - cbn [fst snd]. split; [exact Hs|split; [contradiction|]]. intros Ha. exact Ha.
Qed.

(** A bad request leaves only in the reaction to a click on a button that
    is free to send it, or to the Confirm button of the shown dialog, be it
    the "Clear Database" dialog, whose request is that of [clearDatabase],
    or one of [confirmDialog], when that unlocks; and the component stays
    sound. *)
Lemma react_gated inst i c :
  sound bad unlock c ->
  sound bad unlock (fst (react inst i c))
  /\ (forall id r, In (Sent id r) (snd (react inst i c)) -> bad r ->
      allowed start unlock i c r)
  /\ (action (dialog (fst (react inst i c))) = Some ClearDatabaseFn ->
      action (dialog c) = Some ClearDatabaseFn \/ i = Click BtnClearDatabase).
Proof.
  intros Hc.
  assert (Hquiet : forall (p : prog unit) c1,
            gated bad unlock false p -> sound bad unlock c1 ->
            action (dialog c1) = action (dialog c) ->
            sound bad unlock (fst (exec inst p c1))
            /\ (forall id r, In (Sent id r) (snd (exec inst p c1)) -> bad r ->
                allowed start unlock i c r)
            /\ (action (dialog (fst (exec inst p c1))) = Some ClearDatabaseFn ->
                action (dialog c) = Some ClearDatabaseFn \/ i = Click BtnClearDatabase)).
  { intros p c1 Hp Hc1 Ha.
    destruct (exec_gated inst p false c1 Hp Hc1) as (H1 & H2 & H3).
    split; [exact H1|split].
    - intros id r Hin Hb. discriminate (H2 id r Hin Hb).
    - intros H. left. rewrite <- Ha. exact (H3 H). }
  assert (Hsame : forall c1, sound bad unlock c1 -> action (dialog c1) = action (dialog c) ->
            sound bad unlock (fst (c1, @nil event))
            /\ (forall id r, In (Sent id r) (snd (c1, @nil event)) -> bad r ->
                allowed start unlock i c r)
            /\ (action (dialog (fst (c1, @nil event))) = Some ClearDatabaseFn ->
                action (dialog c) = Some ClearDatabaseFn \/ i = Click BtnClearDatabase)).
  { intros c1 Hc1 Ha. split; [exact Hc1|split; [contradiction|]].
    intros H. left. rewrite <- Ha. exact H. }
  destruct i as [b| b | | | |id res]; cbn [react].
  - assert (Hb : b = BtnClearDatabase \/ b <> BtnClearDatabase)
      by (destruct b; auto; right; discriminate).
    destruct Hb as [->|Hb].
    + destruct Hc as (C1 & C2 & C3). cbn.
      split; [|split; [contradiction|auto]].
      unfold sound, dialog_ok; cbn.
      repeat split; auto; discriminate.
    + destruct (exec_gated inst (on_click b) (start b) c (start_gated b Hb) Hc)
        as (H1 & H2 & H3).
      split; [exact H1|split].
      * intros id r Hin Hbad. left. exists b. split; [reflexivity|eauto].
      * intros H. left. exact (H3 H).
  - apply (Hsame (set_forceRefresh b c) Hc); first [reflexivity|assumption].
  - destruct (show (dialog c)) eqn:Hshow; [|apply (Hsame c Hc); first [reflexivity|assumption]].
    destruct (action (dialog c)) as [[|p b]|] eqn:Hact.
    + destruct (exec_clearDatabase inst c Hc) as (H1 & H2 & H3). cbn [call].
      split; [exact H1|split].
      * intros id r Hin Hb. rewrite H2 in Hin. destruct Hin as [E|[]].
        injection E as _ <-. right. unfold allowed. rewrite Hshow, Hact. auto.
      * intros H. left. reflexivity.
    + destruct (call_resolve_gated inst p b c Hc) as (H1 & H2 & H3).
      split; [exact H1|split].
      * intros id r Hin Hb. destruct (H2 id r Hin Hb) as [-> Hu].
        right. rewrite Hshow, Hact. eauto 6.
      * intros H. apply H3 in H. congruence.
    + apply (Hsame c Hc); first [reflexivity|assumption].
  - destruct (show (dialog c)) eqn:Hshow; [|apply (Hsame c Hc); first [reflexivity|assumption]].
    destruct (cancel (dialog c)) as [f|] eqn:Hcan.
    + destruct (proj2 (proj2 (proj1 Hc)) f Hcan) as [p ->].
      destruct (call_resolve_gated inst p false c Hc) as (H1 & H2 & H3).
      split; [exact H1|split].
      * intros id r Hin Hb. destruct (H2 id r Hin Hb) as [E _]. discriminate E.
      * intros H. left. exact (H3 H).
    + apply (Hsame (apply_write (SetDialogShow false) c) Hc); first [reflexivity|assumption].
  - destruct (show (dialog c)) eqn:Hshow; [|apply (Hsame c Hc); first [reflexivity|assumption]].
    apply (Hsame (apply_write (SetDialogShow false) c) Hc); first [reflexivity|assumption].
  - destruct (take id (in_flight c)) as [[k rest]|] eqn:Et; [|apply (Hsame c Hc); first [reflexivity|assumption]].
    destruct Hc as (C1 & C2 & C3).
    destruct (take_Forall _ _ _ _ _ C2 Et) as [Hk Hrest].
    apply Hquiet; [apply Hk| |reflexivity].
    unfold sound; cbn. auto.
Qed.

Lemma initial_sound : sound bad unlock initial.
Proof.
  unfold sound, dialog_ok; cbn. repeat split; auto; discriminate.
Qed.

Lemma session_gated ins :
  forall c, sound bad unlock c ->
  sound bad unlock (fst (session ins c))
  /\ (action (dialog (fst (session ins c))) = Some ClearDatabaseFn ->
      action (dialog c) = Some ClearDatabaseFn
      \/ In (Click BtnClearDatabase) (map snd ins)).
Proof.
  induction ins as [|[inst i] ins IH]; intros c Hc; cbn [session].
  - cbn. auto.
  - destruct (react_gated inst i c Hc) as (H1 & _ & H3).
    destruct (react inst i c) as [c1 evs]; cbn [fst snd] in *.
    destruct (IH c1 H1) as [H4 H5].
    destruct (session ins c1) as [c2 log]; cbn [fst snd map] in *.
    split; [exact H4|]. intros Ha.
    destruct (H5 Ha) as [H|H]; [|right; right; exact H].
    destruct (H3 H) as [H'|H']; [left; exact H'|right; left; exact H'].
Qed.

(** In a session from the initial state, a bad request leaves only as
    [allowed]. *)
Lemma session_react_gated ins inst i id r :
  In (Sent id r) (snd (react inst i (fst (session ins initial)))) -> bad r ->
  allowed start unlock i (fst (session ins initial)) r.
Proof.
  intros Hin Hb.
  destruct (session_gated ins initial initial_sound) as [Hc _].
  exact (proj1 (proj2 (react_gated inst i _ Hc)) id r Hin Hb).
Qed.

End Gate.

(** ** The "Clear Database" dialog *)

Section Gates.
Context {NT : NumberText}.

(** No handler but [clearDatabase] posts to [/db/clear]. *)
Lemma gated_clear b :
  b <> BtnClearDatabase ->
  gated (fun r => Api.url r = "/db/clear") false false (on_click b).
Proof.
  destruct b; intros H; try congruence;
    cbn [on_click];
    unfold syncPlaylists, syncMasterTracks, syncAll,
      syncToMaster, syncUnplaylisted, clearCache, simple_operation, error_text;
    gate ltac:(intros E; discriminate E).
Qed.

(** A handler posts with [confirm: true] only when its dialog has been
    confirmed. *)
Lemma gated_confirmed b :
  b <> BtnClearDatabase ->
  gated (fun r => is_confirmed r = true) true false (on_click b).
Proof.
  destruct b; intros H; try congruence;
    cbn [on_click];
    unfold syncPlaylists, syncMasterTracks, syncAll,
      syncToMaster, syncUnplaylisted, clearCache, simple_operation, error_text;
    gate ltac:(first [reflexivity | intros E; discriminate E]).
Qed.

(** A handler posts when it starts, and when its dialog has been
    confirmed, and at no other time. *)
Lemma gated_any b :
  b <> BtnClearDatabase ->
  gated (fun _ => True) true true (on_click b).
Proof.
  destruct b; intros H; try congruence;
    cbn [on_click];
    unfold syncPlaylists, syncMasterTracks, syncAll,
      syncToMaster, syncUnplaylisted, clearCache, simple_operation, error_text;
    gate ltac:(reflexivity).
Qed.


(** C7. In any session of the component, a post to [/db/clear] leaves only
    in the reaction to the Confirm button of the dialog, while the dialog
    shown is the "Clear Database" one, which a click on "Clear Database" has
    opened before; that click itself sends nothing and only opens the
    dialog; and when the dialog is shown, Confirm sends the one request,
    while Cancel, or closing the dialog, sends nothing and hides it. *)
Theorem clear_database_needs_confirmation
    (ins : list (current_instance * input)) (inst : current_instance) (i : input) :
  let c := fst (session ins initial) in
  (forall id r,
     In (Sent id r) (snd (react inst i c)) -> Api.url r = "/db/clear" ->
     i = DialogConfirm
     /\ show (dialog c) = true
     /\ title (dialog c) = "Clear Database"
     /\ In (Click BtnClearDatabase) (map snd ins))
  /\ (snd (react inst (Click BtnClearDatabase) c) = []
      /\ dialog (fst (react inst (Click BtnClearDatabase) c))
         = {| show := true;
              title := "Clear Database";
              text := "Are you sure you want to clear all database tables? This action cannot be undone.";
              details := JUndef;
              action := Some ClearDatabaseFn;
              cancel := None |})
  /\ (show (dialog c) = true -> action (dialog c) = Some ClearDatabaseFn ->
      snd (react inst DialogConfirm c) = [Sent (fresh c) Api.clearDatabase]
      /\ snd (react inst DialogCancel c) = []
      /\ show (dialog (fst (react inst DialogCancel c))) = false
      /\ snd (react inst DialogDismiss c) = []
      /\ show (dialog (fst (react inst DialogDismiss c))) = false).
Proof.
  intros c.
  pose (bad := fun r => Api.url r = "/db/clear").
  destruct (session_gated bad false (fun _ => false) gated_clear
              ins initial (initial_sound bad false))
    as [Hc Hclick].
  fold c in Hc, Hclick.
  split; [|split].
  - intros id r Hin Hu.
    destruct (react_gated bad false (fun _ => false) gated_clear inst i c Hc)
      as (_ & H2 & _).
    destruct (H2 id r Hin Hu) as [(b & _ & E)|(Hi & Hshow & [[Hact _]|[E _]])];
      try discriminate E.
    split; [exact Hi|split; [exact Hshow|split]].
    + apply Hc, Hact.
    + destruct (Hclick Hact) as [H|H]; [discriminate H|exact H].
  - split; reflexivity.
  - intros Hshow Hact.
    destruct Hc as ((C1 & _) & _). destruct (C1 Hact) as [_ Hcan].
    cbn [react]. rewrite Hshow, Hact, Hcan. repeat split.
Qed.

End Gates.

Lemma clear_database_needs_confirmation_witness :
  snd (react (NT := decimal_integers) InstanceWith DialogConfirm
         (fst (session (NT := decimal_integers)
                 [(InstanceWith, Click BtnClearDatabase)] initial)))
    = [Sent 0 Api.clearDatabase]
  /\ snd (react (NT := decimal_integers) InstanceWith DialogCancel
            (fst (session (NT := decimal_integers)
                    [(InstanceWith, Click BtnClearDatabase)] initial)))
    = [].
Proof.
  pose proof (proj2 (proj2 (clear_database_needs_confirmation (NT := decimal_integers)
                              [(InstanceWith, Click BtnClearDatabase)]
                              InstanceWith DialogConfirm))
                eq_refl eq_refl) as H.
  split; [exact (proj1 H)|exact (proj1 (proj2 H))].
Defined.

(** ** The two calls of a sync operation *)

Section TwoCalls.
Context {NT : NumberText}.

Lemma cuts_complete pre r post :
  forall t, t = (pre ++ OSend r :: post)%list -> In (pre, r) (cuts t).
Proof.
  induction pre as [|x pre IH]; intros t ->; cbn.
  - left. reflexivity.
  - apply in_or_app. right.
    apply (in_map (fun c => (x :: fst c, snd c)) _ (pre, r)). apply IH. reflexivity.
Qed.

Ltac pick_cut H :=
  apply cuts_complete in H; cbn in H;
  repeat match type of H with
         | _ \/ _ => destruct H as [H|H]
         | False => contradiction
         end;
  injection H as <- <-.

Lemma get_opt_of_get d k v : get d k = inr v -> get_opt d k = v.
Proof. destruct d; cbn; congruence. Qed.

(** C1. In every invocation of [syncPlaylists], [syncMasterTracks] and
    [syncAll], the first thing sent is the call with [confirm: false]; and a
    call with [confirm: true] is sent only when that first call has returned
    a payload marked [needs_confirmation], the dialog has been opened on it
    and the user has confirmed: the commit never precedes its analysis.  On
    the component, in any session, a call with [confirm: true] leaves only
    in the reaction to the Confirm button of a shown dialog that
    [confirmDialog] has opened. *)
Theorem commit_follows_analysis :
  (forall (w : world) (op : Api.sync_op),
     let t := invoke w (sync_handler op) in
     (exists b rest,
        t = OWrite (SetLoading (sync_flag op) true) :: ORead b
              :: OSend (Api.sync op (JBool b) (JBool false)) :: rest)
     /\ (forall pre r post,
           t = (pre ++ OSend r :: post)%list -> is_confirmed r = true ->
           exists b d title text details b',
             pre = [OWrite (SetLoading (sync_flag op) true); ORead b;
                    OSend (Api.sync op (JBool b) (JBool false));
                    OSettled (Resolved d);
                    OOpen title text details; OAnswer true; ORead b']
             /\ truthy (get_opt d "needs_confirmation") = true
             /\ r = Api.sync op (JBool b') (JBool true)))
  /\ (forall (ins : list (current_instance * input)) inst i id r,
        let c := fst (session ins initial) in
        In (Sent id r) (snd (react inst i c)) -> is_confirmed r = true ->
        i = DialogConfirm
        /\ show (dialog c) = true
        /\ exists p, action (dialog c) = Some (ResolveFn p true)).
Proof.
  split.
  - intros w op t. subst t. split.
    + destruct op; cbn; do 2 eexists; reflexivity.
    + intros pre r post H Hr. unfold invoke in H.
      destruct op; cbn in H; revert H; repeat answer; intros H; pick_cut H;
        try discriminate Hr;
        do 6 eexists; (split; [reflexivity|split; [|reflexivity]]);
        erewrite get_opt_of_get by eassumption; assumption.
  - intros ins inst i id r c Hin Hr.
    destruct (session_react_gated (fun r => is_confirmed r = true) true
                (fun _ => false) gated_confirmed ins inst i id r Hin Hr)
      as [(b & _ & E)|(Hi & Hshow & [[_ ->]|[_ Hp]])].
    + discriminate E.
    + discriminate Hr.
    + auto.
Qed.


Ltac in_trace H :=
  cbn in H;
  repeat match type of H with
         | _ \/ _ => destruct H as [H|H]
         | False => contradiction
         end;
  try discriminate H;
  try (injection H; clear H; intros);
  subst.

(** Evaluate the one handler that is being run, wherever it occurs. *)
Ltac refocus :=
  match goal with
  | |- context [exec ?i ?p ?c0] =>
      pattern (exec i p c0);
      match goal with
      | |- ?P ?x => let x' := eval cbn in x in change (P x')
      end;
      cbv beta
  end.

Ltac resume :=
  match goal with
  | |- context [if truthy ?v then _ else _] =>
      destruct (truthy v) eqn:?
  | |- context [read ?v ?k] =>
      unfold read; destruct (get v k) eqn:?
  | |- context [match get ?v ?k with _ => _ end] =>
      destruct (get v k) eqn:?
  | |- context [format_added ?v] =>
      let H := fresh "Hfmt" in
      destruct (format_added_cases v) as [[?l H]|[?e H]]; rewrite H
  | |- context [match ?i with NoInstance => _ | _ => _ end] =>
      destruct i
  end; try refocus.

(** C3. In every invocation of [syncPlaylists], [syncMasterTracks] and
    [syncAll] in which the user declines in the dialog, the one request sent
    is the call with [confirm: false], no request follows the refusal, and
    the handler writes nothing but its loading flag, which it clears:
    [lastOperation] is not assigned, no snackbar is shown, and the handler
    returns.  On the component, in whatever state: when the response to the
    first call makes the handler open its dialog (the reaction then takes a
    promise, the second identifier after that of the request) and the user
    cancels, the two reactions send nothing, and the refs are as before the
    click but for the dialog, which is hidden, and the loading flag, which
    is down.  And in any session the component sends a request only in the
    reaction to a click on one of its buttons or to the Confirm button of
    the dialog: none leaves on Cancel, or when the dialog is closed. *)
Theorem declined_sync_sends_nothing_more (op : Api.sync_op) :
  (forall w : world,
     let t := invoke w (sync_handler op) in
     In (OAnswer false) t ->
     (exists b, requests t = [Api.sync op (JBool b) (JBool false)])
     /\ (forall r, In r (requests t) -> is_confirmed r = false)
     /\ (exists before, t = (before ++ [OAnswer false;
                                        OWrite (SetLoading (sync_flag op) false);
                                        OWrite (SetLoading (sync_flag op) false);
                                        OReturn])%list)
     /\ (forall x, In (OWrite x) t -> exists b, x = SetLoading (sync_flag op) b)
     /\ (forall text color, ~ In (OSnackbar text color) t)
     /\ answers t = [false])
  /\ (forall (c : component) (inst : current_instance) (d : jsval),
        let c1 := fst (react inst (Click (sync_button op)) c) in
        let c2 := fst (react inst (Settle (fresh c) (Resolved d)) c1) in
        let c3 := fst (react inst DialogCancel c2) in
        snd (react inst (Click (sync_button op)) c)
          = [Sent (fresh c) (Api.sync op (JBool (forceRefresh c)) (JBool false))]
        /\ (fresh c2 = S (S (fresh c)) ->
            show (dialog c2) = true
            /\ snd (react inst (Settle (fresh c) (Resolved d)) c1) = []
            /\ snd (react inst DialogCancel c2) = []
            /\ lastOperation c3 = lastOperation c
            /\ forceRefresh c3 = forceRefresh c
            /\ in_flight c3 = in_flight c
            /\ confirming c3 = confirming c
            /\ loading c3 (sync_flag op) = false
            /\ show (dialog c3) = false))
  /\ (forall (ins : list (current_instance * input)) inst i id r,
        In (Sent id r) (snd (react inst i (fst (session ins initial)))) ->
        (exists b, i = Click b) \/ i = DialogConfirm).
Proof.
  split; [|split].
  - intros w t. subst t. unfold invoke.
    destruct op; cbn; repeat answer; intros H; in_trace H;
      (split; [eexists; reflexivity|]);
      (split; [intros r Hr; in_trace Hr; reflexivity|]);
      (split; [eexists (_ :: _ :: _ :: _ :: _ :: nil); reflexivity|]);
      (split; [intros x Hx; in_trace Hx; eexists; reflexivity|]);
      (split; [intros text color Hs; in_trace Hs|reflexivity]).
  - intros c inst d c1 c2 c3. split; [destruct op; reflexivity|].
    subst c3 c2 c1.
    destruct op; cbn [react sync_button on_click];
      unfold syncPlaylists, syncMasterTracks, syncAll;
      refocus; cbn [fst in_flight take]; rewrite Nat.eqb_refl; refocus;
      repeat resume;
      cbn [fst snd fresh]; intros Hf; try (exfalso; lia);
      cbn; rewrite Nat.eqb_refl; cbn; repeat split.
  - intros ins inst i id r Hin.
    destruct (session_react_gated (fun _ => True) true (fun _ => true) gated_any
                ins inst i id r Hin I)
      as [(b & E & _)|(Hi & _)]; eauto.
Qed.


End TwoCalls.

(** ** What the dialog shows of the entries of an analysis *)

Section Payload.
Context {NT : NumberText}.

Lemma get_present v k : present v -> get v k = inr (get_opt v k).
Proof. intros [H1 H2]. destruct v; try reflexivity; contradiction. Qed.

Lemma render_rows_present (row : jsval -> jsval + list piece)
    (shown : jsval -> list piece) :
  (forall v, present v -> row v = inr (shown v)) ->
  forall l, Forall present l -> render_rows row l = inr (map shown l).
Proof.
  intros H l Hl. induction Hl as [|v l Hv _ IH]; cbn; [reflexivity|].
  rewrite (H v Hv), IH. reflexivity.
Qed.

Lemma added_row_present v :
  present v -> added_row v = inr [Interp (get_opt v "name")].
Proof. intros H. unfold added_row. rewrite (get_present v _ H). reflexivity. Qed.

Lemma updated_row_present v :
  present v ->
  updated_row v = inr [Interp (get_opt v "old_name"); Lit (" " ++ arrow ++ " ");
                       Interp (get_opt v "name")].
Proof. intros H. unfold updated_row. rewrite !(get_present v _ H). reflexivity. Qed.

Lemma format_track_line t line :
  format_track t = inr line ->
  exists artists title album,
    get t "artists" = inr artists /\ get t "title" = inr title
    /\ get t "album" = inr album
    /\ line = to_string artists ++ " - " ++ to_string title
                ++ " (" ++ to_string album ++ ")".
Proof.
  unfold format_track.
  destruct (get t "artists") as [e|artists]; [destruct (get t "title"); discriminate|].
  destruct (get t "title") as [e|title]; [discriminate|].
  destruct (get t "album") as [e|album]; [discriminate|].
  intros H. injection H as <-. do 3 eexists. repeat split.
Qed.

Lemma map_tracks_lines tracks lines :
  map_tracks tracks = inr lines ->
  Forall2 (fun t line =>
             exists artists title album,
               get t "artists" = inr artists /\ get t "title" = inr title
               /\ get t "album" = inr album
               /\ line = to_string artists ++ " - " ++ to_string title
                           ++ " (" ++ to_string album ++ ")") tracks lines.
Proof.
  revert lines. induction tracks as [|t tracks IH]; cbn; intros lines H.
  - injection H as <-. constructor.
  - destruct (format_track t) as [e|s] eqn:Ht; [discriminate|].
    destruct (map_tracks tracks) as [e|l]; [discriminate|].
    injection H as <-.
    constructor; [apply format_track_line; exact Ht|apply IH; reflexivity].
Qed.

Ltac evaluate :=
  match goal with
  | |- context [exec ?i ?p ?c0] =>
      pattern (exec i p c0);
      match goal with
      | |- ?P ?x => let x' := eval cbn in x in change (P x')
      end;
      cbv beta
  end.

(** The handler started by the click, resumed on the response. *)
Ltac settled :=
  unfold opened; cbn [session react on_click];
  unfold syncPlaylists, syncMasterTracks, syncAll;
  evaluate; cbn [fst in_flight take]; rewrite Nat.eqb_refl; evaluate; unfold read.

(** C6. What the dialog shows of the entries of an analysis, for the three
    operations that ask.  The dialog of [syncPlaylists] holds the analysis
    as its details, and its panels show the name of every playlist to add
    and, of every playlist to update, the old name, an arrow and the new
    name.  The dialog of [syncMasterTracks] holds in its details the line
    "artists - title (album)" made of every added track, and the dialog of
    [syncAll] holds those lines and the playlists of the analysis, with
    their entries to add and to update; but the card of neither has a
    panel: of the tracks and, after "Sync All", of the playlists, only the
    counts in the text are shown. *)
Theorem entries_shown_for_playlists_only :
  (forall inst d nc fields adds ups,
     get d "needs_confirmation" = inr nc -> truthy nc = true ->
     get d "analysis" = inr (JObj fields) ->
     lookup "to_add" fields = JArr adds -> Forall present adds ->
     lookup "to_update" fields = JArr ups -> Forall present ups ->
     let c := opened inst BtnSyncPlaylists d in
     show (dialog c) = true
     /\ details (dialog c) = JObj fields
     /\ exists shown,
          render (dialog c) = inr shown
          /\ playlists_to_add shown
             = panel_of "Playlists to Add (" (fun p => [Interp (get_opt p "name")]) adds
          /\ playlists_to_update shown
             = panel_of "Playlists to Update ("
                 (fun p => [Interp (get_opt p "old_name"); Lit (" " ++ arrow ++ " ");
                            Interp (get_opt p "name")]) ups)
  /\ (forall inst d nc analysis tracks lines,
        get d "needs_confirmation" = inr nc -> truthy nc = true ->
        get d "analysis" = inr analysis ->
        get analysis "added" = inr (JArr tracks) ->
        map_tracks tracks = inr lines ->
        let c := opened inst BtnSyncMasterTracks d in
        Forall2 (fun t line =>
                   exists artists title album,
                     get t "artists" = inr artists /\ get t "title" = inr title
                     /\ get t "album" = inr album
                     /\ line = to_string artists ++ " - " ++ to_string title
                                 ++ " (" ++ to_string album ++ ")") tracks lines
        /\ show (dialog c) = true
        /\ details (dialog c) = JObj [("added_tracks", JArr (map JStr lines))]
        /\ render (dialog c)
           = inr {| card_title := [Interp (JStr "Confirm Track Sync")];
                    card_text :=
                      [Interp (JStr ("Found " ++ to_string (JNum (of_nat (length lines)))
                                       ++ " tracks to add. Would you like to proceed?"))];
                    playlists_to_add := None;
                    playlists_to_update := None |})
  /\ (forall inst d nc analysis playlists tracks_part tracks lines pa pu,
        get d "needs_confirmation" = inr nc -> truthy nc = true ->
        get d "analysis" = inr analysis ->
        get analysis "tracks" = inr tracks_part ->
        get tracks_part "added" = inr (JArr tracks) ->
        map_tracks tracks = inr lines ->
        get analysis "playlists" = inr playlists ->
        get playlists "added" = inr pa ->
        get playlists "updated" = inr pu ->
        let c := opened inst BtnSyncAll d in
        show (dialog c) = true
        /\ details (dialog c)
           = JObj [("playlists", playlists);
                   ("tracks", JObj [("added_tracks", JArr (map JStr lines))])]
        /\ render (dialog c)
           = inr {| card_title := [Interp (JStr "Confirm Full Sync")];
                    card_text :=
                      [Interp (JStr ("Found " ++ to_string pa ++ " playlists to add, "
                                       ++ newline ++ "        " ++ to_string pu
                                       ++ " to update, and " ++ newline ++ "        "
                                       ++ to_string (JNum (of_nat (length lines)))
                                       ++ " tracks to add. Would you like to proceed?"))];
                    playlists_to_add := None;
                    playlists_to_update := None |}).
Proof.
  split; [|split].
  - intros inst d nc fields adds ups Hnc Ht Ha Hadd Hpa Hupd Hpu c.
    subst c. settled.
    rewrite Hnc. evaluate. rewrite Ht. evaluate. rewrite Ha. evaluate.
    cbn [fst dialog show details].
    split; [reflexivity|split; [reflexivity|]].
    unfold render, render_panel. cbn [details truthy get_opt].
    rewrite Hadd, Hupd. cbn [truthy js_length listed andb to_number].
    rewrite (render_rows_present _ _ added_row_present adds Hpa).
    rewrite (render_rows_present _ _ updated_row_present ups Hpu).
    unfold panel_of.
    destruct (gt_zero (of_nat (length adds))); destruct (gt_zero (of_nat (length ups)));
      eexists; (split; [reflexivity|split; reflexivity]).
  - intros inst d nc analysis tracks lines Hnc Ht Ha Hadd Hl c.
    split; [apply map_tracks_lines; exact Hl|].
    subst c. settled.
    rewrite Hnc. evaluate. rewrite Ht. evaluate. rewrite Ha. evaluate.
    rewrite Hadd. evaluate. unfold format_added. rewrite Hl. evaluate.
    cbn [fst dialog show details]. repeat split.
  - intros inst d nc analysis playlists tracks_part tracks lines pa pu
      Hnc Ht Ha Htp Hadd Hl Hp Hpa Hpu c.
    subst c. settled.
    rewrite Hnc. evaluate. rewrite Ht. evaluate. rewrite Ha. evaluate.
    rewrite Htp. evaluate. rewrite Hadd. evaluate.
    unfold format_added. rewrite Hl. evaluate.
    rewrite Hp. evaluate. rewrite Hpa. evaluate. rewrite Hpu. evaluate.
    cbn [fst dialog show details]. repeat split.
Qed.

End Payload.

(** ** The theorems at work *)

Lemma commit_follows_analysis_witness :
  let w := Examples.world_of Examples.one_playlist_to_add true in
  let t := invoke w (syncPlaylists (NT := decimal_integers)) in
  requests t = [Api.syncPlaylists (JBool false) (JBool false);
                Api.syncPlaylists (JBool false) (JBool true)]
  /\ exists b d title text details b',
       firstn 7 t
       = [OWrite (SetLoading LSyncPlaylists true); ORead b;
          OSend (Api.syncPlaylists (JBool b) (JBool false));
          OSettled (Resolved d);
          OOpen title text details; OAnswer true; ORead b']
       /\ truthy (get_opt d "needs_confirmation") = true
       /\ Api.syncPlaylists (JBool false) (JBool true)
          = Api.syncPlaylists (JBool b') (JBool true).
Proof.
  intros w t. split; [reflexivity|].
  exact (proj2 (proj1 (commit_follows_analysis (NT := decimal_integers))
                  w Api.SyncPlaylists)
           (firstn 7 t) (Api.syncPlaylists (JBool false) (JBool true)) (skipn 8 t)
           eq_refl eq_refl).
Defined.

Lemma declined_sync_sends_nothing_more_witness :
  let w := Examples.world_of Examples.one_playlist_to_add false in
  let t := invoke w (syncPlaylists (NT := decimal_integers)) in
  (exists b, requests t = [Api.syncPlaylists (JBool b) (JBool false)])
  /\ answers t = [false].
Proof.
  intros w t.
  assert (H : In (OAnswer false) t) by (vm_compute; tauto).
  pose proof (proj1 (declined_sync_sends_nothing_more (NT := decimal_integers)
                       Api.SyncPlaylists) w H) as (H1 & _ & _ & _ & _ & H6).
  split; [exact H1|exact H6].
Defined.


(** The same playlists, "Old" renamed "New" and "Fresh" new, after "Sync
    Playlists" and after "Sync All": the first dialog shows the pair, the
    second holds it in its details and shows no panel; nor is the line of
    the added track shown. *)
Lemma entries_shown_for_playlists_only_witness :
  let first := opened (NT := decimal_integers) InstanceWith BtnSyncPlaylists
                 Examples.playlists_to_confirm in
  let second := opened (NT := decimal_integers) InstanceWith BtnSyncAll
                  Examples.all_to_confirm in
  (exists shown,
     render (NT := decimal_integers) (dialog first) = inr shown
     /\ option_map rows (playlists_to_update shown)
        = Some [[Interp (JStr "Old"); Lit (" " ++ arrow ++ " "); Interp (JStr "New")]])
  /\ get_opt (get_opt (details (dialog second)) "playlists") "to_update"
     = JArr [JObj [("id", JStr "1"); ("old_name", JStr "Old"); ("name", JStr "New")]]
  /\ get_opt (get_opt (details (dialog second)) "tracks") "added_tracks"
     = JArr [JStr "Miles Davis - Blue in Green (Kind of Blue)"]
  /\ exists shown,
       render (NT := decimal_integers) (dialog second) = inr shown
       /\ playlists_to_add shown = None /\ playlists_to_update shown = None.
Proof.
  intros first second.
  pose proof (entries_shown_for_playlists_only (NT := decimal_integers)) as (H1 & _ & H3).
  split; [|split; [|split]].
  - destruct (H1 InstanceWith Examples.playlists_to_confirm (JBool true) _ _ _
                eq_refl eq_refl eq_refl eq_refl
                ltac:(repeat constructor; discriminate)
                eq_refl
                ltac:(repeat constructor; discriminate))
      as (_ & _ & shown & Hr & _ & Hu).
    exists shown. split; [exact Hr|]. rewrite Hu. reflexivity.
  - destruct (H3 InstanceWith Examples.all_to_confirm (JBool true) _ _ _ _ _ _ _
                eq_refl eq_refl eq_refl eq_refl eq_refl eq_refl eq_refl eq_refl eq_refl)
      as (_ & Hd & _).
    fold second in Hd. rewrite Hd. reflexivity.
  - destruct (H3 InstanceWith Examples.all_to_confirm (JBool true) _ _ _ _ _ _ _
                eq_refl eq_refl eq_refl eq_refl eq_refl eq_refl eq_refl eq_refl eq_refl)
      as (_ & Hd & _).
    fold second in Hd. rewrite Hd. reflexivity.
  - destruct (H3 InstanceWith Examples.all_to_confirm (JBool true) _ _ _ _ _ _ _
                eq_refl eq_refl eq_refl eq_refl eq_refl eq_refl eq_refl eq_refl eq_refl)
      as (_ & _ & Hr).
    eexists. split; [exact Hr|]. split; reflexivity.
Defined.

(* ===================================================================== *)
(** * Properties of the rest of the code *)
(* ===================================================================== *)

Import SyncOutcome SyncDialogs.

(** Settle a membership in a trace that is known. *)
Ltac member H :=
  cbn in H;
  repeat match type of H with
         | _ \/ _ => destruct H as [H|H]
         | False => contradiction
         end;
  try discriminate H;
  try (injection H; clear H; intros);
  subst.

(** ** How an invocation ends *)

Section Finally.
Context {NT : NumberText}.

Lemma run_nonempty w p : forall n, run w n p <> [].
Proof. destruct p; intros n; cbn; discriminate. Qed.

Lemma snoc_cons {A} (a : A) l pre x :
  l <> [] -> a :: l = (pre ++ [x])%list ->
  exists pre0, pre = a :: pre0 /\ l = (pre0 ++ [x])%list.
Proof.
  intros Hl E. destruct pre as [|b pre]; cbn in E.
  - injection E as _ E. contradiction.
  - injection E as <- E. eauto.
Qed.

(** Under [finally], an invocation that comes to its end has run the
    final assignment last. *)
Lemma finally_clears w x0 (p : prog unit) :
  forall n pre x,
    run w n (finally p (set x0)) = (pre ++ [x])%list -> ended x ->
    exists pre', pre = (pre' ++ [OWrite x0])%list.
Proof.
  assert (Hend : forall (a : obs) pre x, [a] = (pre ++ [x])%list -> a = x).
  { intros a [|b [|c pre]] x E; cbn in E; try discriminate; congruence. }
  assert (Hstep : forall a l pre x,
            l <> [] ->
            (forall pre0, l = (pre0 ++ [x])%list ->
                          exists pre', pre0 = (pre' ++ [OWrite x0])%list) ->
            a :: l = (pre ++ [x])%list ->
            exists pre', pre = (pre' ++ [OWrite x0])%list).
  { intros a l pre x Hl IH E. destruct (snoc_cons a l pre x Hl E) as (pre0 & -> & E0).
    destruct (IH pre0 E0) as [pre' ->]. exists (a :: pre'). reflexivity. }
  induction p as [a|e|y k IH|k IH|k IH|t col k IH|m k IH|r k IH|t m d k IH];
    intros n pre x E Hx; cbn in E.
  - destruct pre as [|b [|c pre]]; cbn in E; try discriminate.
    + injection E as <- _. exists []. reflexivity.
    + injection E as _ _ E. destruct pre; discriminate.
  - destruct pre as [|b [|c pre]]; cbn in E; try discriminate.
    + injection E as <- _. exists []. reflexivity.
    + injection E as _ _ E. destruct pre; discriminate.
  - apply (fun H1 H2 => Hstep _ _ _ _ H1 H2 E); [apply run_nonempty|].
    intros; eapply IH; eauto.
  - apply (fun H1 H2 => Hstep _ _ _ _ H1 H2 E); [apply run_nonempty|].
    intros; eapply IH; eauto.
  - apply (fun H1 H2 => Hstep _ _ _ _ H1 H2 E); [apply run_nonempty|].
    intros; eapply IH; eauto.
  - apply (fun H1 H2 => Hstep _ _ _ _ H1 H2 E); [apply run_nonempty|].
    intros; eapply IH; eauto.
  - apply (fun H1 H2 => Hstep _ _ _ _ H1 H2 E); [apply run_nonempty|].
    intros; eapply IH; eauto.
  - destruct (server w n r) as [res|].
    + apply (fun H1 H2 => Hstep _ _ _ _ H1 H2 E); [discriminate|]. intros pre0 E0.
      apply (fun H1 H2 => Hstep _ _ _ _ H1 H2 E0); [apply run_nonempty|].
      intros; eapply IH; eauto.
    + apply Hend in E. subst x. destruct Hx as [Hx|[e Hx]]; discriminate.
  - destruct (user w n) as [b|].
    + apply (fun H1 H2 => Hstep _ _ _ _ H1 H2 E); [discriminate|]. intros pre0 E0.
      apply (fun H1 H2 => Hstep _ _ _ _ H1 H2 E0); [apply run_nonempty|].
      intros; eapply IH; eauto.
    + apply Hend in E. subst x. destruct Hx as [Hx|[e Hx]]; discriminate.
Qed.

(** When every promise settles, an invocation comes to its end. *)
Lemma run_ends w (p : prog unit) :
  (forall n r, server w n r <> None) -> (forall n, user w n <> None) ->
  forall n, exists pre x, run w n p = (pre ++ [x])%list /\ ended x.
Proof.
  intros Hs Hu.
  induction p as [a|e|y k IH|k IH|k IH|t col k IH|m k IH|r k IH|t m d k IH];
    intros n; cbn.
  - exists [], OReturn. split; [reflexivity|left; reflexivity].
  - exists [], (OUncaught e). split; [reflexivity|right; eexists; reflexivity].
  - destruct (IH (S n)) as (pre & x & -> & Hx).
    eexists (_ :: pre), x. split; [reflexivity|exact Hx].
  - destruct (IH (checkbox w n) (S n)) as (pre & x & -> & Hx).
    eexists (_ :: pre), x. split; [reflexivity|exact Hx].
  - destruct (IH (instance_at w n) (S n)) as (pre & x & -> & Hx).
    eexists (_ :: pre), x. split; [reflexivity|exact Hx].
  - destruct (IH (S n)) as (pre & x & -> & Hx).
    eexists (_ :: pre), x. split; [reflexivity|exact Hx].
  - destruct (IH (S n)) as (pre & x & -> & Hx).
    eexists (_ :: pre), x. split; [reflexivity|exact Hx].
  - destruct (server w n r) as [res|] eqn:E; [|destruct (Hs _ _ E)].
    destruct (IH res (S (S n))) as (pre & x & -> & Hx).
    eexists (_ :: _ :: pre), x. split; [reflexivity|exact Hx].
  - destruct (user w n) as [b|] eqn:E; [|destruct (Hu _ E)].
    destruct (IH b (S (S n))) as (pre & x & -> & Hx).
    eexists (_ :: _ :: pre), x. split; [reflexivity|exact Hx].
Qed.

(** X1. Each of the seven handlers of [SyncView.vue] that set a loading
    flag clears it as the last thing it does: in every invocation that comes
    to its end, by returning or by letting an exception out, the last
    assignment is that of [false] to the flag of the handler, whatever the
    server and the user answered and whatever was thrown on the way; and an
    invocation comes to its end as soon as every request it awaits settles
    and every dialog it opens is answered. *)
Theorem loading_flag_cleared (w : world) (p : prog unit) (flag : loading_key) :
  In (p, flag) [(syncPlaylists, LSyncPlaylists); (syncMasterTracks, LSyncTracks);
                (syncAll, LSyncAll); (clearDatabase, LClearDb);
                (syncToMaster, LSyncMaster); (syncUnplaylisted, LSyncUnplaylisted);
                (clearCache, LClearCache)] ->
  (forall pre x, invoke w p = (pre ++ [x])%list -> ended x ->
     exists pre', pre = (pre' ++ [OWrite (SetLoading flag false)])%list)
  /\ ((forall n r, server w n r <> None) -> (forall n, user w n <> None) ->
      exists pre x, invoke w p = (pre ++ [x])%list /\ ended x).
Proof.
  intros Hin. split; [|intros Hs Hu; apply run_ends; assumption].
  intros pre x E Hx. unfold invoke in E.
  assert (Hgen : forall n (q : prog unit) pre,
            run w n (finally q (set (SetLoading flag false))) = (pre ++ [x])%list ->
            exists pre', pre = (pre' ++ [OWrite (SetLoading flag false)])%list)
    by (intros; eapply finally_clears; eauto).
  assert (Hcons : forall a n (q : prog unit) pre,
            a :: run w n (finally q (set (SetLoading flag false))) = (pre ++ [x])%list ->
            exists pre', pre = (pre' ++ [OWrite (SetLoading flag false)])%list).
  { intros a n q pre1 E1.
    destruct (snoc_cons _ _ _ _ (run_nonempty _ _ _) E1) as (pre0 & -> & E0).
    destruct (Hgen _ _ _ E0) as [pre' ->]. exists (a :: pre'). reflexivity. }
  cbn [In] in Hin.
  repeat (destruct Hin as [Hin|Hin]; [injection Hin as <- <-|]); try contradiction;
    unfold syncPlaylists, syncMasterTracks, syncAll, clearDatabase, syncToMaster,
      syncUnplaylisted, clearCache, simple_operation in E;
    cbn [bind set run] in E.
  1-3,5-7: exact (Hcons _ _ _ _ E).
  destruct (snoc_cons _ _ _ _ (fun E' => nil_cons (eq_sym E')) E) as (pre0 & -> & E0).
  destruct (Hcons _ _ _ _ E0) as [pre' ->]. eexists (_ :: pre'). reflexivity.
Qed.

(** X2. The three sync handlers swallow every failure.  Whatever the
    server answers, an invocation of [syncPlaylists], [syncMasterTracks] or
    [syncAll] lets no exception out; what it assigns to [lastOperation] is
    always a success, and the snackbars it shows are all of the colour
    "success"; and when one of its requests is rejected, it records
    nothing, shows nothing, clears its loading flag and returns: the failure
    leaves no trace for the user. *)
Theorem sync_failures_are_silent (w : world) (op : Api.sync_op) :
  let t := invoke w (sync_handler op) in
  (forall e, ~ In (OUncaught e) t)
  /\ (forall v, In v (recorded t) -> get_opt v "success" = JBool true)
  /\ (forall text color, In (text, color) (snackbars t) -> color = "success")
  /\ (forall e, In (OSettled (Rejected e)) t ->
      recorded t = [] /\ snackbars t = []
      /\ exists pre, t = (pre ++ [OSettled (Rejected e);
                                  OWrite (SetLoading (sync_flag op) false);
                                  OReturn])%list).
Proof.
  intros t. subst t. unfold invoke.
  destruct op; cbn; repeat answer;
    (split; [intros e0 H; member H|]);
    (split; [intros v H; member H; reflexivity|]);
    (split; [intros text color H; member H; reflexivity|]);
    intros e0 H; member H;
    (split; [reflexivity|split; [reflexivity|]]);
    first [ eexists (_ :: _ :: _ :: nil); reflexivity
          | eexists (_ :: _ :: _ :: _ :: _ :: _ :: _ :: _ :: nil); reflexivity ].
Qed.

End Finally.

Lemma loading_flag_cleared_witness :
  let w := Examples.world_of Examples.one_playlist_to_add true in
  exists pre x, invoke w syncToMaster = (pre ++ [x])%list /\ ended x.
Proof.
  intros w.
  apply (proj2 (loading_flag_cleared (NT := decimal_integers) w syncToMaster LSyncMaster
                  (or_intror (or_intror (or_intror (or_intror (or_introl eq_refl))))))).
  - intros n r. discriminate.
  - intros n. discriminate.
Defined.

Lemma sync_failures_are_silent_witness :
  recorded (invoke Scenarios.world_offline (syncPlaylists (NT := decimal_integers))) = []
  /\ snackbars (invoke Scenarios.world_offline (syncPlaylists (NT := decimal_integers))) = [].
Proof.
  destruct (proj2 (proj2 (proj2 (sync_failures_are_silent (NT := decimal_integers)
                                   Scenarios.world_offline Api.SyncPlaylists)))
              Scenarios.network_error) as (H1 & H2 & _).
  - vm_compute. tauto.
  - split; [exact H1|exact H2].
Defined.

(** ** What a handler of one request records *)

Section Outcome.
Context {NT : NumberText}.

(** The text that the handlers of one request record for an error:
    that of the server when the response has a truthy one, else the
    message of the error. *)
Lemma error_text_cases (error : jsval) :
  match error with
  | JUndef | JNull => exists e, error_text error = Throw e
  | _ =>
      error_text error
      = Ret (if truthy (get_opt (get_opt (get_opt error "response") "data") "error")
             then get_opt (get_opt (get_opt error "response") "data") "error"
             else get_opt error "message")
  end.
Proof.
  destruct error; unfold error_text; cbn; try (eexists; reflexivity); try reflexivity.
  destruct (truthy _); reflexivity.
Qed.

Lemma error_text_ends (error : jsval) :
  (exists msg, error_text error = Ret msg) \/ (exists x, error_text error = Throw x).
Proof.
  pose proof (error_text_cases error) as H.
  destruct error; try (left; eexists; exact H); right; exact H.
Qed.

Ltac instance :=
  match goal with
  | |- context [match instance_at ?w ?n with _ => _ end] =>
      destruct (instance_at w n) eqn:?
  end; cbn.

Ltac same_text :=
  repeat match goal with
         | H1 : error_text ?e = _, H2 : error_text ?e = _ |- _ =>
             rewrite H1 in H2; first [discriminate H2 | injection H2 as <- | clear H2]
         end.

Ltac outcome :=
  repeat match goal with
         | |- _ /\ _ => split
         | |- forall _, _ => intro
         | H : ~ _ |- _ => clear H
         | H : False |- _ => contradiction H
         | H : In _ _ |- _ => member H
         | H : _ \/ _ |- _ => member H
         end;
  same_text; try reflexivity;
  try first [ eexists (_ :: _ :: _ :: nil); reflexivity
            | eexists (_ :: _ :: _ :: _ :: nil); reflexivity
            | eexists (_ :: _ :: _ :: _ :: _ :: nil); reflexivity
            | eexists (_ :: _ :: _ :: _ :: _ :: _ :: nil); reflexivity
            | eexists (_ :: _ :: _ :: _ :: _ :: _ :: _ :: nil); reflexivity
            | eexists (_ :: _ :: _ :: _ :: _ :: _ :: _ :: _ :: nil); reflexivity
            | eexists (_ :: _ :: _ :: nil), _; reflexivity
            | eexists (_ :: _ :: _ :: _ :: nil), _; reflexivity
            | eexists (_ :: _ :: _ :: _ :: _ :: nil), _; reflexivity
            | eexists (_ :: _ :: _ :: _ :: _ :: _ :: nil), _; reflexivity ].

(** X3. What [clearDatabase], [syncToMaster], [syncUnplaylisted] and
    [clearCache] record, in an invocation in which [getCurrentInstance()]
    gives an instance whenever it is called.  When the request is fulfilled,
    [lastOperation] is assigned once, [{type, success: true}], the only
    snackbar is the one of success, and the handler clears its flag and
    returns.  When it is rejected with an error that is not [null] or
    [undefined], [lastOperation] is assigned once, [{type, success: false,
    error}], where [error] is [error.response.data.error] when that is there
    and truthy and [error.message] otherwise, and the only snackbar is the
    one of failure.  When it is rejected with [null] or [undefined], reading
    the error throws inside the [catch]: nothing is recorded or shown, the
    flag is cleared and the exception leaves the handler. *)
Theorem simple_operation_records_outcome (w : world) (n : nat) (flag : loading_key)
    (r : Api.request) (type ok failed : string) :
  let t := run w n (simple_operation flag r type ok failed) in
  ~ In (OInstance NoInstance) t ->
  (forall d, In (OSettled (Resolved d)) t ->
     recorded t = [last_operation type true []]
     /\ (forall s, In s (snackbars t) -> s = (ok, "success"))
     /\ exists pre, t = (pre ++ [OWrite (SetLoading flag false); OReturn])%list)
  /\ (forall e, In (OSettled (Rejected e)) t -> e <> JUndef -> e <> JNull ->
      let server_error := get_opt (get_opt (get_opt e "response") "data") "error" in
      recorded t
        = [last_operation type false
             [("error", if truthy server_error then server_error
                        else get_opt e "message")]]
      /\ (forall s, In s (snackbars t) -> s = (failed, "error"))
      /\ exists pre, t = (pre ++ [OWrite (SetLoading flag false); OReturn])%list)
  /\ (forall e, In (OSettled (Rejected e)) t -> e = JUndef \/ e = JNull ->
      recorded t = [] /\ snackbars t = []
      /\ exists pre x, t = (pre ++ [OWrite (SetLoading flag false); OUncaught x])%list).
Proof.
  intros t. subst t. unfold simple_operation. cbn -[error_text].
  destruct (server w (S n) r) as [[d|e]|] eqn:Hs; cbn -[error_text].
  - destruct (instance_at w _) eqn:Hi; cbn -[error_text].
    + intros Hno. exfalso. apply Hno. auto 10.
    + intros Hno. outcome.
    + intros Hno. outcome.
  - pose proof (error_text_cases e) as He.
    assert (Hcase : (e = JUndef \/ e = JNull) \/ (e <> JUndef /\ e <> JNull))
      by (destruct e; auto; right; split; discriminate).
    destruct Hcase as [Hcase|[Hu Hn]].
    + assert (He' : exists x, error_text e = Throw x) by (destruct Hcase; subst e; exact He).
      destruct He' as [x Hx]. rewrite Hx. cbn. intros Hno.
      split; [outcome|split; [|outcome]].
      intros e0 H. member H. destruct Hcase; contradiction.
    + assert (He' : error_text e
                    = Ret (if truthy (get_opt (get_opt (get_opt e "response") "data") "error")
                           then get_opt (get_opt (get_opt e "response") "data") "error"
                           else get_opt e "message"))
        by (destruct e; first [exact He | contradiction Hu; reflexivity
                              | contradiction Hn; reflexivity]).
      rewrite He'. cbn.
      destruct (instance_at w _) eqn:Hi; cbn.
      * intros Hno. exfalso. apply Hno. auto 10.
      * intros Hno. split; [outcome|split; [outcome|]].
        intros e0 H [->| ->]; member H; congruence.
      * intros Hno. split; [outcome|split; [outcome|]].
        intros e0 H [->| ->]; member H; congruence.
  - intros Hno. outcome.
Qed.

(** X4. Where [getCurrentInstance()] gives nothing, [showSnackbar] throws,
    and in the handlers of one request it is called inside the [try] after
    the success has been recorded.  So in an invocation in which the request
    is fulfilled and a look-up of the instance gives nothing, [lastOperation]
    is assigned twice, first the success and then, from the [catch], a
    failure whose error is the message of that exception: the operation that
    succeeded ends up recorded as failed, and no snackbar but one of failure
    can show.  In an invocation in which the request is rejected and a
    look-up gives nothing, no snackbar shows and the exception leaves the
    handler, after the flag has been cleared. *)
Theorem snackbar_failure_overturns_success (w : world) (n : nat) (flag : loading_key)
    (r : Api.request) (type ok failed : string) :
  let t := run w n (simple_operation flag r type ok failed) in
  In (OInstance NoInstance) t ->
  (forall d, In (OSettled (Resolved d)) t ->
     (exists msg,
        recorded t = [last_operation type true [];
                      last_operation type false [("error", msg)]])
     /\ (forall s, In s (snackbars t) -> s = (failed, "error")))
  /\ (forall e, In (OSettled (Rejected e)) t ->
      snackbars t = []
      /\ exists pre x, t = (pre ++ [OWrite (SetLoading flag false); OUncaught x])%list).
Proof.
  intros t. subst t. unfold simple_operation. cbn -[error_text].
  destruct (server w (S n) r) as [[d|e]|] eqn:Hs; cbn -[error_text].
  - instance.
    + instance; intros _;
        (split; [intros d0 _; split; [eexists; reflexivity|]
                |intros e0 H; member H]);
        intros s H; member H; reflexivity.
    + intros H; member H.
    + intros H; member H.
  - destruct (error_text_ends e) as [[msg He]|[x He]]; rewrite He; cbn.
    + instance; intros Hin; member Hin.
      split; [intros d0 H; member H|]. intros e0 _. split; [reflexivity|].
      eexists (_ :: _ :: _ :: _ :: _ :: nil), _; reflexivity.
    + intros H; member H.
  - intros H; member H.
Qed.

End Outcome.

Lemma simple_operation_records_outcome_witness :
  let t := run Scenarios.world_offline 0
             (simple_operation LClearCache Api.clearCache "Clear Cache"
                "Spotify API cache cleared successfully" "Failed to clear cache") in
  recorded t = [last_operation "Clear Cache" false [("error", JStr "Network Error")]]
  /\ snackbars t = [("Failed to clear cache", "error")].
Proof.
  intros t.
  assert (Hno : ~ In (OInstance NoInstance) t)
    by (vm_compute; intros H; repeat (destruct H as [H|H]; [discriminate H|]); exact H).
  destruct (proj1 (proj2 (simple_operation_records_outcome Scenarios.world_offline 0
                            LClearCache Api.clearCache "Clear Cache"
                            "Spotify API cache cleared successfully"
                            "Failed to clear cache" Hno))
              Scenarios.network_error) as (H1 & _ & _).
  - vm_compute. tauto.
  - discriminate.
  - discriminate.
  - split; [exact H1|reflexivity].
Defined.

Lemma snackbar_failure_overturns_success_witness :
  let t := run Scenarios.world_without_instance 0
             (simple_operation LClearCache Api.clearCache "Clear Cache"
                "Spotify API cache cleared successfully" "Failed to clear cache") in
  exists msg,
    recorded t = [last_operation "Clear Cache" true [];
                  last_operation "Clear Cache" false [("error", msg)]].
Proof.
  intros t.
  assert (Hin : In (OInstance NoInstance) t) by (vm_compute; tauto).
  assert (Hd : In (OSettled (Resolved JNull)) t) by (vm_compute; tauto).
  exact (proj1 (proj1 (snackbar_failure_overturns_success Scenarios.world_without_instance 0
                         LClearCache Api.clearCache "Clear Cache"
                         "Spotify API cache cleared successfully"
                         "Failed to clear cache" Hin) JNull Hd)).
Defined.

(** ** What the Confirm button sends *)

Section Titles.
Context {NT : NumberText}.

Ltac walk :=
  repeat first
    [ exact I
    | match goal with
      | |- _ /\ _ => split
      | |- confirms _ _ =>
          first [ exists Api.SyncPlaylists; split; [reflexivity|intros; reflexivity]
                | exists Api.SyncTracks; split; [reflexivity|intros; reflexivity]
                | exists Api.SyncAll; split; [reflexivity|intros; reflexivity] ]
      | |- declines _ => intros ? ?; reflexivity
      | |- context [read ?v ?k] => unfold read; destruct (get v k)
      | |- context [match get ?v ?k with _ => _ end] => destruct (get v k)
      | |- context [if truthy ?v then _ else _] => destruct (truthy v)
      | |- context [format_added ?v] =>
          let H := fresh "Hfmt" in
          destruct (format_added_cases v) as [[? H]|[? H]]; rewrite H
      | |- forall _ : bool, _ => intros []
      | |- forall _ : current_instance, _ => intros []
      | |- forall _ : http_result, _ => intros []
      end
    | progress cbn ].

Lemma titled_on_click b : titled (on_click b).
Proof.
  destruct b; cbn [on_click];
    unfold syncPlaylists, syncMasterTracks, syncAll, confirmClearDatabase,
      syncToMaster, syncUnplaylisted, clearCache, simple_operation, error_text.
  all: walk.
  all: unfold dialog_ok; cbn; repeat split; intros; try discriminate; auto.
Qed.

Lemma titled_clearDatabase : titled clearDatabase.
Proof. unfold clearDatabase, simple_operation, error_text. walk. Qed.

Lemma exec_faithful inst (p : prog unit) :
  forall c, titled p -> faithful c -> faithful (fst (exec inst p c)).
Proof.
  induction p as [a|e|x k IH|k IH|k IH|t col k IH|m k IH|r k IH|t m d k IH];
    cbn [titled exec]; intros c Hp Hc.
  - exact Hc.
  - exact Hc.
  - destruct Hp as [Hx Hk]. apply IH; [exact Hk|].
    destruct Hc as (C1 & C2 & C3 & C4).
    destruct x; cbn; unfold faithful; cbn; auto.
    destruct Hx as [Hd Ha]. split; [exact Hd|split; [exact C2|split; [exact C3|]]].
    intros q E. congruence.
  - apply IH; auto.
  - apply IH; auto.
  - specialize (IH c Hp Hc). destruct (exec inst k c); exact IH.
  - specialize (IH c Hp Hc). destruct (exec inst k c); exact IH.
  - destruct Hc as (C1 & C2 & C3 & C4). unfold faithful; cbn.
    split; [exact C1|split; [constructor; [exact Hp|exact C2]|split; [|exact C4]]].
    eapply Forall_impl; [|exact C3]. cbn. intros e (H1 & H2). split; [lia|exact H2].
  - destruct Hp as (Hc1 & Hd & Ht & Hf). destruct Hc as (C1 & C2 & C3 & C4).
    unfold faithful; cbn. split; [|split; [exact C2|split]].
    + unfold dialog_ok; cbn. repeat split; try discriminate.
      * intros p b E. injection E as _ <-. reflexivity.
      * intros f E. injection E as <-. eexists; reflexivity.
    + constructor; [cbn; auto|].
      eapply Forall_impl; [|exact C3]. cbn. intros e (H1 & H2). split; [lia|exact H2].
    + intros q E. injection E as <-. constructor; [cbn; auto|].
      eapply Forall_impl; [|exact C3]. cbn. intros e (H1 & _) E. lia.
Qed.

Lemma call_faithful inst f c : faithful c -> faithful (fst (call inst f c)).
Proof.
  intros Hc. destruct f as [|p b]; cbn [call].
  - apply exec_faithful; [apply titled_clearDatabase|exact Hc].
  - destruct (take p (confirming (apply_write (SetDialogShow false) c)))
      as [[k rest]|] eqn:Et; [|exact Hc].
    destruct Hc as (C1 & C2 & C3 & C4). cbn in Et.
    destruct (take_Forall _ _ _ _ _ C3 Et) as [(_ & _ & Hkt & Hkf) Hrest].
    apply exec_faithful; [destruct b; assumption|].
    unfold faithful; cbn. split; [exact C1|split; [exact C2|split; [exact Hrest|]]].
    intros q E. exact (proj2 (take_Forall _ _ _ _ _ (C4 q E) Et)).
Qed.

Lemma react_faithful inst i c : faithful c -> faithful (fst (react inst i c)).
Proof.
  intros Hc. destruct i as [b|b| | | |id res]; cbn [react].
  - apply exec_faithful; [apply titled_on_click|exact Hc].
  - exact Hc.
  - destruct (show (dialog c)); [|exact Hc].
    destruct (action (dialog c)); [apply call_faithful|]; exact Hc.
  - destruct (show (dialog c)); [|exact Hc].
    destruct (cancel (dialog c)); [apply call_faithful|]; exact Hc.
  - destruct (show (dialog c)); exact Hc.
  - destruct (take id (in_flight c)) as [[k rest]|] eqn:Et; [|exact Hc].
    destruct Hc as (C1 & C2 & C3 & C4).
    destruct (take_Forall _ _ _ _ _ C2 Et) as [Hk Hrest].
    apply exec_faithful; [apply Hk|]. unfold faithful; cbn. auto.
Qed.

Lemma session_faithful ins : forall c, faithful c -> faithful (fst (session ins c)).
Proof.
  induction ins as [|[inst i] ins IH]; intros c Hc; cbn [session]; [exact Hc|].
  pose proof (react_faithful inst i c Hc) as H1.
  destruct (react inst i c) as [c1 evs]; cbn [fst] in H1.
  specialize (IH c1 H1). destruct (session ins c1); exact IH.
Qed.

Lemma initial_faithful : faithful initial.
Proof.
  unfold faithful, dialog_ok; cbn. repeat split; auto; discriminate.
Qed.

(** X5. In any session of the component, whatever was clicked, ticked,
    answered and settled before and in whatever order, a request that
    leaves in the reaction to the Confirm button is the one request of that
    reaction, the dialog is shown, and the request is the one the title of
    the dialog names: under "Clear Database" the post to [/db/clear]; under
    "Confirm Playlist Sync", "Confirm Track Sync" or "Confirm Full Sync" the
    call of that operation with [confirm: true] and with [force_refresh] as
    the checkbox stands at that moment.  A dialog that another handler has
    replaced in the meantime is never confirmed by mistake. *)
Theorem confirm_sends_what_the_dialog_names
    (ins : list (current_instance * input)) (inst : current_instance) :
  let c := fst (session ins initial) in
  forall id r,
    In (Sent id r) (snd (react inst DialogConfirm c)) ->
    show (dialog c) = true
    /\ sent_in (snd (react inst DialogConfirm c)) = [r]
    /\ ((title (dialog c) = "Clear Database" /\ r = Api.clearDatabase)
        \/ exists op, title (dialog c) = sync_title op
                      /\ r = Api.sync op (JBool (forceRefresh c)) (JBool true)).
Proof.
  intros c id r.
  pose proof (session_faithful ins initial initial_faithful) as Hc. fold c in Hc.
  cbn [react].
  destruct (show (dialog c)) eqn:Hshow; [|intros []].
  destruct (action (dialog c)) as [[|p b]|] eqn:Hact; [| |intros []].
  - cbn. intros [E|[]]. injection E as _ <-.
    split; [reflexivity|split; [reflexivity|left]].
    split; [|reflexivity]. apply Hc, Hact.
  - destruct Hc as (C1 & C2 & C3 & C4).
    assert (b = true) by (eapply C1; eauto). subst b.
    cbn [call].
    destruct (take p (confirming (apply_write (SetDialogShow false) c)))
      as [[k rest]|] eqn:Et; [|intros []].
    cbn in Et.
    destruct (take_Forall _ _ _ _ _ (C4 p Hact) Et) as [Hk _].
    destruct (Hk eq_refl) as (op & Ht & Hsend). cbn [snd] in Hsend.
    rewrite Hsend. cbn. intros [E|[]]. injection E as _ <-.
    split; [reflexivity|split; [reflexivity|right]].
    exists op. split; [exact Ht|reflexivity].
Qed.

(** X6. The dialogs of [syncMasterTracks] and [syncAll] show their title
    and their text and nothing else.  The details that these handlers pass
    to [confirmDialog] hold the formatted lines of the added tracks, under
    [added_tracks] and under [tracks.added_tracks], but neither [to_add] nor
    [to_update], the only properties the template renders: whatever the
    server answered, a dialog with these details renders without a panel, so
    the list of tracks is never shown. *)
Theorem track_details_are_never_shown (w : world) (p : prog unit)
    (title text : string) (details : jsval) :
  p = syncMasterTracks \/ p = syncAll ->
  In (OOpen title text details) (invoke w p) ->
  (exists lines, get_opt details "added_tracks" = JArr (map JStr lines)
                 \/ get_opt (get_opt details "tracks") "added_tracks" = JArr (map JStr lines))
  /\ forall box, SyncView.details box = details ->
       render box = inr {| card_title := [Interp (JStr (SyncView.title box))];
                           card_text := [Interp (JStr (SyncView.text box))];
                           playlists_to_add := None;
                           playlists_to_update := None |}.
Proof.
  intros [-> | ->]; unfold invoke; cbn; repeat answer; intros H; member H;
    (split; [eexists; first [left; reflexivity | right; reflexivity]|]);
    intros box Hb; unfold render, render_panel; rewrite Hb; reflexivity.
Qed.

End Titles.

Lemma confirm_sends_what_the_dialog_names_witness :
  let c := fst (session (NT := decimal_integers)
                  [(InstanceWith, Click BtnSyncPlaylists);
                   (InstanceWith, Settle 0 (Resolved Examples.one_playlist_to_add))]
                  initial) in
  title (dialog c) = "Confirm Playlist Sync"
  /\ sent_in (snd (react (NT := decimal_integers) InstanceWith DialogConfirm c))
     = [Api.syncPlaylists (JBool false) (JBool true)].
Proof.
  intros c.
  destruct (confirm_sends_what_the_dialog_names (NT := decimal_integers)
              [(InstanceWith, Click BtnSyncPlaylists);
               (InstanceWith, Settle 0 (Resolved Examples.one_playlist_to_add))]
              InstanceWith 2 (Api.syncPlaylists (JBool false) (JBool true))
              (or_introl eq_refl)) as (_ & H & _).
  split; [reflexivity|exact H].
Defined.

Lemma track_details_are_never_shown_witness :
  let w := Examples.world_of Examples.one_of_each_to_add true in
  exists title text details,
    In (OOpen title text details) (invoke w (syncAll (NT := decimal_integers)))
    /\ render (NT := decimal_integers)
         {| show := true; title := title; text := text; details := details;
            action := None; cancel := None |}
       = inr {| card_title := [Interp (JStr title)];
                card_text := [Interp (JStr text)];
                playlists_to_add := None;
                playlists_to_update := None |}.
Proof.
  intros w.
  assert (H : exists title text details,
            In (OOpen title text details) (invoke w (syncAll (NT := decimal_integers))))
    by (do 3 eexists; vm_compute; do 4 right; left; reflexivity).
  destruct H as (title & text & details & H).
  exists title, text, details. split; [exact H|].
  exact (proj2 (track_details_are_never_shown (NT := decimal_integers) w syncAll
                  title text details (or_intror eq_refl) H)
           {| show := true; title := title; text := text; details := details;
              action := None; cancel := None |} eq_refl).
Defined.

(** ** Labels *)

Section LabelFacts.
Import JsString Validation.
Context {CM : CaseMapping}.

Lemma append_assoc (a b c : string) : (a ++ b) ++ c = a ++ (b ++ c).
Proof. induction a as [|x a IH]; cbn; [reflexivity|]. rewrite IH. reflexivity. Qed.

Lemma split_nonempty sep s : split sep s <> [].
Proof.
  destruct s as [|c s]; cbn; [discriminate|].
  destruct (Ascii.eqb c sep); [discriminate|].
  destruct (split sep s); discriminate.
Qed.

Lemma split_app sep a b :
  split sep (a ++ String sep b) = (split sep a ++ split sep b)%list.
Proof.
  induction a as [|c a IH]; cbn.
  - rewrite Ascii.eqb_refl. reflexivity.
  - destruct (Ascii.eqb c sep); rewrite IH; [reflexivity|].
    pose proof (split_nonempty sep a) as Hne.
    destruct (split sep a) as [|w ws]; [contradiction|reflexivity].
Qed.

Lemma join_app sep l1 l2 :
  l1 <> [] -> l2 <> [] ->
  join sep (l1 ++ l2) = join sep l1 ++ sep ++ join sep l2.
Proof.
  intros H1 H2. induction l1 as [|x l1 IH]; [contradiction|].
  destruct l1 as [|y l1].
  - cbn. destruct l2; [contradiction|reflexivity].
  - change (join sep ((x :: y :: l1) ++ l2)) with (x ++ sep ++ join sep ((y :: l1) ++ l2)).
    rewrite IH by discriminate.
    change (join sep (x :: y :: l1)) with (x ++ sep ++ join sep (y :: l1)).
    rewrite !append_assoc. reflexivity.
Qed.

Lemma map_nonempty {A B} (f : A -> B) l : l <> [] -> map f l <> [].
Proof. destruct l; [contradiction|discriminate]. Qed.

(** X7. [formatLabel] works word by word: the label of [a_b] is the label
    of [a], a space, and the label of [b], for any two strings, and the label
    of a key without underscore is the key with its first character put to
    upper case.  A key that is no string, as the index of an array is, has no
    [split]: formatting it throws.  [formatDirName] and [formatStatName] of
    [FileOperationsView.vue] are the same function. *)
Theorem formatLabel_distributes (a b : string) :
  (forall key, FileOperationsView.formatDirName key = formatLabel key
               /\ FileOperationsView.formatStatName key = formatLabel key)
  /\ (forall key, (forall s, key <> JStr s) -> exists e, formatLabel key = inl e)
  /\ exists la lb,
       formatLabel (JStr a) = inr la /\ formatLabel (JStr b) = inr lb
       /\ formatLabel (JStr (a ++ "_" ++ b)) = inr (la ++ " " ++ lb)
       /\ (occurrences "_" a = 0 -> la = capitalize a).
Proof.
  split; [intros key; split; reflexivity|split].
  { intros key Hk. destruct key; try (eexists; reflexivity). destruct (Hk s eq_refl). }
  do 2 eexists. split; [reflexivity|split; [reflexivity|split]].
  - cbn [formatLabel]. f_equal.
    change ("_" ++ b) with (String "_" b).
    rewrite split_app, map_app, join_app; auto using map_nonempty, split_nonempty.
  - intros H.
    assert (Hs : split "_" a = [a]).
    { clear -H. induction a as [|c a IH]; cbn in *; [reflexivity|].
      destruct (Ascii.eqb c "_"); [discriminate|]. rewrite IH by exact H. reflexivity. }
    rewrite Hs. reflexivity.
Qed.

Lemma length_append (a b : string) :
  String.length (a ++ b) = String.length a + String.length b.
Proof. induction a as [|x a IH]; cbn; [reflexivity|]. rewrite IH. reflexivity. Qed.

Lemma occurrences_append c (a b : string) :
  occurrences c (a ++ b) = occurrences c a + occurrences c b.
Proof. induction a as [|x a IH]; cbn; [reflexivity|]. rewrite IH. lia. Qed.

Lemma toUpperCase_facts (c : ascii) :
  is_ascii c = true ->
  is_ascii (toUpperCase c) = true
  /\ toUpperCase (toUpperCase c) = toUpperCase c
  /\ Ascii.eqb (toUpperCase c) "_" = Ascii.eqb c "_"
  /\ Ascii.eqb (toUpperCase c) " " = Ascii.eqb c " ".
Proof.
  destruct c as [[] [] [] [] [] [] [] []]; intros H; try discriminate H;
    vm_compute; repeat split.
Qed.

(** The words of a string hold no separator, and joined by it they make
    the string again. *)
Lemma split_join sep s :
  join (String sep "") (split sep s) = s
  /\ Forall (fun w => occurrences sep w = 0) (split sep s)
  /\ List.length (split sep s) = S (occurrences sep s).
Proof.
  induction s as [|c s (IH1 & IH2 & IH3)]; cbn.
  - repeat split. constructor; [reflexivity|constructor].
  - destruct (Ascii.eqb c sep) eqn:E.
    + apply Ascii.eqb_eq in E. subst c.
      pose proof (split_nonempty sep s) as Hne.
      destruct (split sep s) as [|w ws]; [contradiction|].
      cbn [join]. cbn [join] in IH1. split; [|split].
      * cbn. f_equal. exact IH1.
      * constructor; [reflexivity|exact IH2].
      * cbn [List.length] in *. lia.
    + pose proof (split_nonempty sep s) as Hne.
      destruct (split sep s) as [|w ws]; [contradiction|].
      split; [|split].
      * rewrite <- IH1. destruct ws; reflexivity.
      * inversion IH2; subst. constructor; [cbn; rewrite E; assumption|assumption].
      * cbn [List.length] in *. lia.
Qed.

Lemma capitalize_ascii (w : string) :
  ascii_initial w = true ->
  String.length (capitalize w) = String.length w
  /\ occurrences "_" (capitalize w) = occurrences "_" w
  /\ occurrences " " (capitalize w) = occurrences " " w
  /\ ascii_initial (capitalize w) = true
  /\ capitalize (capitalize w) = capitalize w.
Proof.
  destruct w as [|c w]; [repeat split|].
  cbn [ascii_initial capitalize]. intros H. rewrite H.
  destruct (toUpperCase_facts c H) as (H1 & H2 & H3 & H4).
  cbn [String.length occurrences ascii_initial capitalize].
  rewrite H1, H2, H3, H4. repeat split.
Qed.

Lemma join_facts (sep : ascii) (ws : list string) :
  ws <> [] ->
  String.length (join (String sep "") ws)
    = list_sum (map String.length ws) + (List.length ws - 1)
  /\ forall c, occurrences c (join (String sep "") ws)
              = list_sum (map (occurrences c) ws)
                + (if Ascii.eqb sep c then List.length ws - 1 else 0).
Proof.
  induction ws as [|w ws IH]; [contradiction|]. intros _.
  destruct ws as [|w' ws].
  - cbn. split; [lia|]. intros c. destruct (Ascii.eqb sep c); lia.
  - destruct (IH ltac:(discriminate)) as [IH1 IH2].
    change (join (String sep "") (w :: w' :: ws))
      with (w ++ String sep (join (String sep "") (w' :: ws))).
    split.
    + rewrite length_append. cbn [String.length]. rewrite IH1. cbn. lia.
    + intros c. rewrite occurrences_append. cbn [occurrences]. rewrite IH2. cbn.
      destruct (Ascii.eqb sep c); lia.
Qed.

Lemma toUpperCase_space (c : ascii) :
  Ascii.eqb (toUpperCase c) " " = Ascii.eqb c " ".
Proof. destruct c as [[] [] [] [] [] [] [] []]; vm_compute; reflexivity. Qed.

Lemma join_cons_char (sep : string) c w ws :
  join sep (String c w :: ws) = String c (join sep (w :: ws)).
Proof. destruct ws; reflexivity. Qed.

(** Where the spaces of a label are: at the underscores and at the spaces
    of the key, whether or not the first word is capitalized. *)
Lemma spaces_of_label (s : string) :
  forallb ascii_initial (tl (split "_" s)) = true ->
  (forall i,
     String.get i (join " " (hd "" (split "_" s) :: map capitalize (tl (split "_" s))))
       = Some " "%char
     <-> String.get i s = Some "_"%char \/ String.get i s = Some " "%char)
  /\ (ascii_initial (hd "" (split "_" s)) = true ->
      forall i,
        String.get i (join " " (map capitalize (split "_" s))) = Some " "%char
        <-> String.get i s = Some "_"%char \/ String.get i s = Some " "%char).
Proof.
  induction s as [|c s IH].
  - intros _. cbn. split; [|intros _]; intros i; destruct i; cbn;
      (split; [discriminate|intros [H|H]; discriminate H]).
  - cbn [split]. destruct (Ascii.eqb c "_") eqn:E.
    + apply Ascii.eqb_eq in E. subst c. cbn [tl hd]. intros Hw.
      pose proof (split_nonempty "_" s) as Hne.
      destruct (split "_" s) as [|w ws] eqn:Es; [contradiction|].
      cbn [forallb] in Hw. apply andb_true_iff in Hw. destruct Hw as [Hw Hws].
      destruct (IH Hws) as [_ IH2]. specialize (IH2 Hw).
      assert (Hj : forall f : string -> string,
                 join " " ("" :: map f (w :: ws)) = String " " (join " " (map f (w :: ws))))
        by reflexivity.
      split; [|intros _]; intros i.
      * rewrite Hj. destruct i as [|i]; cbn [String.get].
        -- split; [left; reflexivity|reflexivity].
        -- rewrite IH2. reflexivity.
      * change (map capitalize ("" :: w :: ws)) with ("" :: map capitalize (w :: ws)).
        rewrite Hj.
        destruct i as [|i]; cbn [String.get].
        -- split; [left; reflexivity|reflexivity].
        -- rewrite IH2. reflexivity.
    + pose proof (split_nonempty "_" s) as Hne.
      destruct (split "_" s) as [|w ws] eqn:Es; [contradiction|].
      cbn [tl hd] in *. intros Hws.
      destruct (IH Hws) as [IH1 _].
      split.
      * intros i. rewrite join_cons_char. destruct i as [|i]; cbn [String.get].
        -- split; [intros H; right; exact H|].
           intros [H|H]; [|exact H]. injection H as ->. rewrite Ascii.eqb_refl in E.
           discriminate E.
        -- apply IH1.
      * intros Hi i. cbn [ascii_initial] in Hi.
        change (map capitalize (String c w :: ws))
          with (capitalize (String c w) :: map capitalize ws).
        cbn [capitalize]. rewrite Hi. rewrite join_cons_char.
        destruct i as [|i]; cbn [String.get].
        -- pose proof (toUpperCase_space c) as Hu.
           split.
           ++ intros H. injection H as H. right. f_equal.
              rewrite H, Ascii.eqb_refl in Hu. symmetry in Hu.
              apply Ascii.eqb_eq in Hu. exact Hu.
           ++ intros [H|H]; injection H as ->.
              ** rewrite Ascii.eqb_refl in E. discriminate E.
              ** reflexivity.
        -- apply IH1.
Qed.

(** X8. On a key whose words all begin with an ASCII character, as the
    keys of the backend do, the label has the length of the key, holds no
    underscore, has a space exactly at the positions where the key has an
    underscore or a space, and so as many spaces as the key has of both,
    and formatting it again changes nothing. *)
Theorem formatLabel_of_ascii_words (key : string) :
  ascii_initials "_" key = true ->
  exists label,
    formatLabel (JStr key) = inr label
    /\ String.length label = String.length key
    /\ occurrences "_" label = 0
    /\ (forall i, String.get i label = Some " "%char
                  <-> String.get i key = Some "_"%char \/ String.get i key = Some " "%char)
    /\ occurrences " " label = occurrences " " key + occurrences "_" key
    /\ formatLabel (JStr label) = inr label.
Proof.
  intros Hkey. eexists. split; [reflexivity|].
  assert (Hspaces : forall i,
             String.get i (join " " (map capitalize (split "_" key))) = Some " "%char
             <-> String.get i key = Some "_"%char \/ String.get i key = Some " "%char).
  { pose proof Hkey as Hall. unfold ascii_initials in Hall.
    pose proof (spaces_of_label key) as Hs.
    destruct (split "_" key) as [|w ws]; [exact (proj2 (Hs eq_refl) eq_refl)|].
    cbn [forallb tl hd] in Hall, Hs. apply andb_true_iff in Hall.
    destruct Hall as [Hw Hws]. exact (proj2 (Hs Hws) Hw). }
  destruct (split_join "_" key) as (Hjoin & Hwords & Hlen).
  unfold ascii_initials in Hkey. rewrite forallb_forall in Hkey.
  pose proof (split_nonempty "_" key) as Hne.
  set (ws := split "_" key) in *.
  assert (Hmap : map String.length (map capitalize ws) = map String.length ws
                 /\ map (occurrences "_") (map capitalize ws) = map (occurrences "_") ws
                 /\ map (occurrences " ") (map capitalize ws) = map (occurrences " ") ws).
  { rewrite !map_map. repeat split; apply map_ext_in; intros w Hw;
      apply capitalize_ascii; apply (Hkey w Hw). }
  destruct Hmap as (M1 & M2 & M3).
  destruct (join_facts " " (map capitalize ws) (map_nonempty _ _ Hne)) as [J1 J2].
  destruct (join_facts "_" ws Hne) as [K1 K2].
  rewrite Hjoin in K1, K2.
  assert (Hzero : list_sum (map (occurrences "_") ws) = 0).
  { clear -Hwords. induction Hwords as [|w l Hw _ IH]; [reflexivity|].
    cbn [map]. unfold list_sum in *. cbn [fold_right]. rewrite Hw, IH. reflexivity. }
  assert (Hunder : occurrences "_" (join " " (map capitalize ws)) = 0).
  { rewrite (J2 "_"%char), M2, Hzero. reflexivity. }
  split; [|split; [exact Hunder|split; [exact Hspaces|split]]].
  - rewrite J1, K1, M1, length_map. reflexivity.
  - rewrite (J2 " "%char), M3, (K2 " "%char), (K2 "_"%char), Hzero, length_map, Hlen.
    cbn. lia.
  - cbn [formatLabel]. f_equal.
    set (l := join " " (map capitalize ws)) in *.
    assert (Hs : split "_" l = [l]).
    { clear -Hunder. induction l as [|c l IH]; cbn in *; [reflexivity|].
      destruct (Ascii.eqb c "_"); [discriminate|]. rewrite IH by exact Hunder. reflexivity. }
    rewrite Hs. cbn [map join]. subst l.
    destruct ws as [|w ws']; [contradiction|].
    assert (Hw : ascii_initial w = true) by (apply (Hkey w); left; reflexivity).
    destruct (capitalize_ascii w Hw) as (_ & _ & _ & Hi & Hc).
    cbn [map]. destruct ws' as [|w' ws'].
    + exact Hc.
    + change (join " " (capitalize w :: map capitalize (w' :: ws')))
        with (capitalize w ++ String " " (join " " (map capitalize (w' :: ws')))).
      destruct (capitalize w) as [|c r] eqn:Ecw; [reflexivity|].
      cbn [ascii_initial capitalize append] in Hi, Hc |- *. rewrite Hi in Hc |- *.
      injection Hc as Hc. rewrite Hc. reflexivity.
Qed.

End LabelFacts.

Lemma formatLabel_distributes_witness :
  Validation.formatLabel (CM := JsString.ascii_only) (JStr "missing_downloads")
  = inr "Missing Downloads".
Proof.
  destruct (formatLabel_distributes (CM := JsString.ascii_only) "missing" "downloads")
    as (_ & _ & la & lb & Ha & Hb & Hab & _).
  vm_compute in Ha, Hb. injection Ha as <-. injection Hb as <-. exact Hab.
Defined.

Lemma formatLabel_of_ascii_words_witness :
  exists label,
    Validation.formatLabel (CM := JsString.ascii_only) (JStr "files_without_trackid")
    = inr label
    /\ String.length label = 21
    /\ JsString.occurrences "_" label = 0.
Proof.
  destruct (formatLabel_of_ascii_words (CM := JsString.ascii_only)
              "files_without_trackid" eq_refl) as (label & H1 & H2 & H3 & _).
  exists label. split; [exact H1|split; [exact H2|exact H3]].
Defined.

(** ** The chips and the percentages of the validation view *)

Section ChipFacts.
Import Validation.
Context {NT : NumberText}.

Lemma over_ten_is_positive (x : number) :
  SFltb (of_Z 10) x = true -> gt_zero x = true.
Proof.
  destruct x as [s|s| |s mx ex]; try destruct s; cbn; try discriminate; reflexivity.
Qed.

Lemma not_positive_not_over_ten (x : number) :
  gt_zero x = false -> SFltb (of_Z 10) x = false.
Proof.
  intros H. destruct (SFltb (of_Z 10) x) eqn:E; [|reflexivity].
  rewrite (over_ten_is_positive x E) in H. discriminate H.
Qed.

Lemma falsy_not_positive (v : jsval) :
  gt_zero (StringToNumber "") = false ->
  truthy v = false -> gt_zero (to_number v) = false.
Proof.
  intros Hempty Hv.
  destruct v as [| |b|x|s|items|fields]; cbn in Hv |- *; try discriminate; try reflexivity.
  - destruct b; [discriminate|reflexivity].
  - destruct x as [s|s| |s mx ex]; cbn in Hv; try discriminate; try destruct s; reflexivity.
  - destruct (String.eqb_spec s ""); [subst s; exact Hempty|discriminate].
Qed.

(** X9. The colour of each chip of the validation summary depends only
    on its count, compared as a Number.  Without results every chip is
    "success".  With results, files without track id and short songs are
    "error" exactly when the count is over 10, "warning" when it is over 0
    and not over 10, and "success" otherwise; missing downloads are
    "warning", and unmatched files "error", exactly when the count is over
    0.  The tests for a missing or falsy count that the functions begin with
    change nothing: such a count is not over 0. *)
Theorem chip_colors_follow_the_counts (results : jsval) :
  gt_zero (StringToNumber "") = false ->
  let count k := to_number (get_opt results k) in
  let three k :=
    if SFltb (of_Z 10) (count k) then "error"
    else if gt_zero (count k) then "warning" else "success" in
  (truthy results = false ->
   getMissingDownloadsColor results = "success"
   /\ getFilesWithoutTrackIdColor results = "success"
   /\ getUnmatchedFilesColor results = "success"
   /\ getShortSongsColor results = "success")
  /\ (truthy results = true ->
      getMissingDownloadsColor results
        = (if gt_zero (count "missing_downloads") then "warning" else "success")
      /\ getFilesWithoutTrackIdColor results = three "files_without_trackid"
      /\ getUnmatchedFilesColor results
         = (if gt_zero (count "unmatched_files") then "error" else "success")
      /\ getShortSongsColor results = three "short_songs").
Proof.
  intros Hempty count three. subst count three. cbv beta.
  unfold getMissingDownloadsColor, getFilesWithoutTrackIdColor,
    getUnmatchedFilesColor, getShortSongsColor, greater.
  change (of_Z 0) with pos_zero. fold (gt_zero (to_number (get_opt results "missing_downloads"))).
  split; intros Hr; rewrite Hr; cbn [negb orb]; [repeat split|].
  assert (Hf : forall v, truthy v = false ->
                gt_zero (to_number v) = false /\ SFltb (of_Z 10) (to_number v) = false).
  { intros v Hv. pose proof (falsy_not_positive v Hempty Hv) as H.
    split; [exact H|apply not_positive_not_over_ten, H]. }
  repeat split.
  - destruct (truthy (get_opt results "missing_downloads")) eqn:E; cbn [negb]; [reflexivity|].
    destruct (Hf _ E) as [-> _]. reflexivity.
  - destruct (truthy (get_opt results "files_without_trackid")) eqn:E; cbn [negb]; [reflexivity|].
    destruct (Hf _ E) as [H1 H2]. fold (gt_zero (to_number (get_opt results "files_without_trackid"))).
    rewrite H1, H2. reflexivity.
  - destruct (truthy (get_opt results "unmatched_files")) eqn:E; cbn [negb]; [reflexivity|].
    destruct (Hf _ E) as [H1 _]. fold (gt_zero (to_number (get_opt results "unmatched_files"))).
    rewrite H1. reflexivity.
  - destruct (get_opt results "short_songs"); cbn [is_undefined]; reflexivity.
Qed.

(** X10. A percentage that the results card shows is never the 0 of the
    guard of [calculatePercentage]: its item is rendered only on a truthy
    total, so what is shown is the rounded quotient, and on finite Numbers
    the total is not zero and the percentage is not NaN.  The two items
    differ at a part of zero: with no short song the card shows a percentage
    of short songs, with no file with a track id it shows no percentage of
    files with a track id at all. *)
Theorem shown_percentages_are_quotients (results : jsval) :
  let quotient part total :=
    JNum (math_round (mul (div (to_number part) (to_number total)) (of_Z 100))) in
  (forall p, short_songs_percentage results = Some p ->
     p = quotient (get_opt results "short_songs") (get_opt results "total_files")
     /\ forall x y, get_opt results "short_songs" = JNum x ->
                    get_opt results "total_files" = JNum y ->
                    is_finite x = true -> is_finite y = true ->
                    is_zero y = false /\ exists r, p = JNum r /\ is_nan r = false)
  /\ (forall p, files_with_trackid_percentage results = Some p ->
      p = quotient (get_opt results "files_with_valid_trackid")
                   (get_opt results "total_local_files"))
  /\ (forall x, get_opt results "short_songs" = JNum x -> is_zero x = true ->
      truthy (get_opt results "total_files") = true ->
      exists p, short_songs_percentage results = Some p)
  /\ (forall x, get_opt results "files_with_valid_trackid" = JNum x -> is_zero x = true ->
      files_with_trackid_percentage results = None).
Proof.
  intros quotient. subst quotient. cbv beta.
  unfold short_songs_percentage, files_with_trackid_percentage,
    ValidationView.calculatePercentage.
  split; [|split; [|split]].
  - intros p. destruct (truthy (get_opt results "total_files")) eqn:Ht; cbn [andb negb];
      [|discriminate].
    destruct (is_undefined _); cbn [negb]; [discriminate|].
    intros E. injection E as <-. split; [reflexivity|].
    intros x y Hx Hy Fx Fy. rewrite Hx, Hy in *. cbn [to_number].
    assert (Hz : is_zero y = false).
    { cbn in Ht. destruct y; cbn in *; try discriminate; reflexivity. }
    split; [exact Hz|]. eexists; split; [reflexivity|].
    apply math_round_not_nan, mul_hundred_not_nan, div_finite_not_nan; assumption.
  - intros p. destruct (truthy (get_opt results "files_with_valid_trackid")); cbn [andb];
      [|discriminate].
    destruct (truthy (get_opt results "total_local_files")) eqn:Ht; cbn [negb];
      [|discriminate].
    intros E. injection E as <-. reflexivity.
  - intros x Hx Hz Ht. rewrite Ht, Hx. cbn. eexists; reflexivity.
  - intros x Hx Hz. rewrite Hx. cbn [truthy]. rewrite Hz. reflexivity.
Qed.

End ChipFacts.

Lemma chip_colors_follow_the_counts_witness :
  Validation.getFilesWithoutTrackIdColor (NT := decimal_integers)
    (JObj [("files_without_trackid", JNum (of_Z 12))]) = "error"
  /\ Validation.getMissingDownloadsColor (NT := decimal_integers) JNull = "success".
Proof.
  pose proof (chip_colors_follow_the_counts (NT := decimal_integers)
                (JObj [("files_without_trackid", JNum (of_Z 12))]) eq_refl) as [_ H].
  pose proof (chip_colors_follow_the_counts (NT := decimal_integers) JNull eq_refl) as [H' _].
  split.
  - rewrite (proj1 (proj2 (H eq_refl))). reflexivity.
  - exact (proj1 (H' eq_refl)).
Defined.

Lemma shown_percentages_are_quotients_witness :
  Validation.short_songs_percentage (NT := decimal_integers)
    (JObj [("total_files", JNum (of_Z 10)); ("short_songs", JNum (of_Z 2))])
  = Some (JNum (of_Z 20)).
Proof.
  destruct (Validation.short_songs_percentage (NT := decimal_integers)
              (JObj [("total_files", JNum (of_Z 10)); ("short_songs", JNum (of_Z 2))]))
    as [p|] eqn:E; [|vm_compute in E; discriminate E].
  rewrite (proj1 (proj1 (shown_percentages_are_quotients (NT := decimal_integers)
                           (JObj [("total_files", JNum (of_Z 10));
                                  ("short_songs", JNum (of_Z 2))])) p E)).
  vm_compute. reflexivity.
Defined.

(** ** Handlers over refs: running them *)

(** Run the handler that a reaction starts or resumes. *)
Ltac run_exec :=
  match goal with
  | |- context [Async.exec ?a ?p ?m] =>
      let x := eval cbn in (Async.exec a p m) in change (Async.exec a p m) with x
  end; cbv beta iota; cbn [Async.bind Async.try_catch Async.finally].

(** Run it to its end, by cases on what it reads. *)
Ltac drive :=
  repeat first
    [ progress run_exec
    | match goal with
      | |- context [match get ?v ?k with _ => _ end] => destruct (get v k)
      | |- context [match ?a with Async.NoApp => _ | _ => _ end] => destruct a
      end ].

(** Resume the handler that awaits the request that settles. *)
Ltac run_settle :=
  try unfold Async.settle; cbn [Async.pending take]; rewrite Nat.eqb_refl;
  cbv beta iota; run_exec.

Section AsyncFacts.
Import Async.
Context {S : Type} (R : S -> S -> Prop).
Hypothesis R_refl : forall s, R s s.
Hypothesis R_trans : forall a b c, R a b -> R b c -> R a c.

Lemma exec_quiet app (p : prog S unit) :
  forall m, quiet R (refs_of m) p ->
  R (refs_of m) (refs_of (fst (exec app p m)))
  /\ pending (fst (exec app p m)) = pending m
  /\ sent_in (snd (exec app p m)) = [].
Proof.
  induction p as [a|e|k IH|s k IH|k IH|ev k IH|r k IH]; cbn [quiet exec]; intros m Hp.
  - cbn. auto.
  - cbn. auto.
  - apply IH, Hp.
  - destruct Hp as [Hs Hk].
    destruct (IH {| refs_of := s; pending := pending m; next := next m |} Hk)
      as (H1 & H2 & H3). cbn in H1, H2.
    split; [eapply R_trans; eauto|auto].
  - apply IH, Hp.
  - destruct Hp as [Hev Hp]. destruct (IH m Hp) as (H1 & H2 & H3).
    destruct (exec app k m) as [m' evs]; cbn in *.
    split; [exact H1|split; [exact H2|]]. destruct ev; [contradiction|assumption..].
  - contradiction.
Qed.

Lemma exec_once app (p : prog S unit) :
  forall m, once R (refs_of m) p ->
  Forall (fun e => forall x s, quiet R s (snd e x)) (pending m) ->
  R (refs_of m) (refs_of (fst (exec app p m)))
  /\ Forall (fun e => forall x s, quiet R s (snd e x)) (pending (fst (exec app p m))).
Proof.
  induction p as [a|e|k IH|s k IH|k IH|ev k IH|r k IH]; cbn [once exec]; intros m Hp Hm.
  - cbn. auto.
  - cbn. auto.
  - apply IH; [exact Hp|exact Hm].
  - destruct Hp as [Hs Hk]. destruct (IH {| refs_of := s; pending := pending m; next := next m |} Hk Hm)
      as (H1 & H2). cbn in H1. split; [eapply R_trans; eauto|exact H2].
  - apply IH; [apply Hp|exact Hm].
  - destruct Hp as [Hev Hp]. destruct (IH m Hp Hm) as (H1 & H2).
    destruct (exec app k m) as [m' evs]; cbn in *. auto.
  - cbn. split; [apply R_refl|]. constructor; [exact Hp|exact Hm].
Qed.

Lemma settle_quiet app id res m :
  Forall (fun e => forall x s, quiet R s (snd e x)) (pending m) ->
  R (refs_of m) (refs_of (fst (settle app id res m)))
  /\ Forall (fun e => forall x s, quiet R s (snd e x)) (pending (fst (settle app id res m)))
  /\ sent_in (snd (settle app id res m)) = [].
Proof.
  intros Hm. unfold settle.
  destruct (take id (pending m)) as [[k rest]|] eqn:Et.
  - destruct (take_Forall _ _ _ _ _ Hm Et) as [Hk Hrest].
    destruct (exec_quiet app (k res) {| refs_of := refs_of m; pending := rest; next := next m |}
                (Hk res (refs_of m))) as (H1 & H2 & H3).
    cbn in H1, H2. rewrite H2. auto.
  - cbn. auto.
Qed.

End AsyncFacts.

(** ** Objects made by spreading *)

Section SpreadFacts.
Import JsObject.

Lemma lookup_replace k k' v fields :
  has k' fields = true ->
  lookup k (replace k' v fields) = if String.eqb k k' then v else lookup k fields.
Proof.
  induction fields as [|[k0 v0] rest IH]; cbn; [discriminate|].
  destruct (String.eqb_spec k' k0) as [->|Hne]; cbn.
  - intros _. destruct (String.eqb k k0); reflexivity.
  - intros H. rewrite (IH H).
    destruct (String.eqb_spec k k0) as [->|Hne'].
    + destruct (String.eqb_spec k0 k'); [congruence|reflexivity].
    + reflexivity.
Qed.

Lemma lookup_absent k fields : has k fields = false -> lookup k fields = JUndef.
Proof.
  induction fields as [|[k0 v0] rest IH]; cbn; [reflexivity|].
  destruct (String.eqb k k0); cbn; [discriminate|exact IH].
Qed.

Lemma lookup_insert_index k i k' v fields :
  has k' fields = false ->
  lookup k (insert_index i k' v fields) = if String.eqb k k' then v else lookup k fields.
Proof.
  induction fields as [|[k0 v0] rest IH]; cbn.
  - intros _. reflexivity.
  - destruct (String.eqb_spec k' k0) as [->|Hne]; cbn; [discriminate|]. intros H.
    destruct (array_index k0) as [j|]; [destruct (j <? i)%N|]; cbn; try reflexivity.
    rewrite (IH H).
    destruct (String.eqb_spec k k0) as [->|Hne'];
      [destruct (String.eqb_spec k0 k'); [congruence|reflexivity]|reflexivity].
Qed.

Lemma lookup_append k k' v fields :
  has k' fields = false ->
  lookup k (fields ++ [(k', v)]) = if String.eqb k k' then v else lookup k fields.
Proof.
  induction fields as [|[k0 v0] rest IH]; cbn.
  - intros _. reflexivity.
  - destruct (String.eqb_spec k' k0) as [->|Hne]; cbn; [discriminate|]. intros H.
    rewrite (IH H).
    destruct (String.eqb_spec k k0) as [->|Hne'];
      [destruct (String.eqb_spec k0 k'); [congruence|reflexivity]|reflexivity].
Qed.

Lemma lookup_define k k' v fields :
  lookup k (define k' v fields) = if String.eqb k k' then v else lookup k fields.
Proof.
  unfold define. destruct (has k' fields) eqn:H.
  - apply lookup_replace, H.
  - destruct (array_index k'); [apply lookup_insert_index|apply lookup_append]; exact H.
Qed.

Lemma lookup_fold k l :
  NoDup (map fst l) ->
  forall target,
    lookup k (fold_left (fun acc kv => define (fst kv) (snd kv) acc) l target)
    = if has k l then lookup k l else lookup k target.
Proof.
  induction l as [|[k1 v1] l IH]; cbn; intros Hnd target; [reflexivity|].
  inversion Hnd as [|? ? Hnot Hnd']; subst.
  rewrite (IH Hnd'), lookup_define.
  destruct (String.eqb_spec k k1) as [->|Hne]; cbn; [|reflexivity].
  assert (Hh : has k1 l = false).
  { clear -Hnot. induction l as [|[k0 v0] l IH]; cbn in *; [reflexivity|].
    destruct (String.eqb_spec k1 k0) as [->|Hne]; cbn; [tauto|].
    apply IH. tauto. }
  rewrite Hh. reflexivity.
Qed.

End SpreadFacts.

(** ** The handlers of the validation view *)

Section ValidationFacts.
Import JsObject Async Validation.
Context {CU : CodeUnits}.

(** X11. [validateSongLengths] merges what it gets into the results that
    are there.  On a view whose results are an object, a click on "Validate
    Song Lengths" posts the minimum length of the slider, and when the
    response brings an object of results, the results of the view then hold,
    under every key of that object, its value there, and under any other key
    the value they had: the counts of an earlier track validation stay.  The
    slider is left as it was and the loading flag is cleared. *)
Theorem validateSongLengths_merges (m : machine refs) (app app' : app_lookup)
    (d : jsval) (old new : list (string * jsval)) :
  validationResults (refs_of m) = JObj old ->
  get d "results" = inr (JObj new) ->
  NoDup (map fst old) -> NoDup (map fst new) ->
  let run := session [(app, Click BtnValidateLengths);
                      (app', Settle (next m) (Resolved d))] m in
  sent_of (snd run) = [ApiCalls.validateSongLengths (minLengthMinutes (refs_of m))]
  /\ (forall k, get_opt (validationResults (refs_of (fst run))) k
                = if has k new then lookup k new else lookup k old)
  /\ minLengthMinutes (refs_of (fst run)) = minLengthMinutes (refs_of m)
  /\ loading (refs_of (fst run)) LValidateLengths = false.
Proof.
  intros Hold Hd Hnd Hnew run. subst run.
  cbn [session react rendered on_click]. run_exec. run_settle.
  rewrite Hold. cbn [truthy]. unfold read. rewrite Hd. cbv beta iota. run_exec.
  destruct app'; cbn; (split; [reflexivity|split; [|split; reflexivity]]);
    intros k; unfold copy_properties; cbn [own_properties fold_left];
    rewrite (lookup_fold k new Hnew);
    destruct (has k new); try reflexivity;
    rewrite (lookup_fold k old Hnd); destruct (has k old) eqn:Hk; try reflexivity;
    symmetry; apply lookup_absent, Hk.
Qed.

Lemma validateAll_run (m : machine refs) (a1 a2 a3 : app_lookup)
    (d1 d2 r1 r2 : jsval) :
  truthy (validationResults (refs_of m)) = true ->
  get d1 "results" = inr r1 -> get d2 "results" = inr r2 ->
  exists mf log,
    session [(a1, Click BtnValidateAll);
             (a2, Settle (next m) (Resolved d1));
             (a3, Settle (S (next m)) (Resolved d2))] m = (mf, log)
    /\ sent_of log = [ApiCalls.validateTracks;
                      ApiCalls.validateSongLengths (minLengthMinutes (refs_of m))]
    /\ validationResults (refs_of mf) = spread2 r1 r2.
Proof.
  intros Hshown H1 H2.
  cbn [session react rendered on_click]. rewrite Hshown.
  run_exec. run_settle. run_settle. unfold read. rewrite H1, H2. cbv beta iota.
  destruct a3; run_exec; do 2 eexists; (split; [reflexivity|split; reflexivity]).
Qed.

Lemma validate_in_a_row (m : machine refs) (a1 a2 a3 a4 : app_lookup)
    (d1 d2 r1 r2 : jsval) :
  get d1 "results" = inr r1 -> get d2 "results" = inr r2 ->
  exists mf log,
    session [(a1, Click BtnValidateTracks);
             (a2, Settle (next m) (Resolved d1));
             (a3, Click BtnValidateLengths);
             (a4, Settle (S (next m)) (Resolved d2))] m = (mf, log)
    /\ sent_of log = [ApiCalls.validateTracks;
                      ApiCalls.validateSongLengths (minLengthMinutes (refs_of m))]
    /\ validationResults (refs_of mf) = (if truthy r1 then spread2 r1 r2 else r2).
Proof.
  intros H1 H2.
  cbn [session react rendered on_click].
  run_exec. run_settle. unfold read. rewrite H1. cbv beta iota.
  destruct a2; run_exec; run_exec; run_settle;
    destruct (truthy r1); unfold read; rewrite H2; cbv beta iota;
    destruct a4; run_exec; do 2 eexists; (split; [reflexivity|split; reflexivity]).
Qed.

(** X12. The refresh button of the summary does what the two buttons do
    one after the other.  From any state in which it is rendered, with the
    same two responses, [validateAll] and [validateTracks] followed by
    [validateSongLengths] send the same two requests, and [validateAll]
    leaves the results of the tracks spread together with those of the
    lengths; the two buttons leave the same whenever the results of the
    tracks are truthy, and otherwise leave the results of the lengths
    alone, be they an object or not. *)
Theorem validateAll_as_sequence (m : machine refs) (a1 a2 a3 a4 : app_lookup)
    (d1 d2 r1 r2 : jsval) :
  truthy (validationResults (refs_of m)) = true ->
  get d1 "results" = inr r1 -> get d2 "results" = inr r2 ->
  let all := session [(a1, Click BtnValidateAll);
                      (a2, Settle (next m) (Resolved d1));
                      (a3, Settle (S (next m)) (Resolved d2))] m in
  let seq := session [(a1, Click BtnValidateTracks);
                      (a2, Settle (next m) (Resolved d1));
                      (a3, Click BtnValidateLengths);
                      (a4, Settle (S (next m)) (Resolved d2))] m in
  sent_of (snd all)
    = [ApiCalls.validateTracks;
       ApiCalls.validateSongLengths (minLengthMinutes (refs_of m))]
  /\ sent_of (snd seq) = sent_of (snd all)
  /\ validationResults (refs_of (fst all)) = spread2 r1 r2
  /\ validationResults (refs_of (fst seq)) = (if truthy r1 then spread2 r1 r2 else r2)
  /\ (truthy r1 = true ->
      validationResults (refs_of (fst seq)) = validationResults (refs_of (fst all))).
Proof.
  intros Hshown H1 H2 all seq.
  destruct (validateAll_run m a1 a2 a3 d1 d2 r1 r2 Hshown H1 H2) as (mf & log & E & Hs & Hr).
  destruct (validate_in_a_row m a1 a2 a3 a4 d1 d2 r1 r2 H1 H2) as (mf' & log' & E' & Hs' & Hr').
  subst all seq. rewrite E, E'. cbn [fst snd].
  rewrite Hs, Hs', Hr, Hr'. repeat split. intros ->. reflexivity.
Qed.

(** X13. [validateAll] changes the results all at once or not at all, and
    reads the slider late.  The click sends the validation of the tracks
    only; when that is rejected, nothing more is sent, the results stay, and
    the flag is cleared; when it is fulfilled, the validation of the lengths
    goes out with the minimum length as the slider stands then, not as it
    stood at the click, and the results still stay; only when the second
    response is fulfilled too, and both hold readable results, do the
    results of the view change, to the two spread together.  In every case
    the flag is cleared and no handler stays suspended. *)
Theorem validateAll_all_or_nothing (m : machine refs) (a1 a2 a3 : app_lookup)
    (v : jsval) :
  truthy (validationResults (refs_of m)) = true ->
  let m1 := assign (set_minLengthMinutes v) (fst (react a1 (Click BtnValidateAll) m)) in
  snd (react a1 (Click BtnValidateAll) m) = [Sent (next m) ApiCalls.validateTracks]
  /\ (forall e,
        let r := react a2 (Settle (next m) (Rejected e)) m1 in
        sent_in (snd r) = []
        /\ validationResults (refs_of (fst r)) = validationResults (refs_of m)
        /\ loading (refs_of (fst r)) LValidateAll = false
        /\ pending (fst r) = pending m)
  /\ (forall d1,
        let r := react a2 (Settle (next m) (Resolved d1)) m1 in
        snd r = [Sent (S (next m)) (ApiCalls.validateSongLengths v)]
        /\ validationResults (refs_of (fst r)) = validationResults (refs_of m)
        /\ forall res2,
             let r' := react a3 (Settle (S (next m)) res2) (fst r) in
             sent_in (snd r') = []
             /\ loading (refs_of (fst r')) LValidateAll = false
             /\ pending (fst r') = pending m
             /\ validationResults (refs_of (fst r'))
                = match res2 with
                  | Resolved d2 =>
                      match get d1 "results", get d2 "results" with
                      | inr r1, inr r2 => spread2 r1 r2
                      | _, _ => validationResults (refs_of m)
                      end
                  | Rejected _ => validationResults (refs_of m)
                  end).
Proof.
  intros Hshown m1. subst m1.
  cbn [react rendered on_click]. rewrite Hshown. run_exec. cbn [fst snd].
  split; [reflexivity|split].
  - intros e. cbn zeta. unfold assign. cbn [pending refs_of next]. run_settle.
    destruct a2; run_exec; repeat split.
  - intros d1. cbn zeta. unfold assign. cbn [pending refs_of next]. run_settle.
    cbn [fst snd]. split; [reflexivity|split; [reflexivity|]].
    intros res2. cbn [pending take]. rewrite Nat.eqb_refl. cbv beta iota.
    destruct res2 as [d2|e2]; unfold read; drive; repeat split.
Qed.

(** X14. The minimum length that is posted.  Called with no argument,
    [validateSongLengths] of the client posts [{min_length: 5}], and with any
    other argument than [undefined], that argument.  A click on "Validate
    Song Lengths" in a fresh view posts the same as the call with no
    argument, and once the slider has been set to a value that is not
    [undefined], the click posts that value. *)
Theorem song_length_threshold_sent (m : machine refs) (app : app_lookup) (v : jsval) :
  Api.data (ApiCalls.validateSongLengths JUndef)
    = Some (JObj [("min_length", JNum (of_Z 5))])
  /\ (v <> JUndef ->
      Api.data (ApiCalls.validateSongLengths v) = Some (JObj [("min_length", v)]))
  /\ snd (react app (Click BtnValidateLengths) initial)
     = [Sent 0 (ApiCalls.validateSongLengths JUndef)]
  /\ (v <> JUndef ->
      snd (react app (Click BtnValidateLengths) (fst (react app (Slide v) m)))
      = [Sent (next m)
           (Api.apiClient_post "/validation/song-lengths"
              (Some (JObj [("min_length", v)])))]).
Proof.
  split; [reflexivity|split; [|split; [reflexivity|]]].
  - intros Hv. destruct v; first [reflexivity | contradiction Hv; reflexivity].
  - intros Hv. cbn [react rendered on_click fst]. run_exec. cbn [snd].
    destruct v; first [reflexivity | contradiction Hv; reflexivity].
Qed.

End ValidationFacts.

Section ValidationExamples.
Import JsObject Async Validation.

Lemma validateSongLengths_merges_witness :
  let run := session (CU := ascii_code_units)
               [(AppWith, Click BtnValidateLengths);
                (AppWith, Settle 1 (Resolved Scenarios.lengths_results))]
               Scenarios.validated in
  get_opt (validationResults (refs_of (fst run))) "short_songs" = JNum (of_Z 2)
  /\ get_opt (validationResults (refs_of (fst run))) "files_without_trackid"
     = JNum (of_Z 12).
Proof.
  intros run.
  assert (Hold : NoDup (map fst [("total_local_files", JNum (of_Z 10));
                                 ("files_without_trackid", JNum (of_Z 12))]))
    by (repeat constructor; cbn; intuition discriminate).
  assert (Hnew : NoDup (map fst [("total_files", JNum (of_Z 10));
                                 ("short_songs", JNum (of_Z 2))]))
    by (repeat constructor; cbn; intuition discriminate).
  pose proof (validateSongLengths_merges (CU := ascii_code_units) Scenarios.validated
                AppWith AppWith Scenarios.lengths_results _ _ eq_refl eq_refl Hold Hnew)
    as (_ & H & _).
  split; [exact (H "short_songs")|exact (H "files_without_trackid")].
Defined.

Lemma validateAll_as_sequence_witness :
  let seq := session (CU := ascii_code_units)
               [(AppWith, Click BtnValidateTracks);
                (AppWith, Settle 1 (Resolved Scenarios.tracks_results));
                (AppWith, Click BtnValidateLengths);
                (AppWith, Settle 2 (Resolved Scenarios.lengths_results))]
               Scenarios.validated in
  let all := session (CU := ascii_code_units)
               [(AppWith, Click BtnValidateAll);
                (AppWith, Settle 1 (Resolved Scenarios.tracks_results));
                (AppWith, Settle 2 (Resolved Scenarios.lengths_results))]
               Scenarios.validated in
  validationResults (refs_of (fst seq)) = validationResults (refs_of (fst all)).
Proof.
  intros seq all.
  exact (proj2 (proj2 (proj2 (proj2
           (validateAll_as_sequence (CU := ascii_code_units) Scenarios.validated
              AppWith AppWith AppWith AppWith
              Scenarios.tracks_results Scenarios.lengths_results _ _
              eq_refl eq_refl eq_refl)))) eq_refl).
Defined.

Lemma validateAll_all_or_nothing_witness :
  let m1 := fst (react (CU := ascii_code_units) AppWith (Click BtnValidateAll)
                   Scenarios.validated) in
  snd (react (CU := ascii_code_units) AppWith
         (Settle 1 (Resolved Scenarios.tracks_results))
         (fst (react (CU := ascii_code_units) AppWith (Slide (JNum (of_Z 8))) m1)))
  = [Sent 2 (ApiCalls.validateSongLengths (JNum (of_Z 8)))].
Proof.
  intros m1.
  exact (proj1 (proj2 (proj2 (validateAll_all_or_nothing (CU := ascii_code_units)
                  Scenarios.validated AppWith AppWith AppWith (JNum (of_Z 8)) eq_refl))
                 Scenarios.tracks_results)).
Defined.

Lemma song_length_threshold_sent_witness :
  snd (react (CU := ascii_code_units) AppWith (Click BtnValidateLengths)
         (fst (react (CU := ascii_code_units) AppWith (Slide (JNum (of_Z 8)))
                 Scenarios.validated)))
  = [Sent 1 (Api.apiClient_post "/validation/song-lengths"
               (Some (JObj [("min_length", JNum (of_Z 8))])))].
Proof.
  apply (proj2 (proj2 (proj2 (song_length_threshold_sent (CU := ascii_code_units)
                                Scenarios.validated AppWith (JNum (of_Z 8)))))).
  discriminate.
Defined.

End ValidationExamples.

(** ** The dialog of the file operations *)

Section FileOperationsFacts.
Import Async FileOperationsView.

Lemma same_dialog_refl s : same_dialog s s.
Proof. split; reflexivity. Qed.

Lemma same_dialog_trans a b c : same_dialog a b -> same_dialog b c -> same_dialog a c.
Proof. intros [H1 H2] [H3 H4]. split; congruence. Qed.

(** Decide [once] and [quiet] on a handler, by cases on what it reads. *)
Ltac traverse :=
  repeat first
    [ exact I
    | match goal with
      | |- _ /\ _ => split
      | |- same_dialog _ _ => split; reflexivity
      | |- context [match get ?v ?k with _ => _ end] => destruct (get v k)
      | |- context [if truthy ?v then _ else _] => destruct (truthy v)
      | |- forall _ : app_lookup, _ => intros []
      | |- forall _ : http_result, _ => intros []
      | |- forall _ : refs, _ => intro
      end
    | progress cbn ].

Lemma once_getStatus s : once same_dialog s getStatus.
Proof. unfold getStatus, read. traverse. Qed.

Lemma once_on_click b s :
  b <> BtnRemoveTrackIds -> b <> BtnCleanupTracks -> once same_dialog s (on_click b).
Proof.
  destruct b; intros H1 H2; try congruence; cbn [on_click];
    unfold generateM3u, embedMetadata, countTrackIds, operation, error_text, read;
    traverse.
Qed.

Lemma once_call f s : once same_dialog s (call f).
Proof.
  destruct f; cbn [call];
    unfold removeTrackIds, cleanupTracks, operation, error_text, read; traverse.
Qed.

Lemma settled_related m m' :
  settled m -> same_dialog (refs_of m) (refs_of m') ->
  Forall (fun e => forall x s, quiet same_dialog s (snd e x)) (pending m') ->
  settled m'
  /\ (forall f, action (dialog (refs_of m')) = Some f ->
                action (dialog (refs_of m)) = Some f).
Proof.
  intros [Hd _] [Ha Ht] Hp. split; [split; [|exact Hp]|].
  - intros f Hf. rewrite Ht. apply Hd. rewrite <- Ha. exact Hf.
  - intros f Hf. rewrite <- Ha. exact Hf.
Qed.

Lemma request_of_inj f g : request_of f = request_of g -> f = g.
Proof. destruct f, g; intros H; first [reflexivity | discriminate H]. Qed.

(** A request of one of the two operations leaves only in the reaction to
    the Confirm button of the shown dialog, whose action is the operation
    and whose title names it; and the component stays settled. *)
Lemma react_settled app i m :
  settled m ->
  settled (fst (react app i m))
  /\ (forall f, action (dialog (refs_of (fst (react app i m)))) = Some f ->
                action (dialog (refs_of m)) = Some f \/ i = Click (opener f))
  /\ (forall id f, In (Sent id (request_of f)) (snd (react app i m)) ->
        i = DialogConfirm
        /\ show (dialog (refs_of m)) = true
        /\ action (dialog (refs_of m)) = Some f
        /\ title (dialog (refs_of m)) = dialog_title f
        /\ snd (react app i m) = [Sent (next m) (request_of f)]).
Proof.
  intros Hm.
  assert (Hsame : forall m' evs,
            same_dialog (refs_of m) (refs_of m') ->
            Forall (fun e => forall x s, quiet same_dialog s (snd e x)) (pending m') ->
            (forall id f, ~ In (Sent id (request_of f)) evs) ->
            settled (fst (m', evs))
            /\ (forall f, action (dialog (refs_of (fst (m', evs)))) = Some f ->
                          action (dialog (refs_of m)) = Some f \/ i = Click (opener f))
            /\ (forall id f, In (Sent id (request_of f)) (snd (m', evs)) ->
                  i = DialogConfirm
                  /\ show (dialog (refs_of m)) = true
                  /\ action (dialog (refs_of m)) = Some f
                  /\ title (dialog (refs_of m)) = dialog_title f
                  /\ snd (m', evs) = [Sent (next m) (request_of f)])).
  { intros m' evs Hr Hp Hev. cbn [fst snd].
    destruct (settled_related m m' Hm Hr Hp) as [H1 H2].
    split; [exact H1|split]; [auto|]. intros id f Hin. destruct (Hev id f Hin). }
  assert (Honce : forall p evs,
            once same_dialog (refs_of m) p ->
            snd (exec app p m) = evs ->
            (forall id f, ~ In (Sent id (request_of f)) evs) ->
            settled (fst (exec app p m))
            /\ (forall f, action (dialog (refs_of (fst (exec app p m)))) = Some f ->
                          action (dialog (refs_of m)) = Some f \/ i = Click (opener f))
            /\ (forall id f, In (Sent id (request_of f)) (snd (exec app p m)) ->
                  i = DialogConfirm
                  /\ show (dialog (refs_of m)) = true
                  /\ action (dialog (refs_of m)) = Some f
                  /\ title (dialog (refs_of m)) = dialog_title f
                  /\ snd (exec app p m) = [Sent (next m) (request_of f)])).
  { intros p evs Hp Hevs Hno.
    destruct (exec_once same_dialog same_dialog_refl same_dialog_trans app p m Hp (proj2 Hm))
      as [H1 H2].
    destruct (exec app p m) as [m' evs'] eqn:E. cbn [fst snd] in *. subst evs'.
    apply Hsame; assumption. }
  destruct i as [|b|k b| | | |id res]; cbn [react].
  - apply (Honce getStatus [Sent (next m) Api.getStatus]);
      [apply once_getStatus|reflexivity|].
    intros id f [E|[]]. destruct f; discriminate E.
  - destruct b.
    + apply (Honce generateM3u _ (once_on_click BtnGenerateM3u _ ltac:(discriminate) ltac:(discriminate)) eq_refl).
      intros id f [E|[]]. destruct f; discriminate E.
    + apply (Honce embedMetadata _ (once_on_click BtnEmbedMetadata _ ltac:(discriminate) ltac:(discriminate)) eq_refl).
      intros id f [E|[]]. destruct f; discriminate E.
    + apply (Honce countTrackIds _ (once_on_click BtnCountTrackIds _ ltac:(discriminate) ltac:(discriminate)) eq_refl).
      intros id f [E|[]]. destruct f; discriminate E.
    + cbn. split; [split; [|exact (proj2 Hm)]|split].
      * cbn. intros f E. injection E as <-. reflexivity.
      * cbn. intros f E. injection E as <-. right. reflexivity.
      * intros id f [].
    + cbn. split; [split; [|exact (proj2 Hm)]|split].
      * cbn. intros f E. injection E as <-. reflexivity.
      * cbn. intros f E. injection E as <-. right. reflexivity.
      * intros id f [].
  - apply (Hsame (assign (set_option k b) m) []); [split; reflexivity|exact (proj2 Hm)|].
    intros id f [].
  - destruct (show (dialog (refs_of m))) eqn:Hshow;
      [|apply (Hsame m []); [apply same_dialog_refl|exact (proj2 Hm)|intros id f []]].
    cbn [confirmAction exec].
    destruct (action (dialog (refs_of m))) as [g|] eqn:Hact;
      [|apply (Hsame m []); [apply same_dialog_refl|exact (proj2 Hm)|intros id f []]].
    destruct (exec_once same_dialog same_dialog_refl same_dialog_trans app (call g) m
                (once_call g _) (proj2 Hm)) as [H1 H2].
    assert (Hev : snd (exec app (call g) m) = [Sent (next m) (request_of g)])
      by (destruct g; reflexivity).
    destruct (exec app (call g) m) as [m' evs] eqn:E. cbn [fst snd] in *. subst evs.
    destruct (settled_related m m' Hm H1 H2) as [H3 H4].
    split; [exact H3|split].
    + intros f Hf. left. rewrite <- Hact. exact (H4 f Hf).
    + intros id f [Ein|[]]. injection Ein as _ Ereq. apply request_of_inj in Ereq. subst g.
      repeat split; auto. apply Hm, Hact.
  - destruct (show (dialog (refs_of m))) eqn:Hshow;
      [|apply (Hsame m []); [apply same_dialog_refl|exact (proj2 Hm)|intros id f []]].
    apply (Hsame (assign hide_dialog m) []); [split; reflexivity|exact (proj2 Hm)|].
    intros id f [].
  - destruct (show (dialog (refs_of m))) eqn:Hshow;
      [|apply (Hsame m []); [apply same_dialog_refl|exact (proj2 Hm)|intros id f []]].
    apply (Hsame (assign hide_dialog m) []); [split; reflexivity|exact (proj2 Hm)|].
    intros id f [].
  - destruct (settle_quiet same_dialog same_dialog_refl same_dialog_trans app id res m (proj2 Hm))
      as (H1 & H2 & H3).
    destruct (settle app id res m) as [m' evs] eqn:E. cbn [fst snd] in *.
    apply Hsame; [exact H1|exact H2|].
    intros id' f Hin. clear -H3 Hin.
    induction evs as [|ev evs IH]; [destruct Hin|].
    destruct ev; cbn in H3; try discriminate H3;
      destruct Hin as [Ein|Hin]; try discriminate Ein; auto.
Qed.

Lemma initial_settled : settled initial.
Proof. split; [intros f E; discriminate E|constructor]. Qed.

Lemma session_settled ins :
  forall m, settled m ->
  settled (fst (session ins m))
  /\ (forall f, action (dialog (refs_of (fst (session ins m)))) = Some f ->
                action (dialog (refs_of m)) = Some f
                \/ In (Click (opener f)) (map snd ins)).
Proof.
  induction ins as [|[app i] ins IH]; intros m Hm; cbn [session].
  - cbn. auto.
  - destruct (react_settled app i m Hm) as (H1 & H2 & _).
    destruct (react app i m) as [m1 evs]; cbn [fst snd] in *.
    destruct (IH m1 H1) as [H3 H4].
    destruct (session ins m1) as [m2 log]; cbn [fst snd map] in *.
    split; [exact H3|]. intros f Hf.
    destruct (H4 f Hf) as [H|H]; [|right; right; exact H].
    destruct (H2 f H) as [H'|H']; [left; exact H'|right; left; exact H'].
Qed.

(** X15. Removing the track ids and cleaning up the files need the
    Confirm button.  In any session of the file operations view, the post
    to [/files/remove-track-ids], and likewise the post to
    [/files/cleanup-tracks], leaves only in the reaction to the Confirm
    button, while the dialog is shown under the title of that operation,
    which a click on its button has opened before, and it is then the one
    request of the reaction.  The click on the button itself sends nothing;
    Cancel, and closing the dialog, send nothing and hide it. *)
Theorem file_removal_needs_confirmation
    (ins : list (app_lookup * input)) (app : app_lookup) (i : input) (f : dialog_fn) :
  let m := fst (session ins initial) in
  (forall id,
     In (Sent id (request_of f)) (snd (react app i m)) ->
     i = DialogConfirm
     /\ show (dialog (refs_of m)) = true
     /\ title (dialog (refs_of m)) = dialog_title f
     /\ In (Click (opener f)) (map snd ins)
     /\ snd (react app i m) = [Sent (next m) (request_of f)])
  /\ snd (react app (Click (opener f)) m) = []
  /\ (show (dialog (refs_of m)) = true ->
      snd (react app DialogCancel m) = []
      /\ snd (react app DialogDismiss m) = []
      /\ show (dialog (refs_of (fst (react app DialogCancel m)))) = false
      /\ (action (dialog (refs_of m)) = Some f ->
          snd (react app DialogConfirm m) = [Sent (next m) (request_of f)])).
Proof.
  intros m.
  destruct (session_settled ins initial initial_settled) as [Hm Hclick]. fold m in Hm, Hclick.
  split; [|split].
  - intros id Hin.
    destruct (react_settled app i m Hm) as (_ & _ & H3).
    destruct (H3 id f Hin) as (Hi & Hshow & Hact & Ht & Hev).
    repeat split; auto.
    destruct (Hclick f Hact) as [H|H]; [discriminate H|exact H].
  - destruct f; reflexivity.
  - intros Hshow. cbn [react]. rewrite Hshow. repeat split.
    intros Hact. cbn [confirmAction exec]. rewrite Hact. destruct f; reflexivity.
Qed.

(** X16. A response without a body.  When the request is fulfilled with
    [null] or [undefined] for its data, the three operations that read
    [response.data.stats] off it, [embedMetadata], [countTrackIds] and
    [removeTrackIds], record a failure, whose error is the message of the
    exception of that read, while [generateM3u] and [cleanupTracks], which
    do not look at the response, record a success, provided the snackbar can
    be looked up. *)
Theorem bodiless_response_outcome (m : machine refs) (app app' : app_lookup) (d : jsval) :
  d = JNull \/ d = JUndef -> app' <> NoApp ->
  let after (i : input) :=
    lastOperation
      (refs_of (fst (settle app' (next m) (Resolved d) (fst (react app i m))))) in
  after (Click BtnGenerateM3u) = last_operation "Generate M3U Playlists" true []
  /\ (exists msg, after (Click BtnEmbedMetadata)
                  = last_operation "Embed TrackId Metadata" false [("error", JStr msg)])
  /\ (exists msg, after (Click BtnCountTrackIds)
                  = last_operation "Count TrackIds" false [("error", JStr msg)])
  /\ (show (dialog (refs_of m)) = true ->
      (action (dialog (refs_of m)) = Some RemoveTrackIdsFn ->
       exists msg, after DialogConfirm
                   = last_operation "Remove TrackIds" false [("error", JStr msg)])
      /\ (action (dialog (refs_of m)) = Some CleanupTracksFn ->
          after DialogConfirm = last_operation "Cleanup Tracks" true [])).
Proof.
  intros Hd Happ after. subst after. cbv beta.
  split; [|split; [|split]].
  - cbn [react on_click]. run_exec. cbn [fst]. run_settle.
    destruct app'; [contradiction Happ; reflexivity|..]; run_exec; reflexivity.
  - cbn [react on_click]. run_exec. cbn [fst]. run_settle.
    destruct Hd; subst d; cbn; destruct app'; cbn; eexists; reflexivity.
  - cbn [react on_click]. run_exec. cbn [fst]. run_settle.
    destruct Hd; subst d; cbn; destruct app'; cbn; eexists; reflexivity.
  - intros Hshow. cbn [react]. rewrite Hshow. cbn [confirmAction exec].
    split; intros Hact; rewrite Hact; cbn [call]; run_exec; cbn [fst]; run_settle.
    + destruct Hd; subst d; cbn; destruct app'; cbn; eexists; reflexivity.
    + destruct app'; [contradiction Happ; reflexivity|..]; run_exec; reflexivity.
Qed.

Lemma file_removal_needs_confirmation_witness :
  let ins := [(AppWith, Click BtnRemoveTrackIds)] in
  title (dialog (refs_of (fst (session ins initial)))) = "Remove All TrackIds"
  /\ In (Click BtnRemoveTrackIds) (map snd ins)
  /\ snd (react AppWith DialogConfirm (fst (session ins initial)))
     = [Sent 0 ApiCalls.removeTrackIds].
Proof.
  intros ins.
  destruct (proj1 (file_removal_needs_confirmation ins AppWith DialogConfirm
                     RemoveTrackIdsFn) 0 (or_introl eq_refl))
    as (_ & _ & H1 & H2 & H3).
  split; [exact H1|split; [exact H2|exact H3]].
Defined.

Lemma bodiless_response_outcome_witness :
  exists msg,
    lastOperation
      (refs_of (fst (settle AppWith 0 (Resolved JNull)
                       (fst (react AppWith (Click BtnCountTrackIds) initial)))))
    = last_operation "Count TrackIds" false [("error", JStr msg)].
Proof.
  refine (proj1 (proj2 (proj2 (bodiless_response_outcome initial AppWith AppWith JNull
                                 (or_introl eq_refl) _)))).
  discriminate.
Defined.

End FileOperationsFacts.

(** ** Connecting to Spotify *)

Section AppFacts.
Import Async App.
Context {NT : NumberText}.

(** X17. What a click on "Connect to Spotify" comes to.  While the
    application is connected the click does nothing.  Otherwise it sends
    the one request and raises [connecting], which is lowered again however
    the request settles, and nothing more is sent.  A rejection, and a
    response without data, leave the connection as it was and show the
    snackbar of failure.  A response whose [success] is falsy changes the
    connection, the user and the snackbar in nothing: the click has no
    visible effect.  A response whose [success] is truthy sets the
    application connected and stores the user; the snackbar then greets the
    user by [display_name], unless the response holds no user, in which
    case reading the name throws after the connection has been set, and the
    snackbar shown is the one of failure although the application now
    counts as connected. *)
Theorem connectToSpotify_outcomes (m : machine refs) (app app' : app_lookup) :
  (truthy (isSpotifyConnected (refs_of m)) = true -> react app ClickConnect m = (m, []))
  /\ (truthy (isSpotifyConnected (refs_of m)) = false ->
      let m1 := fst (react app ClickConnect m) in
      snd (react app ClickConnect m) = [Sent (next m) Api.connectSpotify]
      /\ connecting (refs_of m1) = true
      /\ forall res,
           let s2 := refs_of (fst (react app' (Settle (next m) res) m1)) in
           let failed :=
             {| snackbar_show := true; snackbar_text := "Failed to connect to Spotify";
                snackbar_color := JStr "error";
                snackbar_timeout := snackbar_timeout (snackbar (refs_of m)) |} in
           connecting s2 = false
           /\ sent_in (snd (react app' (Settle (next m) res) m1)) = []
           /\ match res with
              | Rejected _ =>
                  isSpotifyConnected s2 = isSpotifyConnected (refs_of m)
                  /\ snackbar s2 = failed
              | Resolved d =>
                  match get d "success" with
                  | inl _ =>
                      isSpotifyConnected s2 = isSpotifyConnected (refs_of m)
                      /\ snackbar s2 = failed
                  | inr success =>
                      if truthy success then
                        isSpotifyConnected s2 = JBool true
                        /\ spotifyUser s2 = get_opt d "user"
                        /\ snackbar s2
                           = match get (get_opt d "user") "display_name" with
                             | inr name =>
                                 {| snackbar_show := true;
                                    snackbar_text :=
                                      "Connected to Spotify as " ++ to_string name;
                                    snackbar_color := JStr "success";
                                    snackbar_timeout :=
                                      snackbar_timeout (snackbar (refs_of m)) |}
                             | inl _ => failed
                             end
                      else
                        isSpotifyConnected s2 = isSpotifyConnected (refs_of m)
                        /\ spotifyUser s2 = spotifyUser (refs_of m)
                        /\ snackbar s2 = snackbar (refs_of m)
                  end
              end).
Proof.
  split; intros Hc; cbn [react]; rewrite Hc; [reflexivity|].
  run_exec. rewrite Hc. run_exec. cbn [fst snd].
  split; [reflexivity|split; [reflexivity|]].
  intros res. cbn zeta. run_settle.
  destruct res as [d|e]; run_exec; [|repeat split].
  unfold read.
  destruct (get d "success") as [e|success] eqn:Hs; run_exec; [repeat split|].
  destruct (truthy success); run_exec; [|repeat split].
  assert (Hu : get d "user" = inr (get_opt d "user"))
    by (destruct d; first [discriminate Hs | reflexivity]).
  rewrite Hu. cbv beta iota. run_exec.
  destruct (get (get_opt d "user") "display_name"); run_exec; repeat split.
Qed.

End AppFacts.

Section AppExamples.
Import Async App.

Lemma connectToSpotify_outcomes_witness :
  let m1 := fst (react (NT := decimal_integers) AppWith ClickConnect initial) in
  let s2 := refs_of (fst (react (NT := decimal_integers) AppWith
                            (Settle 0 (Resolved (JObj [("success", JBool true)]))) m1)) in
  isSpotifyConnected s2 = JBool true
  /\ snackbar_text (snackbar s2) = "Failed to connect to Spotify".
Proof.
  intros m1 s2.
  pose proof (proj2 (proj2 (proj2 (connectToSpotify_outcomes
                                      (NT := decimal_integers) initial AppWith AppWith)
                                   eq_refl))
                (Resolved (JObj [("success", JBool true)]))) as H.
  cbv beta iota zeta in H. cbn [get lookup String.eqb Ascii.eqb Bool.eqb truthy] in H.
  destruct H as (_ & _ & H1 & _ & H3).
  split; [exact H1|]. change (snackbar s2) with
    (snackbar (refs_of (fst (react (NT := decimal_integers) AppWith
                               (Settle (next initial)
                                  (Resolved (JObj [("success", JBool true)])))
                               (fst (react (NT := decimal_integers) AppWith ClickConnect initial)))))).
  rewrite H3. reflexivity.
Defined.

End AppExamples.
